(** * YouTube TLDR & chapters service: transcript acquisition and summarisation core

    A shallow embedding of the TypeScript sources, one module per source unit:

    - [Js]            the ECMAScript string and number primitives the code calls
    - [Regex]         a backtracking matcher for the regular expressions it uses
    - [Eff]           thrown values and the state/exception monad of async code
    - [Url]           the platform [URL] class, as far as the resolver reads it
    - [CacheService]  src/server/services/cache.ts
    - [Retry]         server/utils/retry.ts (src/unnamed/part_003)
    - [YouTubeAPI]    client-side helper (src/server/services/api.ts, first unit)
    - [Routes]        server/routes.ts (src/unnamed/part_002)
    - [LLMService]    server/services/llm.ts (src/server/services/api.ts, second unit)
    - [Transcript]    the result types of the transcript service
    - [YouTubeService]   src/server/services/youtube.ts
    - [YouTubeServiceB]  the later revision of the same class, found as the
                         second unit of src/server/services/analytics.ts
    - [Acquisition]   the acquisition methods observed through a call log
    - [Cache]         the store of src/server/services/cache.ts
    - [RetryWithCondition]  the second function of server/utils/retry.ts
    - [CaptionTracks], [CaptionContent], [YouTubeMetadataB]
                      further methods of the later revision
    - [YouTubeMetadata]  the metadata methods of src/server/services/youtube.ts
    - [ClientFormat]  [formatDuration] of the client helper
    - [RegexSpec]     the texts a pattern denotes

    The second part states and proves the properties of the specification,
    each under the identifier of its claim, and further properties of the
    code under identifiers of their own.

    JavaScript strings are sequences of UTF-16 code units; they are modelled
    as [list N] so that [length], [substring], [padStart] and
    [String.fromCharCode] count what the source counts. *)

From Stdlib Require Import List NArith ZArith Bool Ascii String Lia.
Import ListNotations.

Set Implicit Arguments.
Set Warnings "-register-all".

(* ===================================================================== *)
(** * ECMAScript primitives *)
(* ===================================================================== *)

Module Js.

Local Open Scope N_scope.

(** A string value: a finite sequence of UTF-16 code units. *)
Definition jsstring := list N.

(** ** Literals

    Source literals are written as Rocq strings (UTF-8 bytes) and decoded to
    code units; a code point above U+FFFF becomes a surrogate pair. *)

Definition cont (b : N) : N := N.land b 63.

Definition code_units (cp : N) : list N :=
  if cp <? 65536 then [cp]
  else let v := cp - 65536 in [55296 + N.shiftr v 10; 56320 + N.land v 1023].

Fixpoint utf8_decode (bs : list N) : jsstring :=
  match bs with
  | [] => []
  | b0 :: r0 =>
    if b0 <? 128 then b0 :: utf8_decode r0
    else if b0 <? 224 then
      match r0 with
      | b1 :: r1 => ((N.land b0 31) * 64 + cont b1) :: utf8_decode r1
      | [] => [65533]
      end
    else if b0 <? 240 then
      match r0 with
      | b1 :: b2 :: r2 =>
          ((N.land b0 15) * 4096 + cont b1 * 64 + cont b2) :: utf8_decode r2
      | _ => [65533]
      end
    else
      match r0 with
      | b1 :: b2 :: b3 :: r3 =>
          code_units ((N.land b0 7) * 262144 + cont b1 * 4096 + cont b2 * 64 + cont b3)
            ++ utf8_decode r3
      | _ => [65533]
      end
  end.

Definition js (s : string) : jsstring :=
  utf8_decode (List.map (fun a => N_of_ascii a) (list_ascii_of_string s)).

Definition eqb (a b : jsstring) : bool :=
  if list_eq_dec N.eq_dec a b then true else false.

(** [s.length] *)
Definition length (s : jsstring) : Z := Z.of_nat (List.length s).

(** A string is falsy exactly when it is empty. *)
Definition truthy (s : jsstring) : bool :=
  match s with [] => false | _ => true end.

(** ** White space: [WhiteSpace] and [LineTerminator] of ECMA-262, the set
    used by [trim], by [parseInt] and by the class [\s]. *)
Definition is_space (c : N) : bool :=
  ((9 <=? c) && (c <=? 13)) || (c =? 32) || (c =? 160) || (c =? 5760)
  || ((8192 <=? c) && (c <=? 8202)) || (c =? 8232) || (c =? 8233)
  || (c =? 8239) || (c =? 8287) || (c =? 12288) || (c =? 65279).

Fixpoint dropWhile (p : N -> bool) (s : jsstring) : jsstring :=
  match s with
  | [] => []
  | c :: s' => if p c then dropWhile p s' else s
  end.

Definition trimStart (s : jsstring) : jsstring := dropWhile is_space s.
Definition trimEnd (s : jsstring) : jsstring := rev (dropWhile is_space (rev s)).
(** [s.trim()] *)
Definition trim (s : jsstring) : jsstring := trimEnd (trimStart s).

(** [s.toLowerCase()], modelled on the Basic Latin, Latin-1 Supplement and
    Cyrillic capital letters; other code units are left unchanged. *)
Definition lower (c : N) : N :=
  if (65 <=? c) && (c <=? 90) then c + 32
  else if (192 <=? c) && (c <=? 222) && negb (c =? 215) then c + 32
  else if (1040 <=? c) && (c <=? 1071) then c + 32
  else if (1024 <=? c) && (c <=? 1039) then c + 80
  else c.

Definition toLowerCase (s : jsstring) : jsstring := List.map lower s.

(** ** Searching *)

Fixpoint startsWith (s p : jsstring) : bool :=
  match p, s with
  | [], _ => true
  | _ :: _, [] => false
  | a :: p', b :: s' => (a =? b) && startsWith s' p'
  end.

(** [s.includes(p)] *)
Fixpoint includes (s p : jsstring) : bool :=
  startsWith s p ||
  match s with
  | [] => false
  | _ :: s' => includes s' p
  end.

(** [s.indexOf(p)]: the first index at which [p] occurs, or -1. *)
Fixpoint indexOf_from (i : Z) (s p : jsstring) : Z :=
  if startsWith s p then i
  else match s with
       | [] => (-1)%Z
       | _ :: s' => indexOf_from (i + 1)%Z s' p
       end.

Definition indexOf (s p : jsstring) : Z := indexOf_from 0%Z s p.

(** [s.substring(a)] and [s.slice(a)] for a non-negative [a];
    [s.substring(0, b)] for a non-negative [b]. *)
Definition substring_from (s : jsstring) (a : Z) : jsstring := skipn (Z.to_nat a) s.
Definition slice_from (s : jsstring) (a : Z) : jsstring := skipn (Z.to_nat a) s.
Definition substring_to (s : jsstring) (b : Z) : jsstring := firstn (Z.to_nat b) s.

(** [s.replace(p, r)] with a string pattern: the first occurrence only. *)
Fixpoint replace_first (s p r : jsstring) : jsstring :=
  if startsWith s p then r ++ skipn (List.length p) s
  else match s with
       | [] => []
       | c :: s' => c :: replace_first s' p r
       end.

(** [s.split(sep)] for a separator of one code unit. *)
Fixpoint split (sep : N) (s : jsstring) : list jsstring :=
  match s with
  | [] => [[]]
  | c :: s' =>
    if c =? sep then [] :: split sep s'
    else match split sep s' with
         | [] => [[c]]
         | p :: ps => (c :: p) :: ps
         end
  end.

(** [parts.join(sep)] *)
Fixpoint join (sep : jsstring) (parts : list jsstring) : jsstring :=
  match parts with
  | [] => []
  | [p] => p
  | p :: ps => p ++ sep ++ join sep ps
  end.

(** [s.padStart(n, '0')] *)
Definition padStart0 (n : nat) (s : jsstring) : jsstring :=
  repeat 48 (n - List.length s) ++ s.

(** ** Numbers

    The code only produces numbers through [parseInt] and consumes them
    through [toString] and [String.fromCharCode], so the Number values that
    occur are NaN, the infinities and the integers representable in
    binary64 ([-0] prints as [0] and is identified with it). *)

Inductive number : Type :=
| NaN : number
| Inf (negative : bool) : number
| Fin (z : Z) : number.

(** Round a natural number to the nearest binary64 value, ties to even:
    exact below 2^53, otherwise 53 significant bits are kept. *)
Definition round53 (v : N) : N :=
  if v <? 2 ^ 53 then v
  else
    let e := N.log2 v - 52 in
    let q := v / 2 ^ e in
    let r := v mod 2 ^ e in
    let half := 2 ^ (e - 1) in
    let q' := if r <? half then q
              else if half <? r then q + 1
              else if N.even q then q else q + 1 in
    q' * 2 ^ e.

Definition of_magnitude (negative : bool) (m : N) : number :=
  let w := round53 m in
  if 2 ^ 1024 <=? w then Inf negative
  else Fin (if negative then Z.opp (Z.of_N w) else Z.of_N w).

(** The value of one digit character in radixes up to 36. *)
Definition digit_value (c : N) : option N :=
  if (48 <=? c) && (c <=? 57) then Some (c - 48)
  else if (97 <=? c) && (c <=? 122) then Some (c - 87)
  else if (65 <=? c) && (c <=? 90) then Some (c - 55)
  else None.

(** The longest prefix of radix-[R] digits, read most significant first;
    [None] while no digit has been read. *)
Fixpoint scan_digits (R : N) (s : jsstring) (acc : option N) : option N :=
  match s with
  | [] => acc
  | c :: s' =>
    match digit_value c with
    | Some d =>
      if d <? R
      then scan_digits R s' (Some (match acc with Some a => a * R + d | None => d end))
      else acc
    | None => acc
    end
  end.

Definition is_hex_prefix (s : jsstring) : bool :=
  match s with
  | z :: x :: _ => (z =? 48) && ((x =? 120) || (x =? 88))
  | _ => false
  end.

(** [parseInt(s, radix)]; [radix = 0] stands for an absent radix. *)
Definition parseInt (s : jsstring) (radix : N) : number :=
  let s0 := trimStart s in
  let '(negative, s1) :=
    match s0 with
    | c :: r => if c =? 45 then (true, r) else if c =? 43 then (false, r) else (false, s0)
    | [] => (false, s0)
    end in
  if negb (radix =? 0) && ((radix <? 2) || (36 <? radix)) then NaN
  else
    let stripPrefix := (radix =? 0) || (radix =? 16) in
    let R := if radix =? 0 then 10 else radix in
    let '(R', s2) :=
      if stripPrefix && is_hex_prefix s1 then (16, skipn 2 s1) else (R, s1) in
    match scan_digits R' s2 None with
    | None => NaN
    | Some m => of_magnitude negative m
    end.

(** Decimal digits of a natural number, most significant first. *)
Fixpoint digits_aux (fuel : nat) (n : N) (acc : jsstring) : jsstring :=
  match fuel with
  | O => acc
  | S f =>
    let acc' := (48 + n mod 10) :: acc in
    if n / 10 =? 0 then acc' else digits_aux f (n / 10) acc'
  end.

Definition digits (n : N) : jsstring := digits_aux (S (N.to_nat (N.log2 n))) n [].

(** [Number::toString]: the decimal with the fewest significant digits that
    still denotes [v]; among those the one closest to [v], the even one on a
    tie. With [k] significant digits the candidates are the two multiples
    of [10^(nd-k)] around [v]. *)
Definition shortest_at (v : N) (nd k : nat) : option N :=
  let p := 10 ^ N.of_nat (nd - k) in
  let lo := (v / p) * p in
  let hi := lo + p in
  match round53 lo =? v, round53 hi =? v with
  | true, false => Some lo
  | false, true => Some hi
  | true, true =>
    if v - lo <? hi - v then Some lo
    else if hi - v <? v - lo then Some hi
    else if N.even (lo / p) then Some lo else Some hi
  | false, false => None
  end.

Fixpoint shortest_from (v : N) (nd k fuel : nat) : N :=
  match fuel with
  | O => v
  | S f =>
    match shortest_at v nd k with
    | Some c => c
    | None => shortest_from v nd (S k) f
    end
  end.

Definition shortest (v : N) : N :=
  let nd := List.length (digits v) in shortest_from v nd 1 nd.

Definition strip_trailing_zeros (ds : jsstring) : jsstring :=
  rev (dropWhile (fun c => c =? 48) (rev ds)).

(** The text of a positive representable integer: plain digits below
    10^21, exponent notation from there on. *)
Definition magnitude_toString (v : N) : jsstring :=
  let c := shortest v in
  let ds := digits c in
  if c <? 10 ^ 21 then ds
  else
    let e := digits (N.of_nat (List.length ds - 1)) in
    match strip_trailing_zeros ds with
    | [] => ds
    | [d] => d :: js "e+" ++ e
    | d :: more => d :: js "." ++ more ++ js "e+" ++ e
    end.

(** [x.toString()] *)
Definition toString (x : number) : jsstring :=
  match x with
  | NaN => js "NaN"
  | Inf false => js "Infinity"
  | Inf true => js "-Infinity"
  | Fin Z0 => js "0"
  | Fin (Zpos p) => magnitude_toString (Npos p)
  | Fin (Zneg p) => js "-" ++ magnitude_toString (Npos p)
  end.

(** The numbers whose text is plain decimal digits, or [NaN]: the
    integers of magnitude below 10^21. *)
Definition plain (x : number) : bool :=
  match x with
  | NaN => true
  | Inf _ => false
  | Fin z => (Z.abs z <? 10 ^ 21)%Z
  end.

(** The Number values proper: what [parseInt] returns is NaN, an infinity
    or an integer that rounding to binary64 leaves unchanged. *)
Definition binary64 (x : number) : Prop :=
  match x with
  | Fin z => round53 (Z.abs_N z) = Z.abs_N z
  | _ => True
  end.

(** The decimal digits, and the value of a string of them. *)
Definition is_decimal (c : N) : Prop := 48 <= c <= 57.

Definition decimal_value (s : jsstring) : N :=
  List.fold_left (fun a c => a * 10 + (c - 48)) s 0.

(** [String.fromCharCode(x)]: one code unit, [ToUint16 x]. *)
Definition fromCharCode (x : number) : jsstring :=
  match x with
  | Fin z => [Z.to_N (z mod 65536)]
  | _ => [0]
  end.

End Js.

Abbreviation jsstring := Js.jsstring.
Abbreviation js := Js.js.

(* ===================================================================== *)
(** * Regular expressions *)
(* ===================================================================== *)

(** The regular expressions of the sources use character classes,
    concatenation, greedy quantifiers, capture groups and the anchors [^]
    and [$]. [run] is the backtracking matcher of ECMA-262 for that
    fragment, in continuation-passing style: alternatives are tried left to
    right, a quantifier takes as many iterations as it can and gives them
    back one at a time, and an iteration that consumes nothing is not
    repeated. No group occurs under a quantifier, so captures are never
    reset. *)

Module Regex.

Import Js.

Inductive re : Type :=
| Eps : re
| Cls (p : N -> bool) : re
| Cat (r1 r2 : re) : re
| Alt (r1 r2 : re) : re
| Star (r : re) : re
| Grp (i : nat) (r : re) : re
| Bol : re
| Eol : re.

Definition Chr (c : N) : re := Cls (N.eqb c).
Definition Plus (r : re) : re := Cat r (Star r).
Definition Opt (r : re) : re := Alt r Eps.

(** A literal string. *)
Fixpoint Lit (s : jsstring) : re :=
  match s with
  | [] => Eps
  | c :: s' => Cat (Chr c) (Lit s')
  end.

Definition caps := list (nat * jsstring).

Fixpoint group (i : nat) (c : caps) : option jsstring :=
  match c with
  | [] => None
  | (j, s) :: c' => if Nat.eqb i j then Some s else group i c'
  end.

(** [run total r s c k]: match [r] at the position where [s] remains of an
    input of [total] code units, then continue with [k]. *)
Fixpoint run (A : Type) (total : nat) (r : re) (s : jsstring) (c : caps)
    (k : jsstring -> caps -> option A) {struct r} : option A :=
  match r with
  | Eps => k s c
  | Cls p =>
    match s with
    | x :: s' => if p x then k s' c else None
    | [] => None
    end
  | Cat r1 r2 => run total r1 s c (fun s' c' => run total r2 s' c' k)
  | Alt r1 r2 =>
    match run total r1 s c k with
    | Some a => Some a
    | None => run total r2 s c k
    end
  | Star r1 =>
    (fix star (n : nat) (s : jsstring) (c : caps) {struct n} : option A :=
       match n with
       | O => k s c
       | S n' =>
         match run total r1 s c
                 (fun s' c' =>
                    if Nat.ltb (List.length s') (List.length s)
                    then star n' s' c' else None) with
         | Some a => Some a
         | None => k s c
         end
       end) (List.length s) s c
  | Grp i r1 =>
    run total r1 s c
      (fun s' c' => k s' ((i, firstn (List.length s - List.length s') s) :: c'))
  | Bol => if Nat.eqb (List.length s) total then k s c else None
  | Eol => match s with [] => k s c | _ :: _ => None end
  end.

(** One match: the matched text (group 0), the groups, and the input left. *)
Record found : Type := { matched : jsstring; groups : caps; rest : jsstring }.

Definition match_here (total : nat) (r : re) (s : jsstring) : option found :=
  run total r s []
    (fun s' c' =>
       Some {| matched := firstn (List.length s - List.length s') s;
               groups := c'; rest := s' |}).

(** The leftmost match at or after the current position, with the text
    skipped before it. *)
Fixpoint search_from (total : nat) (r : re) (s : jsstring) : option (jsstring * found) :=
  match match_here total r s with
  | Some f => Some ([], f)
  | None =>
    match s with
    | [] => None
    | x :: s' =>
      match search_from total r s' with
      | Some (skipped, f) => Some (x :: skipped, f)
      | None => None
      end
    end
  end.

(** [s.match(r)] without the [g] flag. *)
Definition exec (r : re) (s : jsstring) : option found :=
  match search_from (List.length s) r s with
  | Some (_, f) => Some f
  | None => None
  end.

(** [r.test(s)] *)
Definition test (r : re) (s : jsstring) : bool :=
  match exec r s with Some _ => true | None => false end.

(** All matches, left to right, as the [g] flag finds them: after a match
    the search resumes where it ended, one code unit further when the match
    was empty. Each match comes with the text skipped before it; the text
    after the last match is returned as well. *)
Fixpoint scan (fuel total : nat) (r : re) (s : jsstring)
    : list (jsstring * found) * jsstring :=
  match fuel with
  | O => ([], s)
  | S fuel' =>
    match search_from total r s with
    | None => ([], s)
    | Some (skipped, f) =>
      match matched f, rest f with
      | [], [] => ([(skipped, f)], [])
      | [], x :: s' =>
        let '(ms, tail) := scan fuel' total r s' in
        match ms with
        | [] => ([(skipped, f)], x :: tail)
        | (sk, f') :: ms' => ((skipped, f) :: (x :: sk, f') :: ms', tail)
        end
      | _ :: _, s' =>
        let '(ms, tail) := scan fuel' total r s' in ((skipped, f) :: ms, tail)
      end
    end
  end.

Definition match_all (r : re) (s : jsstring) : list found :=
  List.map snd (fst (scan (S (List.length s)) (List.length s) r s)).

(** [s.replace(r, f)] with the [g] flag and a replacement function. *)
Definition replace_all (r : re) (f : found -> jsstring) (s : jsstring) : jsstring :=
  let '(ms, tail) := scan (S (List.length s)) (List.length s) r s in
  List.concat (List.map (fun m => fst m ++ f (snd m)) ms) ++ tail.

(** [s.replace(r, repl)] without the [g] flag: the leftmost match only. *)
Definition replace_one (r : re) (repl : jsstring) (s : jsstring) : jsstring :=
  match search_from (List.length s) r s with
  | None => s
  | Some (skipped, f) => skipped ++ repl ++ rest f
  end.

Definition digit : re := Cls (fun c => (48 <=? c)%N && (c <=? 57)%N).
Definition space : re := Cls is_space.
Definition not_chr (c : N) : re := Cls (fun x => negb (N.eqb x c)).

End Regex.

(* ===================================================================== *)
(** * Thrown values and asynchronous code *)
(* ===================================================================== *)

(** An [async] function is a computation over the state [W] of everything
    outside the program (network, clock) that either returns or throws;
    [await] is sequencing. Console output is not modelled. *)

Module Eff.

(** The values that are thrown. [error instanceof Error] holds of [VError]
    alone; [text_of] is [String(value)]. *)
Inductive value : Type :=
| VError (message : jsstring) : value
| VString (s : jsstring) : value
| VNull : value
| VUndefined : value.

Definition instanceof_Error (v : value) : bool :=
  match v with VError _ => true | _ => false end.

Definition String_of (v : value) : jsstring :=
  match v with
  | VError m => js "Error: " ++ m
  | VString s => s
  | VNull => js "null"
  | VUndefined => js "undefined"
  end.

(** Reading a property of [null] or [undefined] throws a TypeError. *)
Definition nullish (v : value) : bool :=
  match v with VNull | VUndefined => true | _ => false end.

Inductive outcome (A : Type) : Type :=
| Ok (a : A) : outcome A
| Throw (e : value) : outcome A.

Arguments Ok {A} a.
Arguments Throw {A} e.

Definition M (W A : Type) : Type := W -> outcome A * W.

Definition ret {W A : Type} (a : A) : M W A := fun w => (Ok a, w).

Definition throw {W A : Type} (e : value) : M W A := fun w => (Throw e, w).

Definition bind {W A B : Type} (m : M W A) (f : A -> M W B) : M W B :=
  fun w =>
    match m w with
    | (Ok a, w') => f a w'
    | (Throw e, w') => (Throw e, w')
    end.

(** [try { body } catch (e) { handler }] *)
Definition try_catch {W A : Type} (body : M W A) (handler : value -> M W A) : M W A :=
  fun w =>
    match body w with
    | (Ok a, w') => (Ok a, w')
    | (Throw e, w') => handler e w'
    end.

(** A synchronous function that may throw, used from async code. *)
Definition lift {W A : Type} (o : outcome A) : M W A := fun w => (o, w).

(** Observation of calls: the computation [m] run in a world that also
    records, in order, a label for every call made. *)
Definition logged {W A L : Type} (label : L) (m : M W A) : M (W * list L) A :=
  fun wl =>
    let '(r, w') := m (fst wl) in (r, (w', snd wl ++ [label])).

End Eff.

Declare Scope eff_scope.
Delimit Scope eff_scope with eff.
Notation "x <- m ;; k" := (Eff.bind m (fun x => k))
  (at level 61, m at next level, right associativity) : eff_scope.
Notation "m >>= f" := (Eff.bind m f)
  (at level 58, left associativity) : eff_scope.

(* ===================================================================== *)
(** * The platform [URL] class *)
(* ===================================================================== *)

(** [new URL(url)] is the URL parser of the platform (WHATWG URL standard,
    no base URL). The resolver reads three things off its result: the
    host name, the path name and the query parameters. [parse] models the
    parser for that purpose: white-space stripping, the scheme, special and
    other schemes, credentials, port validation, lower-casing and
    percent-decoding of domains, forbidden host code points, IPv4 and IPv6
    literals with their canonical forms, the hosts and drive letters of
    [file:] URLs, dot segments, percent-encoding of path segments, and
    form-urlencoded decoding of the query. Not modelled: the IDNA
    processing of domains that hold a code point outside ASCII or a label
    starting with [xn--] (such a domain is only lower-cased), and the
    replacement of ill-formed UTF-8 by U+FFFD. The statements below that
    range over all URL strings take the parser as a parameter. *)

Module Url.

Import Js.
Local Open Scope N_scope.

Record URL : Type :=
  { protocol : jsstring;
    hostname : jsstring;
    pathname : jsstring;
    searchParams : list (jsstring * jsstring) }.

(** [searchParams.get(name)]: the first value under [name], or [null]. *)
Fixpoint searchParams_get (name : jsstring) (params : list (jsstring * jsstring))
    : option jsstring :=
  match params with
  | [] => None
  | (k, v) :: params' => if eqb k name then Some v else searchParams_get name params'
  end.

Definition ascii_lower (c : N) : N := if (65 <=? c) && (c <=? 90) then c + 32 else c.
Definition is_alpha (c : N) : bool := (97 <=? ascii_lower c) && (ascii_lower c <=? 122).
Definition is_digit (c : N) : bool := (48 <=? c) && (c <=? 57).

Definition hex_value (c : N) : option N :=
  if is_digit c then Some (c - 48)
  else if (97 <=? ascii_lower c) && (ascii_lower c <=? 102) then Some (ascii_lower c - 87)
  else None.

Definition hex_char (n : N) : N := if n <? 10 then 48 + n else 55 + n.

Definition pct (b : N) : jsstring := [37; hex_char (b / 16); hex_char (b mod 16)].

(** UTF-8 bytes of a code point, and of a string (a lone surrogate is
    encoded as U+FFFD). *)
Definition utf8_of_cp (cp : N) : list N :=
  if cp <? 128 then [cp]
  else if cp <? 2048 then [192 + cp / 64; 128 + cp mod 64]
  else if cp <? 65536 then [224 + cp / 4096; 128 + (cp / 64) mod 64; 128 + cp mod 64]
  else [240 + cp / 262144; 128 + (cp / 4096) mod 64; 128 + (cp / 64) mod 64; 128 + cp mod 64].

Definition is_high (c : N) : bool := (55296 <=? c) && (c <=? 56319).
Definition is_low (c : N) : bool := (56320 <=? c) && (c <=? 57343).

(** The code points of a string. *)
Fixpoint code_points (s : jsstring) : list N :=
  match s with
  | [] => []
  | c :: s' =>
    if is_high c then
      match s' with
      | d :: s'' =>
        if is_low d then (65536 + (c - 55296) * 1024 + (d - 56320)) :: code_points s''
        else 65533 :: code_points s'
      | [] => [65533]
      end
    else if is_low c then 65533 :: code_points s'
    else c :: code_points s'
  end.

Definition utf8_bytes (s : jsstring) : list N := List.flat_map utf8_of_cp (code_points s).

(** Percent-encode the code points in [set]; code points above U+007E are
    in every set. *)
Definition percent_encode (set : N -> bool) (s : jsstring) : jsstring :=
  List.flat_map
    (fun cp => if (126 <? cp) || set cp then List.flat_map pct (utf8_of_cp cp) else [cp])
    (code_points s).

Fixpoint percent_decode (bs : list N) : list N :=
  match bs with
  | [] => []
  | b :: bs' =>
    match b =? 37, bs' with
    | true, h :: l :: bs'' =>
      match hex_value h, hex_value l with
      | Some x, Some y => (x * 16 + y) :: percent_decode bs''
      | _, _ => b :: percent_decode bs'
      end
    | _, _ => b :: percent_decode bs'
    end
  end.

Definition is_c0 (c : N) : bool := (c <? 32) || (c =? 127).

Definition path_set (c : N) : bool :=
  is_c0 c || (c =? 32) || (c =? 34) || (c =? 35) || (c =? 60) || (c =? 62)
  || (c =? 63) || (c =? 96) || (c =? 123) || (c =? 125).

Definition forbidden_host (c : N) : bool :=
  (c =? 0) || (c =? 9) || (c =? 10) || (c =? 13) || (c =? 32) || (c =? 35)
  || (c =? 47) || (c =? 58) || (c =? 60) || (c =? 62) || (c =? 63) || (c =? 64)
  || (c =? 91) || (c =? 92) || (c =? 93) || (c =? 94) || (c =? 124).

Definition forbidden_domain (c : N) : bool :=
  forbidden_host c || is_c0 c || (c =? 37).

(** Leading and trailing C0 controls and spaces are stripped, tabs and
    newlines removed everywhere. *)
Definition strip (s : jsstring) : jsstring :=
  let c0_or_space := fun c => c <=? 32 in
  let inner := rev (dropWhile c0_or_space (rev (dropWhile c0_or_space s))) in
  List.filter (fun c => negb ((c =? 9) || (c =? 10) || (c =? 13))) inner.

(** The scheme, lower-cased, and what follows its colon. *)
Fixpoint scheme_rest (s acc : jsstring) : option (jsstring * jsstring) :=
  match s with
  | [] => None
  | c :: s' =>
    if c =? 58 then Some (rev acc, s')
    else if is_alpha c || is_digit c || (c =? 43) || (c =? 45) || (c =? 46)
    then scheme_rest s' (ascii_lower c :: acc)
    else None
  end.

Definition parse_scheme (s : jsstring) : option (jsstring * jsstring) :=
  match s with
  | c :: _ => if is_alpha c then scheme_rest s [] else None
  | [] => None
  end.

Definition is_special (scheme : jsstring) : bool :=
  eqb scheme (js "http") || eqb scheme (js "https") || eqb scheme (js "ftp")
  || eqb scheme (js "ws") || eqb scheme (js "wss") || eqb scheme (js "file").

(** The prefix before the first code unit satisfying [stop], and the rest. *)
Fixpoint break_at (stop : N -> bool) (s : jsstring) : jsstring * jsstring :=
  match s with
  | [] => ([], [])
  | c :: s' =>
    if stop c then ([], s)
    else let '(a, b) := break_at stop s' in (c :: a, b)
  end.

(** The part after the last [@], and whether there was one. *)
Fixpoint after_last_at (s : jsstring) : option jsstring :=
  match s with
  | [] => None
  | c :: s' =>
    match after_last_at s' with
    | Some r => Some r
    | None => if c =? 64 then Some s' else None
    end
  end.

(** Host and port: the first colon outside square brackets separates them. *)
Fixpoint host_port (inside : bool) (s : jsstring) : jsstring * option jsstring :=
  match s with
  | [] => ([], None)
  | c :: s' =>
    if (c =? 58) && negb inside then ([], Some s')
    else
      let inside' := if c =? 91 then true else if c =? 93 then false else inside in
      let '(h, p) := host_port inside' s' in (c :: h, p)
  end.

Definition port_ok (p : jsstring) : bool :=
  List.forallb is_digit p &&
  match scan_digits 10 p None with
  | Some n => n <=? 65535
  | None => true
  end.

(** An IPv4 number: hexadecimal after [0x], octal after a leading [0],
    decimal otherwise. *)
Fixpoint number_in (R : N) (s : jsstring) (acc : N) : option N :=
  match s with
  | [] => Some acc
  | c :: s' =>
    match hex_value c with
    | Some d => if d <? R then number_in R s' (acc * R + d) else None
    | None => None
    end
  end.

Definition ipv4_number (s : jsstring) : option N :=
  match s with
  | [] => None
  | 48 :: x :: s' =>
    if ascii_lower x =? 120 then number_in 16 s' 0 else number_in 8 (x :: s') 0
  | _ => number_in 10 s 0
  end.

(** The parts of a domain between its dots, a final empty part left out. *)
Definition dotted (domain : jsstring) : list jsstring :=
  let parts := split 46 domain in
  match rev parts with
  | [] :: part :: before => rev (part :: before)
  | _ => parts
  end.

(** A domain ends in a number when its last part is made of digits or is
    an IPv4 number. *)
Definition ends_in_number (domain : jsstring) : bool :=
  match rev (dotted domain) with
  | [] => false
  | last :: _ =>
    (truthy last && List.forallb is_digit last)
    || match ipv4_number last with Some _ => true | None => false end
  end.

Fixpoint all_some (l : list (option N)) : option (list N) :=
  match l with
  | [] => Some []
  | Some n :: l' =>
    match all_some l' with Some ns => Some (n :: ns) | None => None end
  | None :: _ => None
  end.

(** The IPv4 parser: at most four numbers, all but the last below 256, the
    last filling the remaining bytes. *)
Definition parse_ipv4 (domain : jsstring) : option N :=
  let parts := dotted domain in
  if (4 <? List.length parts)%nat then None
  else
    match all_some (List.map ipv4_number parts) with
    | None => None
    | Some numbers =>
      match rev numbers with
      | [] => None
      | last :: before =>
        if List.existsb (fun n => 255 <? n) before then None
        else if 256 ^ (5 - N.of_nat (List.length numbers)) <=? last then None
        else
          Some (last + snd (List.fold_left
                              (fun '(counter, sum) n => (counter + 1, sum + n * 256 ^ (3 - counter)))
                              (rev before) (0, 0)))
      end
    end.

Definition serialize_ipv4 (address : N) : jsstring :=
  digits (address / 16777216) ++ [46] ++ digits ((address / 65536) mod 256) ++ [46]
  ++ digits ((address / 256) mod 256) ++ [46] ++ digits (address mod 256).

(** At most [n] hexadecimal digits: their value, their number and the rest. *)
Fixpoint hex_piece (n : nat) (s : jsstring) (value : N) (len : nat) : N * nat * jsstring :=
  match n, s with
  | S n', c :: s' =>
    match hex_value c with
    | Some d => hex_piece n' s' (value * 16 + d) (S len)
    | None => (value, len, s)
    end
  | _, _ => (value, len, s)
  end.

(** The dotted quad that may end an IPv6 address, as two pieces: four
    decimal numbers below 256 without leading zeros. *)
Definition quad_part (part : jsstring) : option N :=
  match part with
  | [] => None
  | [c] => if is_digit c then Some (c - 48) else None
  | c :: _ =>
    if List.forallb is_digit part && negb (c =? 48) && (List.length part <=? 3)%nat
    then match number_in 10 part 0 with
         | Some n => if n <=? 255 then Some n else None
         | None => None
         end
    else None
  end.

Definition quad (s : jsstring) : option (N * N) :=
  match all_some (List.map quad_part (split 46 s)) with
  | Some [a; b; c; d] => Some (a * 256 + b, c * 256 + d)
  | _ => None
  end.

(** The loop of the IPv6 parser: [pieces] are the pieces read so far and
    [compress] the index after the double colon, when one has been read. *)
Fixpoint ipv6_pieces (fuel : nat) (s : jsstring) (pieces : list N) (compress : option nat)
    : option (list N * option nat) :=
  match fuel with
  | O => None
  | S fuel' =>
    match s with
    | [] => Some (pieces, compress)
    | c :: s' =>
      if (8 <=? List.length pieces)%nat then None
      else if c =? 58 then
        match compress with
        | Some _ => None
        | None => ipv6_pieces fuel' s' (pieces ++ [0]) (Some (S (List.length pieces)))
        end
      else
        let '(value, len, rest) := hex_piece 4 s 0 0 in
        match rest with
        | [] => Some (pieces ++ [value], compress)
        | 46 :: _ =>
          if (len =? 0)%nat || (6 <? List.length pieces)%nat then None
          else match quad s with
               | Some (high, low) => Some (pieces ++ [high; low], compress)
               | None => None
               end
        | 58 :: [] => None
        | 58 :: rest' => ipv6_pieces fuel' rest' (pieces ++ [value]) compress
        | _ => None
        end
    end
  end.

Definition parse_ipv6 (s : jsstring) : option (list N) :=
  let start :=
    match s with
    | 58 :: 58 :: s' => Some (s', [0], Some 1%nat)
    | 58 :: _ => None
    | _ => Some (s, [], None)
    end in
  match start with
  | None => None
  | Some (s', pieces, compress) =>
    match ipv6_pieces (S (List.length s')) s' pieces compress with
    | Some (pieces', Some k) =>
      Some (firstn k pieces' ++ repeat 0 (8 - List.length pieces') ++ skipn k pieces')
    | Some (pieces', None) => if (List.length pieces' =? 8)%nat then Some pieces' else None
    | None => None
    end
  end.

(** The serializer: the first longest run of two or more zero pieces is
    written as a double colon, the pieces in lower-case hexadecimal. *)
Fixpoint zero_run (l : list N) : nat :=
  match l with
  | 0 :: l' => S (zero_run l')
  | _ => O
  end.

Fixpoint longest_run (l : list N) (i : nat) (best : option (nat * nat)) : option (nat * nat) :=
  match l with
  | [] => best
  | _ :: l' =>
    let n := zero_run l in
    let longer := match best with Some (_, m) => (m <? n)%nat | None => true end in
    longest_run l' (S i) (if (2 <=? n)%nat && longer then Some (i, n) else best)
  end.

Definition hex_lower (n : N) : N := if n <? 10 then 48 + n else 87 + n.

Definition hex_of_piece (n : N) : jsstring :=
  let leading := dropWhile (fun d => d =? 0) [n / 4096; (n / 256) mod 16; (n / 16) mod 16] in
  List.map hex_lower (leading ++ [n mod 16]).

Definition serialize_ipv6 (address : list N) : jsstring :=
  match longest_run address 0 None with
  | Some (i, n) =>
    join (js ":") (List.map hex_of_piece (firstn i address)) ++ js "::"
    ++ join (js ":") (List.map hex_of_piece (skipn (i + n) address))
  | None => join (js ":") (List.map hex_of_piece address)
  end.

(** The host parser. *)
Definition parse_host (special : bool) (host : jsstring) : option jsstring :=
  match host with
  | 91 :: inside =>
    if eqb (skipn (List.length host - 1) host) [93]
    then match parse_ipv6 (removelast inside) with
         | Some address => Some ([91] ++ serialize_ipv6 address ++ [93])
         | None => None
         end
    else None
  | _ =>
    if special then
      let domain := List.map ascii_lower (utf8_decode (percent_decode (utf8_bytes host))) in
      match domain with
      | [] => None
      | _ =>
        if List.existsb forbidden_domain domain then None
        else if ends_in_number domain then
          match parse_ipv4 domain with
          | Some address => Some (serialize_ipv4 address)
          | None => None
          end
        else Some domain
      end
    else
      if List.existsb forbidden_host host then None
      else Some (percent_encode is_c0 host)
  end.

Definition parse_authority (special : bool) (authority : jsstring) : option jsstring :=
  let credentials := after_last_at authority in
  let hostport := match credentials with Some r => r | None => authority end in
  match credentials, hostport with
  | Some _, [] => None
  | _, _ =>
    let '(host, port) := host_port false hostport in
    match host with
    | [] =>
      if special then None
      else match credentials, port with
           | None, None => Some []
           | _, _ => None
           end
    | _ =>
      match port with
      | Some p => if port_ok p then parse_host special host else None
      | None => parse_host special host
      end
    end
  end.

Definition single_dot (seg : jsstring) : bool :=
  eqb seg (js ".") || eqb (List.map ascii_lower seg) (js "%2e").

Definition double_dot (seg : jsstring) : bool :=
  let l := List.map ascii_lower seg in
  eqb l (js "..") || eqb l (js ".%2e") || eqb l (js "%2e.") || eqb l (js "%2e%2e").

(** The path state: [acc] is the path so far, last segment first. *)
Fixpoint path_state (segs : list jsstring) (acc : list jsstring) : list jsstring :=
  match segs with
  | [] => rev acc
  | [seg] =>
    if double_dot seg then rev ([] :: List.tl acc)
    else if single_dot seg then rev ([] :: acc)
    else rev (percent_encode path_set seg :: acc)
  | seg :: segs' =>
    if double_dot seg then path_state segs' (List.tl acc)
    else if single_dot seg then path_state segs' acc
    else path_state segs' (percent_encode path_set seg :: acc)
  end.

(** Split on [/], and on [\] as well in special URLs. *)
Definition path_split (special : bool) (s : jsstring) : list jsstring :=
  split 47 (if special then List.map (fun c => if c =? 92 then 47 else c) s else s).

Definition serialize_path (segs : list jsstring) : jsstring :=
  List.flat_map (fun seg => 47 :: seg) segs.

(** The path name of a hierarchical URL from the text between the
    authority and the query. *)
Definition parse_path (special : bool) (path : jsstring) : jsstring :=
  match path with
  | [] => if special then js "/" else []
  | _ :: after_slash => serialize_path (path_state (path_split special after_slash) [])
  end.

(** [application/x-www-form-urlencoded] parsing of the query. *)
Definition form_decode (s : jsstring) : jsstring :=
  utf8_decode (percent_decode
                 (List.map (fun b => if b =? 43 then 32 else b) (utf8_bytes s))).

Definition parse_query (query : jsstring) : list (jsstring * jsstring) :=
  List.map
    (fun pair =>
       let '(name, value) := break_at (fun c => c =? 61) pair in
       (form_decode name, form_decode (List.tl value)))
    (List.filter truthy (split 38 query)).

Definition is_slash (special : bool) (c : N) : bool :=
  (c =? 47) || (special && (c =? 92)).

(** A Windows drive letter, and one written with a colon. *)
Definition drive_letter (seg : jsstring) : bool :=
  match seg with
  | [a; b] => is_alpha a && ((b =? 58) || (b =? 124))
  | _ => false
  end.

Definition normalized_drive_letter (seg : jsstring) : bool :=
  match seg with
  | [a; b] => is_alpha a && (b =? 58)
  | _ => false
  end.

(** The path state of [file:] URLs: a drive letter that opens the path is
    written with a colon and no double dot removes it. *)
Definition file_shorten (acc : list jsstring) : list jsstring :=
  match acc with
  | [d] => if normalized_drive_letter d then acc else []
  | _ => List.tl acc
  end.

Definition file_push (seg : jsstring) (acc : list jsstring) : list jsstring :=
  match acc, seg with
  | [], [a; b] => if drive_letter seg then [[a; 58]] else [percent_encode path_set seg]
  | _, _ => percent_encode path_set seg :: acc
  end.

Fixpoint file_path_state (segs : list jsstring) (acc : list jsstring) : list jsstring :=
  match segs with
  | [] => rev acc
  | [seg] =>
    if double_dot seg then rev ([] :: file_shorten acc)
    else if single_dot seg then rev ([] :: acc)
    else rev (file_push seg acc)
  | seg :: segs' =>
    if double_dot seg then file_path_state segs' (file_shorten acc)
    else if single_dot seg then file_path_state segs' acc
    else file_path_state segs' (file_push seg acc)
  end.

Definition parse_file_path (path : jsstring) : jsstring :=
  match path with
  | [] => js "/"
  | _ :: after_slash => serialize_path (file_path_state (path_split true after_slash) [])
  end.

(** The host of a [file:] URL: no credentials and no port; a drive letter
    in its place opens the path; [localhost] is the empty host. *)
Definition parse_file_host (authority path : jsstring) : option (jsstring * jsstring) :=
  if drive_letter authority then Some ([], parse_file_path (47 :: authority ++ path))
  else
    match authority with
    | [] => Some ([], parse_file_path path)
    | _ =>
      match parse_host true authority with
      | Some host =>
        Some (if eqb host (js "localhost") then [] else host, parse_file_path path)
      | None => None
      end
    end.

(** [new URL(input)]; [None] where the constructor throws a TypeError. *)
Definition parse (input : jsstring) : option URL :=
  match parse_scheme (strip input) with
  | None => None
  | Some (scheme, after_scheme) =>
    let special := is_special scheme in
    let '(before_fragment, _) := break_at (fun c => c =? 35) after_scheme in
    let '(hier, query) := break_at (fun c => c =? 63) before_fragment in
    let params := parse_query (List.tl query) in
    let with_authority (s : jsstring) : option URL :=
      let '(authority, path) := break_at (fun c => is_slash special c) s in
      match parse_authority special authority with
      | None => None
      | Some host =>
        Some {| protocol := scheme ++ js ":";
                hostname := host;
                pathname := parse_path special path;
                searchParams := params |}
      end in
    let file_path (s : jsstring) : option URL :=
      Some {| protocol := scheme ++ js ":"; hostname := [];
              pathname := parse_file_path (47 :: s);
              searchParams := params |} in
    if eqb scheme (js "file") then
      match hier with
      | a :: b :: s' =>
        if is_slash true a && is_slash true b then
          let '(authority, path) := break_at (fun c => is_slash true c) s' in
          match parse_file_host authority path with
          | Some (host, pathname) =>
            Some {| protocol := scheme ++ js ":"; hostname := host;
                    pathname := pathname; searchParams := params |}
          | None => None
          end
        else if is_slash true a then file_path (b :: s')
        else file_path hier
      | [a] => if is_slash true a then file_path [] else file_path hier
      | [] => file_path []
      end
    else if special then with_authority (dropWhile (is_slash true) hier)
    else
      match hier with
      | 47 :: 47 :: s' => with_authority s'
      | 47 :: _ =>
        Some {| protocol := scheme ++ js ":"; hostname := [];
                pathname := parse_path false hier; searchParams := params |}
      | _ =>
        Some {| protocol := scheme ++ js ":"; hostname := [];
                pathname := percent_encode is_c0 hier; searchParams := params |}
      end
  end.

End Url.

(* ===================================================================== *)
(** * src/server/services/cache.ts *)
(* ===================================================================== *)

Module CacheService.

(** [generateCacheKey]: the template [`tldr:${videoId}-${language}-${model}`]. *)
Definition generateCacheKey (videoId language model : jsstring) : jsstring :=
  let keyString := videoId ++ js "-" ++ language ++ js "-" ++ model in
  js "tldr:" ++ keyString.

End CacheService.

(* ===================================================================== *)
(** * server/routes.ts and the client helper [YouTubeAPI] *)
(* ===================================================================== *)

Module Routes.

Import Js.

Section Resolver.

(** The URL constructor of the platform; [None] where it throws. *)
Variable URL_new : jsstring -> option Url.URL.

(** [extractVideoId]; [None] is [null]. *)
Definition extractVideoId (url : jsstring) : option jsstring :=
  match URL_new url with
  | Some urlObj =>
    if eqb (Url.hostname urlObj) (js "youtu.be")
    then Some (slice_from (Url.pathname urlObj) 1)
    else if includes (Url.hostname urlObj) (js "youtube.com")
    then Url.searchParams_get (js "v") (Url.searchParams urlObj)
    else None
  | None => None
  end.

End Resolver.

End Routes.

Module YouTubeAPI.

Import Js.

Section Resolver.

Variable URL_new : jsstring -> option Url.URL.

(** [YouTubeAPI.extractVideoId], the same function body as in the routes. *)
Definition extractVideoId (url : jsstring) : option jsstring :=
  match URL_new url with
  | Some urlObj =>
    if eqb (Url.hostname urlObj) (js "youtu.be")
    then Some (slice_from (Url.pathname urlObj) 1)
    else if includes (Url.hostname urlObj) (js "youtube.com")
    then Url.searchParams_get (js "v") (Url.searchParams urlObj)
    else None
  | None => None
  end.

(** [isValidYouTubeUrl]: [extractVideoId(url) !== null]. *)
Definition isValidYouTubeUrl (url : jsstring) : bool :=
  match extractVideoId url with
  | Some _ => true
  | None => false
  end.

End Resolver.

End YouTubeAPI.

(* ===================================================================== *)
(** * server/utils/retry.ts *)
(* ===================================================================== *)

Module Retry.

Import Js Eff.
Local Open Scope eff_scope.

Section RetryOperation.

(** Delays are binary64 numbers that are only multiplied and compared;
    their type and these operations are parameters. [maxRetries] is taken
    as an integer. *)
Variable F : Type.
Variable mul : F -> F -> F.
Variable min : F -> F -> F.
Variable of_int : Z -> F.

Record RetryOptions : Type :=
  { maxRetries : Z;
    delay : F;
    backoffMultiplier : option F;
    maxDelay : option F }.

Variables (W T : Type).

(** [new Promise(resolve => setTimeout(resolve, ms))] *)
Variable sleep : F -> W -> W.

Variable operation : M W T.

(** [error instanceof Error ? error : new Error(String(error))] *)
Definition as_Error (error : value) : value :=
  if instanceof_Error error then error else VError (String_of error).

(** The [for] loop from [attempt] on; [iterations] counts the values of
    [attempt] for which [attempt <= maxRetries] still holds. When the loop
    ends without returning or throwing, [throw lastError!] follows. *)
Fixpoint loop (opts : RetryOptions) (mult maxd : F) (iterations : nat) (attempt : Z)
    (currentDelay : F) (lastError : option value) : M W T :=
  match iterations with
  | O => throw (match lastError with Some e => e | None => VUndefined end)
  | S iterations' =>
    try_catch operation
      (fun error =>
         let lastError' := as_Error error in
         if (attempt =? maxRetries opts)%Z then throw lastError'
         else
           fun w =>
             loop opts mult maxd iterations' (attempt + 1)%Z
               (min (mul currentDelay mult) maxd) (Some lastError')
               (sleep currentDelay w))
  end.

(** [retryOperation] *)
Definition retryOperation (options : RetryOptions) : M W T :=
  let mult := match backoffMultiplier options with Some m => m | None => of_int 2 end in
  let maxd := match maxDelay options with Some m => m | None => of_int 30000 end in
  loop options mult maxd (Z.to_nat (maxRetries options + 1)) 0%Z (delay options) None.

End RetryOperation.

(** An operation given by the outcome of each of its invocations in turn,
    run in a world that counts the invocations and records the waits. *)
Section Scripted.

Variables (F T : Type).

Record script_world : Type := { calls : nat; sleeps : list F }.

Definition scripted (script : nat -> outcome T) : M script_world T :=
  fun w => (script (calls w), {| calls := S (calls w); sleeps := sleeps w |}).

Definition scripted_sleep (ms : F) (w : script_world) : script_world :=
  {| calls := calls w; sleeps := sleeps w ++ [ms] |}.

Definition fresh : script_world := {| calls := O; sleeps := [] |}.

End Scripted.

End Retry.

(* ===================================================================== *)
(** * server/services/llm.ts *)
(* ===================================================================== *)

Module LLMService.

Import Js.
Local Open Scope N_scope.

Definition pad2 (x : number) : jsstring := padStart0 2 (toString x).

(** [normalizeTimestamp] *)
Definition normalizeTimestamp (timestamp : jsstring) : jsstring :=
  let parts := split 58 timestamp in
  match parts with
  | [p0; p1] =>
    let minutes := pad2 (parseInt p0 0) in
    let seconds := pad2 (parseInt p1 0) in
    minutes ++ js ":" ++ seconds
  | [p0; p1; p2] =>
    let hours := pad2 (parseInt p0 0) in
    let minutes := pad2 (parseInt p1 0) in
    let seconds := pad2 (parseInt p2 0) in
    hours ++ js ":" ++ minutes ++ js ":" ++ seconds
  | _ => timestamp
  end.

(** The [Chapter] type of shared/schema.ts. *)
Record Chapter : Type := { time : jsstring; title : jsstring }.

Record LLMResult : Type := { tldr : jsstring; chapters : list Chapter }.

(** The pattern [/(\d{1,2}:\d{2}(?::\d{2})?)/]. *)
Definition timestamp_re : Regex.re :=
  let d := Regex.digit in
  let colon := Regex.Chr 58 in
  Regex.Grp 1
    (Regex.Cat d (Regex.Cat (Regex.Opt d)
      (Regex.Cat colon (Regex.Cat d (Regex.Cat d
        (Regex.Opt (Regex.Cat colon (Regex.Cat d d)))))))).

(** The pattern [/^[\s\-:]+/]. *)
Definition leading_punct_re : Regex.re :=
  Regex.Cat Regex.Bol
    (Regex.Plus (Regex.Cls (fun c => is_space c || (c =? 45) || (c =? 58)))).

(** The local variables of [parseUnstructuredResponse]. *)
Record scan_state : Type :=
  { st_tldr : jsstring;
    st_chapters : list Chapter;
    foundTldr : bool;
    foundChapters : bool }.

Definition is_tldr_line (line : jsstring) : bool :=
  includes (toLowerCase line) (js "tldr") || includes (toLowerCase line) (js "resumen").

Definition is_chapters_line (line : jsstring) : bool :=
  includes (toLowerCase line) (js "chapters")
  || includes (toLowerCase line) (js "capítulos").

(** One iteration of the [for (const line of lines)] loop. *)
Definition scan_line (st : scan_state) (line : jsstring) : scan_state :=
  if is_tldr_line line then
    let colonIndex := indexOf line (js ":") in
    {| st_tldr := if (-1 <? colonIndex)%Z
                  then trim (substring_from line (colonIndex + 1)%Z)
                  else st_tldr st;
       st_chapters := st_chapters st;
       foundTldr := true;
       foundChapters := foundChapters st |}
  else if is_chapters_line line then
    {| st_tldr := st_tldr st;
       st_chapters := st_chapters st;
       foundTldr := foundTldr st;
       foundChapters := true |}
  else
    let chapters1 :=
      match Regex.exec timestamp_re line with
      | Some timeMatch =>
        if foundChapters st then
          let time := match Regex.group 1 (Regex.groups timeMatch) with
                      | Some t => t
                      | None => []
                      end in
          let title :=
            trim (Regex.replace_one leading_punct_re []
                    (replace_first line (Regex.matched timeMatch) [])) in
          if truthy title
          then st_chapters st ++ [{| time := normalizeTimestamp time; title := title |}]
          else st_chapters st
        else st_chapters st
      | None => st_chapters st
      end in
    if negb (foundTldr st) && negb (foundChapters st) && (50 <? length line)%Z then
      {| st_tldr := line; st_chapters := chapters1;
         foundTldr := true; foundChapters := foundChapters st |}
    else
      {| st_tldr := st_tldr st; st_chapters := chapters1;
         foundTldr := foundTldr st; foundChapters := foundChapters st |}.

(** [responseText.split('\n').map(line => line.trim()).filter(line => line)] *)
Definition response_lines (responseText : jsstring) : list jsstring :=
  List.filter truthy (List.map trim (split 10 responseText)).

Definition scan_lines (lines : list jsstring) : scan_state :=
  List.fold_left scan_line lines
    {| st_tldr := []; st_chapters := []; foundTldr := false; foundChapters := false |}.

(** [parseUnstructuredResponse] *)
Definition parseUnstructuredResponse (responseText : jsstring) : LLMResult :=
  let st := scan_lines (response_lines responseText) in
  {| tldr := if truthy (st_tldr st) then st_tldr st else js "No summary available";
     chapters := st_chapters st |}.

(** ** Structured responses

    [JSON.parse] belongs to the platform; it is a parameter, returning the
    parsed value or [None] where it throws a SyntaxError. *)

Inductive json : Type :=
| JNull : json
| JBool (b : bool) : json
| JNumber (is_zero : bool) : json
| JString (s : jsstring) : json
| JArray (items : list json) : json
| JObject (fields : list (jsstring * json)) : json.

(** Property access [v.name]: [None] where it throws (on [null]), otherwise
    the value, [undefined] being [Some None]. The last duplicate key wins. *)
Fixpoint field (name : jsstring) (fields : list (jsstring * json)) : option json :=
  match fields with
  | [] => None
  | (k, v) :: fields' =>
    match field name fields' with
    | Some v' => Some v'
    | None => if eqb k name then Some v else None
    end
  end.

Definition get (v : json) (name : jsstring) : option (option json) :=
  match v with
  | JNull => None
  | JObject fields => Some (field name fields)
  | _ => Some None
  end.

Definition json_truthy (v : option json) : bool :=
  match v with
  | None | Some JNull | Some (JBool false) => false
  | Some (JNumber z) => negb z
  | Some (JString s) => truthy s
  | _ => true
  end.

(** The value as a string receiver of [.trim()] or [.split(':')]; anything
    but a string has no such method. *)
Definition as_string (v : option json) : option jsstring :=
  match v with Some (JString s) => Some s | _ => None end.

(** The [filter] and [map] over [parsed.chapters]; [None] where an element
    makes the callback throw. *)
Fixpoint structured_chapters (items : list json) : option (list Chapter) :=
  match items with
  | [] => Some []
  | ch :: items' =>
    match get ch (js "time") with
    | None => None
    | Some t =>
      let keep :=
        if json_truthy t
        then match get ch (js "title") with
             | Some ti => Some (json_truthy ti, ti)
             | None => None
             end
        else Some (false, None) in
      match keep, structured_chapters items' with
      | Some (false, _), Some rest => Some rest
      | Some (true, ti), Some rest =>
        match as_string t, as_string ti with
        | Some ts, Some tis =>
          Some ({| time := normalizeTimestamp ts; title := trim tis |} :: rest)
        | _, _ => None
        end
      | _, _ => None
      end
    end
  end.

(** The body of the [try] block of [parseStructuredResponse]; [None] where
    it throws. [filter] runs over all elements before [map] does, and both
    throw at the same elements, so one pass decides the outcome. *)
Definition strict_parse (parsed : json) : option LLMResult :=
  match get parsed (js "tldr"), get parsed (js "chapters") with
  | Some t, Some (Some (JArray items)) =>
    if json_truthy t then
      match structured_chapters items, as_string t with
      | Some chs, Some ts => Some {| tldr := trim ts; chapters := chs |}
      | _, _ => None
      end
    else None
  | _, _ => None
  end.

Section Engine.

Import Eff.
Local Open Scope eff_scope.

Variable W : Type.

Variable JSON_parse : jsstring -> option json.

(** [parseStructuredResponse]: every exception of the strict path is caught
    and answered by the heuristic parser. *)
Definition parseStructuredResponse (responseText : jsstring) : LLMResult :=
  match JSON_parse responseText with
  | Some parsed =>
    match strict_parse parsed with
    | Some r => r
    | None => parseUnstructuredResponse responseText
    end
  | None => parseUnstructuredResponse responseText
  end.

(** The request sent to either provider. *)
Record ChatRequest : Type :=
  { req_model : jsstring; req_system : jsstring; req_user : jsstring }.

(** The prompt texts are fixed templates over their arguments. *)
Variable getSystemPrompt : jsstring -> jsstring.
Variable buildPrompt : jsstring -> jsstring -> jsstring.

(** [this.openai.chat.completions.create(...)] followed by the read of
    [response.choices[0].message.content]: the content ([None] for [null]),
    or whatever the client or the property access throws. *)
Variable openai_create : ChatRequest -> M W (option jsstring).

(** The Groq HTTP exchange: [response.ok], [response.status], and the
    outcome of [response.json()] followed by
    [data.choices?.[0]?.message?.content]. *)
Record GroqResponse : Type :=
  { ok : bool; status : number; content : outcome (option jsstring) }.

Variable groq_fetch : jsstring -> ChatRequest -> M W GroqResponse.

Variable groqApiKey : jsstring.

Definition DEFAULT_MODEL : jsstring := js "gpt-5".

(** [callOpenAI] *)
Definition callOpenAI (transcriptText language model : jsstring) : M W LLMResult :=
  let prompt := buildPrompt transcriptText language in
  result <- openai_create
              {| req_model := if eqb model (js "gpt-5") then js "gpt-5" else model;
                 req_system := getSystemPrompt language;
                 req_user := prompt |} ;;
  match result with
  | Some text =>
    if truthy text then ret (parseStructuredResponse text)
    else throw (VError (js "Empty response from OpenAI"))
  | None => throw (VError (js "Empty response from OpenAI"))
  end.

(** [callGroq] *)
Definition callGroq (transcriptText language : jsstring) : M W LLMResult :=
  let prompt := buildPrompt transcriptText language in
  response <- groq_fetch groqApiKey
                {| req_model := js "llama3-8b-8192";
                   req_system := getSystemPrompt language;
                   req_user := prompt |} ;;
  if negb (ok response)
  then throw (VError (js "Groq API error: " ++ toString (status response)))
  else
    result <- lift (content response) ;;
    match result with
    | Some text =>
      if truthy text then ret (parseStructuredResponse text)
      else throw (VError (js "Empty response from Groq"))
    | None => throw (VError (js "Empty response from Groq"))
    end.

(** The text submitted to the providers: at most [maxLength] code units of
    the transcript, with an ellipsis after a cut. *)
Definition truncated (transcriptText : jsstring) : jsstring :=
  let maxLength := 8000%Z in
  if (maxLength <? length transcriptText)%Z
  then substring_to transcriptText maxLength ++ js "..."
  else transcriptText.

(** [generateTLDRAndChapters] *)
Definition generateTLDRAndChapters (transcriptText language model : jsstring)
    : M W LLMResult :=
  let truncatedText := truncated transcriptText in
  try_catch (callOpenAI truncatedText language model)
    (fun error =>
       if truthy groqApiKey then
         try_catch (callGroq truncatedText language)
           (fun groqError => throw (VError (js "All LLM providers failed")))
       else throw (VError (js "All LLM providers failed"))).

End Engine.

(** The providers observed: every request leaves the provider and the
    model it names in a log. *)
Inductive provider_call : Type :=
| Primary (model : jsstring) : provider_call
| Secondary (model : jsstring) : provider_call.

Definition observed_openai (W : Type) (openai : ChatRequest -> Eff.M W (option jsstring))
    : ChatRequest -> Eff.M (W * list provider_call) (option jsstring) :=
  fun req => Eff.logged (Primary (req_model req)) (openai req).

Definition observed_groq (W : Type) (groq : jsstring -> ChatRequest -> Eff.M W GroqResponse)
    : jsstring -> ChatRequest -> Eff.M (W * list provider_call) GroqResponse :=
  fun key req => Eff.logged (Secondary (req_model req)) (groq key req).

(** What an exchange with the primary provider delivers: the content of
    the completion, when the client returned one and it is not empty. *)
Definition delivered (o : Eff.outcome (option jsstring)) : option jsstring :=
  match o with
  | Eff.Ok (Some text) => if truthy text then Some text else None
  | Eff.Ok None => None
  | Eff.Throw _ => None
  end.

(** What an exchange with the secondary provider delivers: the content,
    when [fetch] returned a response with [ok] set whose body could be
    read and holds a content that is not empty. *)
Definition delivered_groq (o : Eff.outcome GroqResponse) : option jsstring :=
  match o with
  | Eff.Ok response => if ok response then delivered (content response) else None
  | Eff.Throw _ => None
  end.

(** A primary provider that always returns the given content, a secondary
    provider that always answers 200 with the given content, and a
    [JSON.parse] for texts that are not JSON, in a world without state. *)
Definition answering (text : jsstring) : ChatRequest -> Eff.M unit (option jsstring) :=
  fun _ => Eff.ret (Some text).

Definition answering_groq (text : jsstring)
    : jsstring -> ChatRequest -> Eff.M unit GroqResponse :=
  fun _ _ => Eff.ret {| ok := true; status := Fin 200; content := Eff.Ok (Some text) |}.

Definition not_json : jsstring -> option json := fun _ => None.

End LLMService.

(* ===================================================================== *)
(** * server/services/youtube.ts *)
(* ===================================================================== *)

(** The result types shared by both revisions of the service. Segment
    times are binary64 numbers obtained with [parseFloat] and added once;
    their type [F] and these two operations are parameters. *)

Module Transcript.

Record Segment (F : Type) : Type :=
  { seg_start : F; seg_end : F; seg_text : jsstring }.

Record TranscriptResult (F : Type) : Type :=
  { text : jsstring; segments : list (Segment F); reason : option jsstring }.

Arguments Build_TranscriptResult {F} _ _ _.

(** The result returned when every method has failed. *)
Definition all_methods_failed (F : Type) : TranscriptResult F :=
  {| text := []; segments := [];
     reason := Some (js "no_transcript_available_all_methods_failed") |}.

(** The three acquisition methods, by position in the fallback order. *)
Inductive method : Type := DataAPI | Unofficial | TimedText.

End Transcript.

Module YouTubeService.

Import Js Eff Transcript.
Local Open Scope N_scope.
Local Open Scope eff_scope.

(** [decodeXMLEntities]: seven global replacements applied in sequence. *)
Definition hex_digit : Regex.re :=
  Regex.Cls (fun c => ((48 <=? c) && (c <=? 57)) || ((65 <=? c) && (c <=? 70))
                      || ((97 <=? c) && (c <=? 102))).

Definition group1 (m : Regex.found) : jsstring :=
  match Regex.group 1 (Regex.groups m) with Some g => g | None => [] end.

Definition decodeXMLEntities (text : jsstring) : jsstring :=
  let t1 := Regex.replace_all (Regex.Lit (js "&amp;")) (fun _ => js "&") text in
  let t2 := Regex.replace_all (Regex.Lit (js "&lt;")) (fun _ => js "<") t1 in
  let t3 := Regex.replace_all (Regex.Lit (js "&gt;")) (fun _ => js ">") t2 in
  let t4 := Regex.replace_all (Regex.Lit (js "&quot;")) (fun _ => [34]) t3 in
  let t5 := Regex.replace_all (Regex.Lit (js "&#39;")) (fun _ => js "'") t4 in
  let t6 :=
    Regex.replace_all
      (Regex.Cat (Regex.Lit (js "&#x"))
         (Regex.Cat (Regex.Grp 1 (Regex.Plus hex_digit)) (Regex.Chr 59)))
      (fun m => fromCharCode (parseInt (group1 m) 16)) t5 in
  Regex.replace_all
    (Regex.Cat (Regex.Lit (js "&#"))
       (Regex.Cat (Regex.Grp 1 (Regex.Plus Regex.digit)) (Regex.Chr 59)))
    (fun m => fromCharCode (parseInt (group1 m) 10)) t6.

(** The seven replacements of [decodeXMLEntities] as a list, in the order
    of the source. *)
Definition entity_steps : list (jsstring -> jsstring) :=
  [ Regex.replace_all (Regex.Lit (js "&amp;")) (fun _ => js "&");
    Regex.replace_all (Regex.Lit (js "&lt;")) (fun _ => js "<");
    Regex.replace_all (Regex.Lit (js "&gt;")) (fun _ => js ">");
    Regex.replace_all (Regex.Lit (js "&quot;")) (fun _ => [34]);
    Regex.replace_all (Regex.Lit (js "&#39;")) (fun _ => js "'");
    Regex.replace_all
      (Regex.Cat (Regex.Lit (js "&#x"))
         (Regex.Cat (Regex.Grp 1 (Regex.Plus hex_digit)) (Regex.Chr 59)))
      (fun m => fromCharCode (parseInt (group1 m) 16));
    Regex.replace_all
      (Regex.Cat (Regex.Lit (js "&#"))
         (Regex.Cat (Regex.Grp 1 (Regex.Plus Regex.digit)) (Regex.Chr 59)))
      (fun m => fromCharCode (parseInt (group1 m) 10)) ].

(** The pattern of [parseTranscriptXML], with the [g] flag:
    [<text[^>]*start=Q(G)Q[^>]*dur=Q(G)Q[^>]*>(T)<\/text>]
    where Q is the double quote (code unit 34), G is a greedy run of
    code units other than Q and T a greedy run of code units other than [<]. *)
Definition quoted (i : nat) : Regex.re :=
  Regex.Cat (Regex.Chr 34)
    (Regex.Cat (Regex.Grp i (Regex.Star (Regex.not_chr 34))) (Regex.Chr 34)).

Definition not_gt : Regex.re := Regex.Star (Regex.not_chr 62).

Definition text_element_re : Regex.re :=
  Regex.Cat (Regex.Lit (js "<text"))
    (Regex.Cat not_gt
      (Regex.Cat (Regex.Lit (js "start="))
        (Regex.Cat (quoted 1)
          (Regex.Cat not_gt
            (Regex.Cat (Regex.Lit (js "dur="))
              (Regex.Cat (quoted 2)
                (Regex.Cat not_gt
                  (Regex.Cat (Regex.Chr 62)
                    (Regex.Cat (Regex.Grp 3 (Regex.Star (Regex.not_chr 60)))
                      (Regex.Lit (js "</text>"))))))))))).

(** The patterns [start=Q(G)Q], [dur=Q(G)Q] and [>(T)<] applied to each
    matched element. *)
Definition start_re : Regex.re := Regex.Cat (Regex.Lit (js "start=")) (quoted 1).
Definition dur_re : Regex.re := Regex.Cat (Regex.Lit (js "dur=")) (quoted 1).
Definition inner_re : Regex.re :=
  Regex.Cat (Regex.Chr 62)
    (Regex.Cat (Regex.Grp 1 (Regex.Star (Regex.not_chr 60))) (Regex.Chr 60)).

Section Service.

Variable F : Type.
Variable parseFloat : jsstring -> F.
Variable add : F -> F -> F.

(** The body of the loop over [textMatches]. *)
Definition segment_of_match (m : jsstring) : list (Segment F) :=
  match Regex.exec start_re m, Regex.exec dur_re m, Regex.exec inner_re m with
  | Some startMatch, Some durMatch, Some textMatch =>
    let start := parseFloat (group1 startMatch) in
    let duration := parseFloat (group1 durMatch) in
    let text := decodeXMLEntities (group1 textMatch) in
    [{| seg_start := start; seg_end := add start duration; seg_text := text |}]
  | _, _, _ => []
  end.

(** [parseTranscriptXML]: with the [g] flag [xml.match] yields the matched
    texts, or [null] when there is none. *)
Definition parseTranscriptXML (xml : jsstring) : TranscriptResult F :=
  match List.map Regex.matched (Regex.match_all text_element_re xml) with
  | [] => {| text := []; segments := []; reason := None |}
  | textMatches =>
    let segments := List.flat_map segment_of_match textMatches in
    let fullText := join (js " ") (List.map (@seg_text F) segments) in
    {| text := trim fullText; segments := segments; reason := None |}
  end.

Variable W : Type.

(** The three methods are network code; each is taken by what it does to
    the outside world and what it returns or throws. *)
Definition strategy : Type := jsstring -> list jsstring -> M W (TranscriptResult F).

Variable getTranscriptFromDataAPI : strategy.
Variable getTranscriptFromUnofficial : strategy.
Variable getTranscriptFromTimedText : strategy.

(** One [try { ... if (result.text) return result; } catch { }] block:
    [Some result] when the method decided the call. *)
Definition attempt (m : strategy) (videoId : jsstring) (preferredLangs : list jsstring)
    : M W (option (TranscriptResult F)) :=
  try_catch
    (result <- m videoId preferredLangs ;;
     if truthy (text result) then ret (Some result) else ret None)
    (fun error => ret None).

(** [getTranscript] *)
Definition getTranscript (videoId : jsstring) (preferredLangs : list jsstring)
    : M W (TranscriptResult F) :=
  r1 <- attempt getTranscriptFromDataAPI videoId preferredLangs ;;
  match r1 with
  | Some result => ret result
  | None =>
    r2 <- attempt getTranscriptFromUnofficial videoId preferredLangs ;;
    match r2 with
    | Some result => ret result
    | None =>
      r3 <- attempt getTranscriptFromTimedText videoId preferredLangs ;;
      match r3 with
      | Some result => ret result
      | None => ret (all_methods_failed F)
      end
    end
  end.

End Service.

End YouTubeService.

(* ===================================================================== *)
(** * server/services/youtube.ts, later revision *)
(* ===================================================================== *)

Module YouTubeServiceB.

Import Js Eff Transcript.
Local Open Scope N_scope.
Local Open Scope eff_scope.

(** [decodeXMLEntities] is textually the same method in both revisions. *)
Definition decodeXMLEntities : jsstring -> jsstring := YouTubeService.decodeXMLEntities.

(** The pattern [textRegex], with the [g] flag:
    [<text\s+start=Q([\d.]+)Q\s+dur=Q([\d.]+)Q(?:\s+A)?>(T)<\/text>]
    where Q is the double quote, A a greedy run of code units other than
    [>] and T a greedy run of code units other than [<]. *)
Definition number_attr (i : nat) : Regex.re :=
  Regex.Cat (Regex.Chr 34)
    (Regex.Cat
       (Regex.Grp i (Regex.Plus (Regex.Cls (fun c => ((48 <=? c) && (c <=? 57)) || (c =? 46)))))
       (Regex.Chr 34)).

Definition textRegex : Regex.re :=
  Regex.Cat (Regex.Lit (js "<text"))
    (Regex.Cat (Regex.Plus Regex.space)
      (Regex.Cat (Regex.Lit (js "start="))
        (Regex.Cat (number_attr 1)
          (Regex.Cat (Regex.Plus Regex.space)
            (Regex.Cat (Regex.Lit (js "dur="))
              (Regex.Cat (number_attr 2)
                (Regex.Cat
                   (Regex.Opt (Regex.Cat (Regex.Plus Regex.space)
                                 (Regex.Star (Regex.not_chr 62))))
                  (Regex.Cat (Regex.Chr 62)
                    (Regex.Cat (Regex.Grp 3 (Regex.Star (Regex.not_chr 60)))
                      (Regex.Lit (js "</text>"))))))))))).

Definition capture (i : nat) (m : Regex.found) : jsstring :=
  match Regex.group i (Regex.groups m) with Some g => g | None => [] end.

(** [/^[a-zA-Z0-9_-]+$/] *)
Definition id_re : Regex.re :=
  Regex.Cat Regex.Bol
    (Regex.Cat
       (Regex.Plus
          (Regex.Cls (fun c => ((97 <=? c) && (c <=? 122)) || ((65 <=? c) && (c <=? 90))
                               || ((48 <=? c) && (c <=? 57)) || (c =? 95) || (c =? 45))))
       Regex.Eol).

(** [isValidVideoId] *)
Definition isValidVideoId (videoId : jsstring) : bool :=
  (length videoId =? 11)%Z && Regex.test id_re videoId.

Section Service.

Variable F : Type.
Variable parseFloat : jsstring -> F.
Variable add : F -> F -> F.

(** The body of the [while ((match = textRegex.exec(xml)) !== null)] loop. *)
Definition segment_of_match (m : Regex.found) : Segment F :=
  let start := parseFloat (capture 1 m) in
  let duration := parseFloat (capture 2 m) in
  let text := decodeXMLEntities (capture 3 m) in
  {| seg_start := start; seg_end := add start duration; seg_text := text |}.

(** [parseTranscriptXML] *)
Definition parseTranscriptXML (xml : jsstring) : outcome (TranscriptResult F) :=
  let segments := List.map segment_of_match (Regex.match_all textRegex xml) in
  match segments with
  | [] => Throw (VError (js "No segments found in XML transcript"))
  | _ :: _ =>
    let fullText := join (js " ") (List.map (@seg_text F) segments) in
    Ok {| text := trim fullText; segments := segments; reason := None |}
  end.

Variable W : Type.

Definition strategy : Type := jsstring -> list jsstring -> M W (TranscriptResult F).

(** [catch (error) { console.warn(..., error.message); }]: reading
    [.message] of [null] or [undefined] throws a TypeError out of the
    handler; any other thrown value is swallowed. *)
Definition swallow (A : Type) (error : value) (continue : M W A) : M W A :=
  if nullish error
  then throw (VError (js "Cannot read properties of " ++ String_of error
                        ++ js " (reading 'message')"))
  else continue.

(** The loop [for (let i = 0; i < methods.length; i++)]. *)
Fixpoint try_methods (methods : list strategy) (videoId : jsstring)
    (preferredLangs : list jsstring) : M W (TranscriptResult F) :=
  match methods with
  | [] => ret (all_methods_failed F)
  | m :: methods' =>
    try_catch
      (result <- m videoId preferredLangs ;;
       if truthy (text result) && (0 <? length (trim (text result)))%Z
       then ret (Some result) else ret None)
      (fun error => swallow error (ret None))
    >>= (fun r =>
           match r with
           | Some result => ret result
           | None => try_methods methods' videoId preferredLangs
           end)
  end.

Variable getTranscriptFromDataAPI : strategy.
Variable getTranscriptFromUnofficial : strategy.
Variable getTranscriptFromTimedText : strategy.

(** [getTranscript] *)
Definition getTranscript (videoId : jsstring) (preferredLangs : list jsstring)
    : M W (TranscriptResult F) :=
  if negb (isValidVideoId videoId)
  then throw (VError (js "Invalid YouTube video ID: " ++ videoId))
  else
    let methods := [getTranscriptFromDataAPI; getTranscriptFromUnofficial;
                    getTranscriptFromTimedText] in
    try_methods methods videoId preferredLangs.

End Service.

End YouTubeServiceB.

(* ===================================================================== *)
(** * Observing the acquisition methods *)
(* ===================================================================== *)

(** The statements about the fallback order run [getTranscript] with
    methods that leave their name in a log each time they are called. *)

Module Acquisition.

Import Js Eff Transcript.

Section Observed.

Variables (F W : Type).

Definition strategy : Type := jsstring -> list jsstring -> M W (TranscriptResult F).

Definition observed (name : method) (s : strategy)
    : jsstring -> list jsstring -> M (W * list method) (TranscriptResult F) :=
  fun videoId langs => logged name (s videoId langs).

Variables s1 s2 s3 : strategy.


Definition getTranscriptB_observed
    : jsstring -> list jsstring -> M (W * list method) (TranscriptResult F) :=
  YouTubeServiceB.getTranscript
    (observed DataAPI s1) (observed Unofficial s2) (observed TimedText s3).



End Observed.



End Acquisition.

(* ===================================================================== *)
(** * src/server/services/cache.ts: the store *)
(* ===================================================================== *)

(** The [Map] held by a [CacheService], as the list of its entries in
    insertion order. A [Map] has one entry per key; [distinct] says so.
    [Date.now()] is a parameter of the methods that read the clock. *)

Module Cache.

Import Js.

Section Store.

Variable D : Type.

Record entry : Type := { data : D; expires : Z }.

Definition store : Type := list (jsstring * entry).

Definition distinct (m : store) : Prop := NoDup (List.map fst m).

(** [cache.get(key)] of the [Map]. *)
Fixpoint lookup (key : jsstring) (m : store) : option entry :=
  match m with
  | [] => None
  | (k, e) :: m' => if eqb k key then Some e else lookup key m'
  end.

(** [cache.set(key, e)] of the [Map]: an existing key keeps its place. *)
Fixpoint insert (key : jsstring) (e : entry) (m : store) : store :=
  match m with
  | [] => [(key, e)]
  | (k, x) :: m' => if eqb k key then (k, e) :: m' else (k, x) :: insert key e m'
  end.

(** [cache.delete(key)] of the [Map]. *)
Fixpoint remove (key : jsstring) (m : store) : store :=
  match m with
  | [] => []
  | (k, x) :: m' => if eqb k key then m' else (k, x) :: remove key m'
  end.

(** [get]: the data ([None] for [null]) and the store left behind. *)
Definition get (now : Z) (key : jsstring) (m : store) : option D * store :=
  match lookup key m with
  | None => (None, m)
  | Some cached =>
    if (expires cached <? now)%Z then (None, remove key m)
    else (Some (data cached), m)
  end.

(** [set], with [ttlSeconds] given. *)
Definition set (now : Z) (key : jsstring) (d : D) (ttlSeconds : Z) (m : store) : store :=
  let expires := (now + ttlSeconds * 1000)%Z in
  insert key {| data := d; expires := expires |} m.

Definition delete (key : jsstring) (m : store) : store := remove key m.

Definition clear (m : store) : store := [].

(** [cleanup]: a pass over a snapshot of the entries, deleting the keys
    whose entry has expired. *)
Definition cleanup (now : Z) (m : store) : store :=
  List.fold_left
    (fun acc kv => if (expires (snd kv) <? now)%Z then remove (fst kv) acc else acc)
    m m.

End Store.

End Cache.

(* ===================================================================== *)
(** * server/utils/retry.ts: [retryWithCondition] *)
(* ===================================================================== *)

Module RetryWithCondition.

Import Js Eff.

Section Conditional.

Variable F : Type.
Variable mul : F -> F -> F.
Variable min : F -> F -> F.
Variable of_int : Z -> F.

(** [Omit<RetryOptions, 'maxRetries'> & { maxRetries?: number }] *)
Record Options : Type :=
  { maxRetries : option Z;
    delay : F;
    backoffMultiplier : option F;
    maxDelay : option F }.

Variables (W T : Type).
Variable sleep : F -> W -> W.
Variable operation : M W T.

(** The caller's predicate on the error and the attempt index. *)
Variable shouldRetry : value -> Z -> bool.

(** The [for] loop, as in [Retry.loop], with the additional exit. *)
Fixpoint loop (max : Z) (mult maxd : F) (iterations : nat) (attempt : Z)
    (currentDelay : F) (lastError : option value) : M W T :=
  match iterations with
  | O => throw (match lastError with Some e => e | None => VUndefined end)
  | S iterations' =>
    try_catch operation
      (fun error =>
         let lastError' := Retry.as_Error error in
         if (attempt =? max)%Z || negb (shouldRetry lastError' attempt)
         then throw lastError'
         else
           fun w =>
             loop max mult maxd iterations' (attempt + 1)%Z
               (min (mul currentDelay mult) maxd) (Some lastError')
               (sleep currentDelay w))
  end.

(** [retryWithCondition] *)
Definition retryWithCondition (options : Options) : M W T :=
  let max := match maxRetries options with Some n => n | None => 3%Z end in
  let mult := match backoffMultiplier options with Some m => m | None => of_int 2 end in
  let maxd := match maxDelay options with Some m => m | None => of_int 30000 end in
  loop max mult maxd (Z.to_nat (max + 1)) 0%Z (delay options) None.

End Conditional.

End RetryWithCondition.

(* ===================================================================== *)
(** * server/services/youtube.ts, later revision: caption track choice *)
(* ===================================================================== *)

Module CaptionTracks.

Import Js Eff.

(** An item of the captions list, as far as the choice reads it: [id] and
    [snippet.language], the latter a string or [undefined]. *)
Record caption : Type := { track_id : jsstring; language : option jsstring }.

Definition has_language (lang : jsstring) (c : caption) : bool :=
  match language c with
  | Some l => eqb l lang
  | None => false
  end.

(** The first loop: [captions.find(c => c.snippet.language === lang)] for
    each preferred language in turn. *)
Fixpoint exact_match (captions : list caption) (preferredLangs : list jsstring)
    : option caption :=
  match preferredLangs with
  | [] => None
  | lang :: langs =>
    match List.find (has_language lang) captions with
    | Some c => Some c
    | None => exact_match captions langs
    end
  end.

(** [captions.find(c => c.snippet.language.startsWith(prefix))]: the
    callback throws a TypeError on an item without language. *)
Fixpoint find_family (prefix : jsstring) (captions : list caption)
    : outcome (option caption) :=
  match captions with
  | [] => Ok None
  | c :: captions' =>
    match language c with
    | None => Throw (VError (js "Cannot read properties of undefined (reading 'startsWith')"))
    | Some l => if startsWith l prefix then Ok (Some c) else find_family prefix captions'
    end
  end.

(** The second loop. *)
Fixpoint family_match (captions : list caption) (preferredLangs : list jsstring)
    : outcome (option caption) :=
  match preferredLangs with
  | [] => Ok None
  | lang :: langs =>
    match find_family (lang ++ js "-") captions with
    | Throw e => Throw e
    | Ok (Some c) => Ok (Some c)
    | Ok None => family_match captions langs
    end
  end.

Definition language_truthy (c : caption) : bool :=
  match language c with
  | Some l => truthy l
  | None => false
  end.

(** [selectBestCaptionTrack]; [Ok None] is [undefined]. *)
Definition selectBestCaptionTrack (captions : list caption) (preferredLangs : list jsstring)
    : outcome (option caption) :=
  match exact_match captions preferredLangs with
  | Some c => Ok (Some c)
  | None =>
    match family_match captions preferredLangs with
    | Throw e => Throw e
    | Ok (Some c) => Ok (Some c)
    | Ok None =>
      match List.find language_truthy captions with
      | Some c => Ok (Some c)
      | None => Ok (List.hd_error captions)
      end
    end
  end.

End CaptionTracks.

(* ===================================================================== *)
(** * What a pattern can match *)
(* ===================================================================== *)

(** The texts a pattern denotes, with the captures a match of them leaves,
    as a relation to reason about the matcher with; and the loop of a
    quantifier taken out of [Regex.run], where it is a local function. *)

Module RegexSpec.

Import Js Regex.

Definition star_iter (A : Type) (total : nat) (r1 : re)
    (k : jsstring -> caps -> option A) : nat -> jsstring -> caps -> option A :=
  fix star (n : nat) (s : jsstring) (c : caps) {struct n} : option A :=
    match n with
    | O => k s c
    | S n' =>
      match run total r1 s c
              (fun s' c' =>
                 if Nat.ltb (List.length s') (List.length s)
                 then star n' s' c' else None) with
      | Some a => Some a
      | None => k s c
      end
    end.

(** [derives r m c c']: the pattern [r] denotes the text [m], and matching
    it turns the captures [c] into [c']. The anchors denote the empty
    text. *)
Inductive derives : re -> jsstring -> caps -> caps -> Prop :=
| derives_Eps (c : caps) : derives Eps [] c c
| derives_Cls (p : N -> bool) (x : N) (c : caps) :
    p x = true -> derives (Cls p) [x] c c
| derives_Cat (r1 r2 : re) (m1 m2 : jsstring) (c c1 c2 : caps) :
    derives r1 m1 c c1 -> derives r2 m2 c1 c2 -> derives (Cat r1 r2) (m1 ++ m2) c c2
| derives_Alt_l (r1 r2 : re) (m : jsstring) (c c' : caps) :
    derives r1 m c c' -> derives (Alt r1 r2) m c c'
| derives_Alt_r (r1 r2 : re) (m : jsstring) (c c' : caps) :
    derives r2 m c c' -> derives (Alt r1 r2) m c c'
| derives_Star_nil (r : re) (c : caps) : derives (Star r) [] c c
| derives_Star_cons (r : re) (m1 m2 : jsstring) (c c1 c2 : caps) :
    derives r m1 c c1 -> m1 <> [] -> derives (Star r) m2 c1 c2 ->
    derives (Star r) (m1 ++ m2) c c2
| derives_Grp (i : nat) (r : re) (m : jsstring) (c c' : caps) :
    derives r m c c' -> derives (Grp i r) m c ((i, m) :: c')
| derives_Bol (c : caps) : derives Bol [] c c
| derives_Eol (c : caps) : derives Eol [] c c.

(** A greedy run over the class [p] stops in front of [tail]: at the end
    of the input, or at a code unit outside the class. *)
Definition stops (p : N -> bool) (tail : jsstring) : bool :=
  match tail with [] => true | y :: _ => negb (p y) end.

End RegexSpec.

(* ===================================================================== *)
(** * server/services/youtube.ts: video metadata, in both revisions *)
(* ===================================================================== *)

(** The two HTTP exchanges are network code: the Data API request of the
    [try] block, from the [fetch] to the metadata object built from
    [data.items[0]], and the oEmbed request, from the [fetch] to the object
    built from [data.title]; each is taken by what it does to the outside
    world and by the object it returns or the value it throws. *)

Module YouTubeMetadata.

Import Js Eff.
Local Open Scope eff_scope.

(** The endpoints, for the record of the requests made. *)
Inductive endpoint : Type := Videos | OEmbed.

Section Service.

Variables (W VideoMetadata : Type).

Variable apiKey : jsstring.

Variable fetchVideo : jsstring -> M W VideoMetadata.
Variable fetchOEmbed : jsstring -> M W VideoMetadata.

(** [getVideoMetadataFallback] *)
Definition getVideoMetadataFallback (videoId : jsstring) : M W (option VideoMetadata) :=
  m <- fetchOEmbed videoId ;; ret (Some m).

(** [getVideoMetadata]; [None] is [null]. *)
Definition getVideoMetadata (videoId : jsstring) : M W (option VideoMetadata) :=
  try_catch
    (if negb (truthy apiKey) then ret None
     else m <- fetchVideo videoId ;; ret (Some m))
    (fun error =>
       try_catch (getVideoMetadataFallback videoId) (fun fallbackError => ret None)).

End Service.

End YouTubeMetadata.

Module YouTubeMetadataB.

Import Js Eff.
Local Open Scope eff_scope.

(** [validateApiKey] *)
Definition validateApiKey (apiKey : jsstring) : bool :=
  if negb (truthy apiKey) then false
  else (30 <=? length apiKey)%Z && startsWith apiKey (js "AIza").

Section Service.

Variables (W VideoMetadata : Type).

Variable apiKey : jsstring.

Variable fetchVideo : jsstring -> M W VideoMetadata.
Variable fetchOEmbed : jsstring -> M W VideoMetadata.

(** The field set by the constructor. *)
Definition isApiKeyValid : bool := validateApiKey apiKey.

(** [getVideoMetadataFallback]: the error is logged and thrown again. *)
Definition getVideoMetadataFallback (videoId : jsstring) : M W (option VideoMetadata) :=
  try_catch (m <- fetchOEmbed videoId ;; ret (Some m)) (fun error => throw error).

(** [getVideoMetadata] *)
Definition getVideoMetadata (videoId : jsstring) : M W (option VideoMetadata) :=
  try_catch
    (if negb isApiKeyValid then getVideoMetadataFallback videoId
     else m <- fetchVideo videoId ;; ret (Some m))
    (fun error =>
       try_catch (getVideoMetadataFallback videoId) (fun fallbackError => ret None)).

End Service.

End YouTubeMetadataB.

(* ===================================================================== *)
(** * server/services/youtube.ts, later revision: caption content *)
(* ===================================================================== *)

Module CaptionContent.

Import Js Eff Transcript.

Section Content.

Variable F : Type.
Variable parseFloat : jsstring -> F.
Variable add : F -> F -> F.

(** [JSON.parse(content)] followed by [parseTranscriptJSON], both inside
    one [try] block with an empty [catch]: the result, or [None] where
    either throws. *)
Variable parseJSON : jsstring -> option (TranscriptResult F).

(** [parseTranscriptContent] of the later revision. *)
Definition parseTranscriptContent (content : jsstring) : outcome (TranscriptResult F) :=
  if startsWith (trim content) (js "<?xml") || startsWith (trim content) (js "<transcript")
  then YouTubeServiceB.parseTranscriptXML parseFloat add content
  else
    match parseJSON content with
    | Some result => Ok result
    | None =>
      let text := trim content in
      if (length text =? 0)%Z
      then Throw (VError (js "Empty transcript content"))
      else Ok {| text := text; segments := []; reason := None |}
    end.

End Content.

End CaptionContent.

(* ===================================================================== *)
(** * The client helper [YouTubeAPI]: durations *)
(* ===================================================================== *)

Module ClientFormat.

Import Js.

(** [YouTubeAPI.formatDuration], on a whole number of seconds of magnitude
    below 2^53: there the binary64 quotients [seconds / 3600] and
    [(seconds % 3600) / 60] lie further from the next integer than they
    are rounded by, so that [Math.floor] of them is the integer quotient
    rounded down; [%] takes the sign of the dividend. *)
Definition formatDuration (seconds : Z) : jsstring :=
  let hours := (seconds / 3600)%Z in
  let minutes := (Z.rem seconds 3600 / 60)%Z in
  let secs := Z.rem seconds 60 in
  if (0 <? hours)%Z then
    padStart0 2 (toString (Fin hours)) ++ js ":" ++ padStart0 2 (toString (Fin minutes))
      ++ js ":" ++ padStart0 2 (toString (Fin secs))
  else
    padStart0 2 (toString (Fin minutes)) ++ js ":" ++ padStart0 2 (toString (Fin secs)).

End ClientFormat.

(* ===================================================================== *)
(** * Verification *)
(* ===================================================================== *)

Unset Implicit Arguments.

Import Js.

(** ** Strings *)

Lemma eqb_eq (a b : jsstring) : Js.eqb a b = true <-> a = b.
Proof.
  unfold Js.eqb. destruct (list_eq_dec N.eq_dec a b); split; auto; discriminate.
Qed.

Lemma eqb_refl (a : jsstring) : Js.eqb a a = true.
Proof. apply eqb_eq. reflexivity. Qed.

(** Two texts cut at the first occurrence of a separator agree piecewise. *)
Lemma cut_at_separator (c : N) (a b x y : jsstring) :
  ~ In c a -> ~ In c b -> a ++ c :: x = b ++ c :: y -> a = b /\ x = y.
Proof.
  revert b. induction a as [|h a IH]; intros [|k b] Ha Hb E; simpl in *.
  - inversion E. auto.
  - inversion E. subst. exfalso. apply Hb. now left.
  - inversion E. subst. exfalso. apply Ha. now left.
  - inversion E. subst.
    destruct (IH b) as [-> ->]; auto.
Qed.

Lemma same_length_prefix (a b x y : jsstring) :
  List.length a = List.length b -> a ++ x = b ++ y -> a = b /\ x = y.
Proof.
  revert b. induction a as [|h a IH]; intros [|k b] L E; simpl in *; try discriminate.
  - auto.
  - inversion E. subst. destruct (IH b) as [-> ->]; auto.
Qed.

(** ** Cache keys *)

(** C7, the claim as stated fails: two distinct triples with one key. *)
Lemma generateCacheKey_collision :
  (js "a-b", js "c", js "d") <> (js "a", js "b-c", js "d") /\
  CacheService.generateCacheKey (js "a-b") (js "c") (js "d")
  = CacheService.generateCacheKey (js "a") (js "b-c") (js "d").
Proof.
  split.
  - intro H. vm_compute in H. discriminate H.
  - vm_compute. reflexivity.
Qed.

(** C7, amended: [generateCacheKey] is a function of the triple, and two
    triples with the same key are equal provided that the two identifiers
    have the same length (as video identifiers of 11 characters do) or
    contain no hyphen, and that neither language contains a hyphen. *)
Theorem generateCacheKey_injective
    (videoId language model videoId' language' model' : jsstring) :
  List.length videoId = List.length videoId'
    \/ (~ In 45%N videoId /\ ~ In 45%N videoId') ->
  ~ In 45%N language -> ~ In 45%N language' ->
  (CacheService.generateCacheKey videoId language model
   = CacheService.generateCacheKey videoId' language' model'
   <-> (videoId, language, model) = (videoId', language', model')).
Proof.
  intros Hid Hl Hl'. split.
  - unfold CacheService.generateCacheKey.
    change (js "-") with [45%N]. change (js "tldr:") with [116; 108; 100; 114; 58]%N.
    simpl. intro E. injection E as E.
    assert (videoId = videoId' /\
            45%N :: language ++ 45%N :: model = 45%N :: language' ++ 45%N :: model')
      as [-> E'].
    { destruct Hid as [L | [H1 H2]].
      - apply same_length_prefix; assumption.
      - destruct (cut_at_separator _ _ _ _ _ H1 H2 E) as [-> ->]. auto. }
    inversion E' as [E''].
    destruct (cut_at_separator _ _ _ _ _ Hl Hl' E'') as [-> ->].
    reflexivity.
  - intro E. inversion E. reflexivity.
Qed.

Lemma generateCacheKey_injective_witness :
  CacheService.generateCacheKey (js "dQw4w9WgXcQ") (js "ru") (js "gpt-5")
  = CacheService.generateCacheKey (js "9bZkp7q19f0") (js "en") (js "gpt-4o-mini")
  <-> (js "dQw4w9WgXcQ", js "ru", js "gpt-5")
      = (js "9bZkp7q19f0", js "en", js "gpt-4o-mini").
Proof.
  apply (generateCacheKey_injective
           (js "dQw4w9WgXcQ") (js "ru") (js "gpt-5")
           (js "9bZkp7q19f0") (js "en") (js "gpt-4o-mini")).
  - left. reflexivity.
  - vm_compute. intros [H|[H|H]]; try discriminate H; exact H.
  - vm_compute. intros [H|[H|H]]; try discriminate H; exact H.
Defined.

(** ** XML entities *)

(** C10: in both revisions [decodeXMLEntities] is a total function that
    applies the replacements one after the other, [&amp;] first, so the
    ampersand-escaped reference [&amp;lt;] decodes to [<] and not to the
    text [&lt;]; the same happens to the other escaped references. *)
Theorem decodeXMLEntities_decodes_twice :
  (forall text,
     YouTubeService.decodeXMLEntities text
     = List.fold_left (fun t step => step t) YouTubeService.entity_steps text) /\
  (forall text,
     YouTubeServiceB.decodeXMLEntities text = YouTubeService.decodeXMLEntities text) /\
  Regex.replace_all (Regex.Lit (js "&amp;")) (fun _ => js "&") (js "&amp;lt;") = js "&lt;" /\
  YouTubeService.decodeXMLEntities (js "&amp;lt;") = js "<" /\
  YouTubeService.decodeXMLEntities (js "&amp;lt;") <> js "&lt;" /\
  YouTubeService.decodeXMLEntities (js "&amp;gt;") = js ">" /\
  YouTubeService.decodeXMLEntities (js "&amp;quot;") = [34%N] /\
  YouTubeService.decodeXMLEntities (js "&amp;#39;") = js "'" /\
  YouTubeService.decodeXMLEntities (js "&amp;#65;") = js "A" /\
  YouTubeService.decodeXMLEntities (js "&amp;#x41;") = js "A".
Proof.
  split; [intro text; reflexivity|].
  split; [intro text; reflexivity|].
  repeat split; try (vm_compute; reflexivity).
  intro H. vm_compute in H. discriminate H.
Qed.

(** ** Caption XML *)

Section CaptionXML.

Variable F : Type.
Variable parseFloat : jsstring -> F.
Variable add : F -> F -> F.

(** The earlier revision answers a payload without any matching element
    with the empty result. *)
Lemma parseTranscriptXML_empty_result (xml : jsstring) :
  Regex.match_all YouTubeService.text_element_re xml = [] ->
  YouTubeService.parseTranscriptXML parseFloat add xml
  = {| Transcript.text := []; Transcript.segments := []; Transcript.reason := None |}.
Proof.
  intro H. unfold YouTubeService.parseTranscriptXML. rewrite H. reflexivity.
Qed.

(** The later revision throws on such a payload. *)
Lemma parseTranscriptXML_throws (xml : jsstring) :
  Regex.match_all YouTubeServiceB.textRegex xml = [] ->
  YouTubeServiceB.parseTranscriptXML parseFloat add xml
  = Eff.Throw (Eff.VError (js "No segments found in XML transcript")).
Proof.
  intro H. unfold YouTubeServiceB.parseTranscriptXML. rewrite H. reflexivity.
Qed.

(** C6: on the payload [<transcript></transcript>], in which no [<text>]
    element occurs, [parseTranscriptXML] of youtube.ts returns the empty
    result with no text and no segment, where the later revision of the
    same method throws [No segments found in XML transcript]. *)
Theorem parseTranscriptXML_zero_elements :
  Regex.match_all YouTubeService.text_element_re (js "<transcript></transcript>") = [] /\
  YouTubeService.parseTranscriptXML parseFloat add (js "<transcript></transcript>")
  = {| Transcript.text := []; Transcript.segments := []; Transcript.reason := None |} /\
  YouTubeServiceB.parseTranscriptXML parseFloat add (js "<transcript></transcript>")
  = Eff.Throw (Eff.VError (js "No segments found in XML transcript")).
Proof.
  assert (H1 : Regex.match_all YouTubeService.text_element_re
                 (js "<transcript></transcript>") = []) by (vm_compute; reflexivity).
  assert (H2 : Regex.match_all YouTubeServiceB.textRegex
                 (js "<transcript></transcript>") = []) by (vm_compute; reflexivity).
  split; [exact H1|]. split.
  - apply parseTranscriptXML_empty_result. exact H1.
  - apply parseTranscriptXML_throws. exact H2.
Qed.

End CaptionXML.

(** ** Identifier resolution *)

Lemma startsWith_spec (s p : jsstring) :
  startsWith s p = true <-> exists b, s = p ++ b.
Proof.
  revert s. induction p as [|a p IH]; intros s; simpl.
  - split; [intros _; exists s; reflexivity | intros _; destruct s; reflexivity].
  - destruct s as [|c s].
    + split; [discriminate | intros [b H]; discriminate H].
    + simpl. rewrite Bool.andb_true_iff, N.eqb_eq, IH. split.
      * intros [-> [b ->]]. exists b. reflexivity.
      * intros [b H]. inversion H. split; [reflexivity | exists b; reflexivity].
Qed.

Lemma includes_spec (s p : jsstring) :
  includes s p = true <-> exists a b, s = a ++ p ++ b.
Proof.
  induction s as [|c s IH]; cbn [includes].
  - rewrite Bool.orb_false_r, startsWith_spec. split.
    + intros [b H]. exists [], b. exact H.
    + intros [a [b H]]. destruct a as [|x a]; [exists b; exact H | discriminate H].
  - rewrite Bool.orb_true_iff, startsWith_spec, IH. split.
    + intros [[b H] | [a [b H]]].
      * exists [], b. exact H.
      * exists (c :: a), b. simpl. rewrite H. reflexivity.
    + intros [a [b H]]. destruct a as [|x a].
      * left. exists b. exact H.
      * right. inversion H. exists a, b. reflexivity.
Qed.

Lemma searchParams_get_spec (name v : jsstring) (params : list (jsstring * jsstring)) :
  Url.searchParams_get name params = Some v <->
  exists before after,
    params = before ++ (name, v) :: after /\
    forall k x, In (k, x) before -> k <> name.
Proof.
  induction params as [|[k x] params IH]; simpl.
  - split; [discriminate|]. intros [[|? ?] [after [H _]]]; discriminate H.
  - destruct (Js.eqb k name) eqn:E.
    + apply eqb_eq in E. subst k. split.
      * intro H. inversion H. subst x. exists [], params. split; [reflexivity|].
        intros ? ? [].
      * intros [[|[k' x'] before] [after [H Hn]]].
        -- inversion H. reflexivity.
        -- inversion H. exfalso. apply (Hn k' x'); [now left | congruence].
    + rewrite IH. split.
      * intros [before [after [-> Hn]]]. exists ((k, x) :: before), after.
        split; [reflexivity|]. intros k' x' [H | H].
        -- inversion H. subst. intro Hk. subst. rewrite eqb_refl in E. discriminate E.
        -- eapply Hn; eassumption.
      * intros [[|[k' x'] before] [after [H Hn]]].
        -- inversion H. subst. rewrite eqb_refl in E. discriminate E.
        -- inversion H. subst. exists before, after. split; [reflexivity|].
           intros k0 x0 Hin. apply (Hn k0 x0). now right.
Qed.

(** C2: [extractVideoId] is meant to resolve the links of the two hosts
    and nothing else, the identifier of a short link being its first path
    segment. The code does not do so: for [https://notyoutube.com/watch?v=abc],
    whose host is another host that merely contains the text
    [youtube.com], the routes and the client helper return [abc] instead
    of [null], and [isValidYouTubeUrl] accepts it; and for the short link
    [https://youtu.be/abc/def] the result is [abc/def], the whole path
    after the first slash, not the first segment [abc]. *)
Theorem extractVideoId_other_host_resolves :
  (exists u, Url.parse (js "https://notyoutube.com/watch?v=abc") = Some u
             /\ Url.hostname u = js "notyoutube.com") /\
  Routes.extractVideoId Url.parse (js "https://notyoutube.com/watch?v=abc")
  = Some (js "abc") /\
  YouTubeAPI.extractVideoId Url.parse (js "https://notyoutube.com/watch?v=abc")
  = Some (js "abc") /\
  YouTubeAPI.isValidYouTubeUrl Url.parse (js "https://notyoutube.com/watch?v=abc") = true /\
  Routes.extractVideoId Url.parse (js "https://youtu.be/abc/def") = Some (js "abc/def") /\
  Routes.extractVideoId Url.parse (js "https://youtu.be/abc/def") <> Some (js "abc").
Proof.
  split; [eexists; split; vm_compute; reflexivity|].
  repeat split; try (vm_compute; reflexivity).
  intro H. vm_compute in H. discriminate H.
Qed.

(** What [extractVideoId] computes, in the routes and in the client
    helper alike, for every URL parser and every input: a result other
    than [null] exactly when the input parses and either the host name is
    [youtu.be], the result being the path name without its first code
    unit, or the host name is not [youtu.be] but contains the text
    [youtube.com], the result being the first value of the query
    parameter [v]. The three example links of the specification give
    [dQw4w9WgXcQ], [dQw4w9WgXcQ] and [null]. *)
Lemma extractVideoId_computes :
  (forall (URL_new : jsstring -> option Url.URL) (url id : jsstring),
     Routes.extractVideoId URL_new url = Some id <->
     exists u, URL_new url = Some u /\
       ((Url.hostname u = js "youtu.be" /\ id = List.skipn 1 (Url.pathname u)) \/
        (Url.hostname u <> js "youtu.be" /\
         (exists a b, Url.hostname u = a ++ js "youtube.com" ++ b) /\
         exists before after,
           Url.searchParams u = before ++ (js "v", id) :: after /\
           forall k x, In (k, x) before -> k <> js "v"))) /\
  (forall URL_new url,
     YouTubeAPI.extractVideoId URL_new url = Routes.extractVideoId URL_new url) /\
  Routes.extractVideoId Url.parse (js "https://youtu.be/dQw4w9WgXcQ")
  = Some (js "dQw4w9WgXcQ") /\
  Routes.extractVideoId Url.parse (js "https://www.youtube.com/watch?v=dQw4w9WgXcQ")
  = Some (js "dQw4w9WgXcQ") /\
  Routes.extractVideoId Url.parse (js "https://example.com/x") = None.
Proof.
  split; [| split; [reflexivity | repeat split; vm_compute; reflexivity]].
  intros URL_new url id. unfold Routes.extractVideoId.
  destruct (URL_new url) as [u|].
  2:{ split; [discriminate | intros [u [H _]]; discriminate H]. }
  destruct (Js.eqb (Url.hostname u) (js "youtu.be")) eqn:Eh.
  - apply eqb_eq in Eh. split.
    + intro H. inversion H. exists u. split; [reflexivity|]. left. auto.
    + intros [u' [Hu [[_ ->] | [Hne _]]]]; inversion Hu; subst u'.
      * reflexivity.
      * contradiction.
  - assert (Hne : Url.hostname u <> js "youtu.be").
    { intro H. apply eqb_eq in H. rewrite H in Eh. discriminate Eh. }
    destruct (includes (Url.hostname u) (js "youtube.com")) eqn:Ei.
    + rewrite searchParams_get_spec. split.
      * intro H. exists u. split; [reflexivity|]. right.
        split; [exact Hne|]. split; [apply includes_spec; exact Ei | exact H].
      * intros [u' [Hu [[Hy _] | [_ [_ H]]]]]; inversion Hu; subst u'.
        -- contradiction.
        -- exact H.
    + split; [discriminate|].
      intros [u' [Hu [[Hy _] | [_ [Hinc _]]]]]; inversion Hu; subst u'.
      * contradiction.
      * apply includes_spec in Hinc. rewrite Hinc in Ei. discriminate Ei.
Qed.

(** C9: whenever the parsed URL has host name [youtu.be] and a path of at
    most its leading slash, or a host name containing [youtube.com] and a
    query parameter [v] whose first value is empty, [extractVideoId]
    returns the empty string, not [null], and [isValidYouTubeUrl] returns
    [true]; [https://youtu.be/] and [https://www.youtube.com/watch?v=] are
    such URLs. *)
Theorem extractVideoId_empty_identifier
    (URL_new : jsstring -> option Url.URL) (url : jsstring) (u : Url.URL) :
  URL_new url = Some u ->
  (Url.hostname u = js "youtu.be" /\ (List.length (Url.pathname u) <= 1)%nat) \/
  (includes (Url.hostname u) (js "youtube.com") = true /\
   Url.searchParams_get (js "v") (Url.searchParams u) = Some []) ->
  YouTubeAPI.extractVideoId URL_new url = Some [] /\
  Routes.extractVideoId URL_new url = Some [] /\
  YouTubeAPI.isValidYouTubeUrl URL_new url = true.
Proof.
  intros Hu H.
  assert (E : Routes.extractVideoId URL_new url = Some []).
  { unfold Routes.extractVideoId. rewrite Hu.
    destruct H as [[Hh Hp] | [Hi Hv]].
    - rewrite Hh, eqb_refl. f_equal. unfold slice_from. simpl.
      destruct (Url.pathname u) as [|c [|d r]]; simpl in *; try reflexivity; lia.
    - destruct (Js.eqb (Url.hostname u) (js "youtu.be")) eqn:Eh.
      + apply eqb_eq in Eh. rewrite Eh in Hi. vm_compute in Hi. discriminate Hi.
      + rewrite Hi. exact Hv. }
  split; [exact E|]. split; [exact E|].
  unfold YouTubeAPI.isValidYouTubeUrl.
  change (YouTubeAPI.extractVideoId URL_new url) with (Routes.extractVideoId URL_new url).
  rewrite E. reflexivity.
Qed.

Lemma extractVideoId_empty_identifier_witness :
  (YouTubeAPI.extractVideoId Url.parse (js "https://youtu.be/") = Some [] /\
   Routes.extractVideoId Url.parse (js "https://youtu.be/") = Some [] /\
   YouTubeAPI.isValidYouTubeUrl Url.parse (js "https://youtu.be/") = true) /\
  (YouTubeAPI.extractVideoId Url.parse (js "https://www.youtube.com/watch?v=") = Some [] /\
   Routes.extractVideoId Url.parse (js "https://www.youtube.com/watch?v=") = Some [] /\
   YouTubeAPI.isValidYouTubeUrl Url.parse (js "https://www.youtube.com/watch?v=") = true).
Proof.
  split.
  - apply (extractVideoId_empty_identifier Url.parse (js "https://youtu.be/")
             {| Url.protocol := js "https:"; Url.hostname := js "youtu.be";
                Url.pathname := js "/"; Url.searchParams := [] |}).
    + vm_compute. reflexivity.
    + left. split; [reflexivity | simpl; lia].
  - apply (extractVideoId_empty_identifier Url.parse (js "https://www.youtube.com/watch?v=")
             {| Url.protocol := js "https:"; Url.hostname := js "www.youtube.com";
                Url.pathname := js "/watch"; Url.searchParams := [(js "v", [])] |}).
    + vm_compute. reflexivity.
    + right. split; vm_compute; reflexivity.
Defined.

(** ** Transcript acquisition *)

Section AcquisitionOrder.

Import Eff Transcript Acquisition.

Variables (F W : Type).
Variables s1 s2 s3 : jsstring -> list jsstring -> M W (TranscriptResult F).







End AcquisitionOrder.



(** ** Provider fallback *)

Section ProviderFallback.

Import Eff LLMService.

Variable W : Type.
Variable JSON_parse : jsstring -> option json.
Variables (getSystemPrompt : jsstring -> jsstring) (buildPrompt : jsstring -> jsstring -> jsstring).
Variable openai : ChatRequest -> M W (option jsstring).
Variable groq : jsstring -> ChatRequest -> M W GroqResponse.
Variable groqApiKey : jsstring.

Lemma requested_model (model : jsstring) :
  (if Js.eqb model (js "gpt-5") then js "gpt-5" else model) = model.
Proof.
  destruct (Js.eqb model (js "gpt-5")) eqn:E; [|reflexivity].
  apply eqb_eq in E. symmetry. exact E.
Qed.

Lemma callOpenAI_observed (text language model : jsstring) (w : W)
    (log : list provider_call) :
  callOpenAI JSON_parse getSystemPrompt buildPrompt (observed_openai openai)
    text language model (w, log)
  = (fst (callOpenAI JSON_parse getSystemPrompt buildPrompt openai text language model w),
     (snd (callOpenAI JSON_parse getSystemPrompt buildPrompt openai text language model w),
      log ++ [Primary model])).
Proof.
  unfold callOpenAI, bind, observed_openai, logged. simpl.
  rewrite requested_model.
  destruct (openai _ w) as [[[t|]|e] w']; simpl; try reflexivity.
  destruct (truthy t); reflexivity.
Qed.

Lemma callGroq_observed (text language : jsstring) (w : W) (log : list provider_call) :
  callGroq JSON_parse getSystemPrompt buildPrompt (observed_groq groq) groqApiKey
    text language (w, log)
  = (fst (callGroq JSON_parse getSystemPrompt buildPrompt groq groqApiKey text language w),
     (snd (callGroq JSON_parse getSystemPrompt buildPrompt groq groqApiKey text language w),
      log ++ [Secondary (js "llama3-8b-8192")])).
Proof.
  unfold callGroq, bind, observed_groq, logged, lift. simpl.
  destruct (groq _ _ w) as [[resp|e] w']; simpl; try reflexivity.
  destruct (ok resp); simpl; try reflexivity.
  destruct (content resp) as [[t|]|e]; simpl; try reflexivity.
  destruct (truthy t); reflexivity.
Qed.

Lemma callOpenAI_exchange (text language model : jsstring) (w : W) :
  let primary :=
    openai {| req_model := model;
              req_system := getSystemPrompt language;
              req_user := buildPrompt text language |} w in
  callOpenAI JSON_parse getSystemPrompt buildPrompt openai text language model w
  = (match delivered (fst primary) with
     | Some content => Ok (parseStructuredResponse JSON_parse content)
     | None =>
       Throw (match fst primary with
              | Throw e => e
              | Ok _ => VError (js "Empty response from OpenAI")
              end)
     end,
     snd primary).
Proof.
  intro primary. unfold callOpenAI, bind. rewrite requested_model. fold primary.
  destruct primary as [[[t|]|e] w']; cbn [fst snd delivered]; try reflexivity.
  destruct (truthy t); reflexivity.
Qed.

Lemma callGroq_exchange (text language : jsstring) (w : W) :
  let secondary :=
    groq groqApiKey
      {| req_model := js "llama3-8b-8192";
         req_system := getSystemPrompt language;
         req_user := buildPrompt text language |} w in
  exists e,
    callGroq JSON_parse getSystemPrompt buildPrompt groq groqApiKey text language w
    = (match delivered_groq (fst secondary) with
       | Some content => Ok (parseStructuredResponse JSON_parse content)
       | None => Throw e
       end,
       snd secondary).
Proof.
  intro secondary. unfold callGroq, bind, lift. fold secondary.
  destruct secondary as [[resp|e] w']; cbn [fst snd delivered_groq].
  2:{ exists e. reflexivity. }
  destruct (ok resp); cbn [negb].
  2:{ exists (VError (js "Groq API error: " ++ toString (status resp))). reflexivity. }
  destruct (content resp) as [[t|]|e]; cbn [fst snd delivered].
  - exists (VError (js "Empty response from Groq")). destruct (truthy t); reflexivity.
  - exists (VError (js "Empty response from Groq")). reflexivity.
  - exists e. reflexivity.
Qed.

(** C3, amended: [generateTLDRAndChapters] first calls the primary
    provider, once, with the requested model and the prompts built from
    the transcript cut to 8000 code units. When that exchange delivers a
    content that is not empty, the answer is that content as
    [parseStructuredResponse] reads it, whether it is the expected JSON
    or not, and the secondary provider is not called. When the primary
    client throws or delivers no content or an empty one, and a Groq key
    is configured, the secondary provider is called once, with the same
    prompts and the model [llama3-8b-8192] whatever model was requested;
    when that exchange delivers a content that is not empty, the answer
    is that content as [parseStructuredResponse] reads it. When the
    primary exchange delivers nothing and the key is empty, or the
    secondary exchange delivers nothing either (the request throws, the
    response is not [ok], its body cannot be read, or the content is
    missing or empty), the engine throws [All LLM providers failed]. *)
Theorem generateTLDRAndChapters_fallback (transcriptText language model : jsstring) (w : W) :
  let run :=
    generateTLDRAndChapters JSON_parse getSystemPrompt buildPrompt
      (observed_openai openai) (observed_groq groq) groqApiKey
      transcriptText language model (w, []) in
  let request (m : jsstring) :=
    {| req_model := m;
       req_system := getSystemPrompt language;
       req_user := buildPrompt (truncated transcriptText) language |} in
  let primary := openai (request model) w in
  let secondary := groq groqApiKey (request (js "llama3-8b-8192")) (snd primary) in
  let both := [Primary model; Secondary (js "llama3-8b-8192")] in
  match delivered (fst primary) with
  | Some text =>
    run = (Ok (parseStructuredResponse JSON_parse text), (snd primary, [Primary model]))
  | None =>
    if truthy groqApiKey then
      match delivered_groq (fst secondary) with
      | Some text =>
        run = (Ok (parseStructuredResponse JSON_parse text), (snd secondary, both))
      | None =>
        run = (Throw (VError (js "All LLM providers failed")), (snd secondary, both))
      end
    else run = (Throw (VError (js "All LLM providers failed")), (snd primary, [Primary model]))
  end.
Proof.
  intros run request primary secondary both. subst run.
  unfold generateTLDRAndChapters, try_catch.
  rewrite callOpenAI_observed.
  pose proof (callOpenAI_exchange (truncated transcriptText) language model w) as E1.
  cbv zeta in E1. rewrite E1. clear E1.
  fold (request model). fold primary. cbn [fst snd app].
  destruct (delivered (fst primary)) as [content|]; [reflexivity|].
  destruct (truthy groqApiKey); [|reflexivity].
  rewrite callGroq_observed.
  pose proof (callGroq_exchange (truncated transcriptText) language (snd primary)) as E2.
  cbv zeta in E2. destruct E2 as [e E2]. rewrite E2. clear E2. fold (request (js "llama3-8b-8192")). fold secondary. cbn [fst snd app].
  destruct (delivered_groq (fst secondary)) as [content|]; reflexivity.
Qed.

End ProviderFallback.

(** C3, the claim as stated fails: the primary provider answers with a
    text that is not the expected JSON, a Groq key is configured and the
    secondary provider is in order; the engine does not fall back: it
    calls the primary provider only and answers with what the heuristic
    parser makes of the text. *)
Lemma generateTLDRAndChapters_malformed_payload :
  LLMService.generateTLDRAndChapters LLMService.not_json (fun language => language)
    (fun text language => text)
    (LLMService.observed_openai (LLMService.answering (js "Sorry, I cannot do that.")))
    (LLMService.observed_groq
       (LLMService.answering_groq (js "TLDR: a summary from the secondary provider")))
    (js "gsk-key") (js "some transcript") (js "en") (js "gpt-4o") (tt, [])
  = (Eff.Ok {| LLMService.tldr := js "No summary available"; LLMService.chapters := [] |},
     (tt, [LLMService.Primary (js "gpt-4o")])) /\
  ~ In (LLMService.Secondary (js "llama3-8b-8192"))
       (snd (snd
          (LLMService.generateTLDRAndChapters LLMService.not_json (fun language => language)
             (fun text language => text)
             (LLMService.observed_openai (LLMService.answering (js "Sorry, I cannot do that.")))
             (LLMService.observed_groq
                (LLMService.answering_groq (js "TLDR: a summary from the secondary provider")))
             (js "gsk-key") (js "some transcript") (js "en") (js "gpt-4o") (tt, [])))).
Proof.
  split; [vm_compute; reflexivity|].
  intro H. vm_compute in H. destruct H as [H|[]]. discriminate H.
Qed.

(** ** Retry policy *)

Section RetryPolicy.

Import Eff Retry.

Variables (F T : Type).
Variables (mul min : F -> F -> F) (of_int : Z -> F).

(** One iteration of the loop. *)
Lemma loop_step (W : Type) (sleep : F -> W -> W) (operation : M W T)
    (opts : RetryOptions F) (mult maxd : F) (iterations : nat) (attempt : Z) (d : F)
    (lastError : option value) (w : W) :
  loop mul min sleep operation opts mult maxd (S iterations) attempt d lastError w
  = match operation w with
    | (Ok a, w') => (Ok a, w')
    | (Throw error, w') =>
      if (attempt =? maxRetries opts)%Z then (Throw (as_Error error), w')
      else loop mul min sleep operation opts mult maxd iterations (attempt + 1)%Z
             (min (mul d mult) maxd) (Some (as_Error error)) (sleep d w')
    end.
Proof.
  cbn [loop]. unfold try_catch. destruct (operation w) as [[a|error] w']; [reflexivity|].
  destruct (attempt =? maxRetries opts)%Z; reflexivity.
Qed.

(** The loop, entered with [k + 1] attempts left, of which the first [k]
    throw: the operation is invoked [k + 1] times, with [k] waits, and
    the last invocation decides. *)
Lemma loop_scripted (script : nat -> outcome T) (opts : RetryOptions F) (mult maxd : F) :
  forall (k : nat) (attempt : Z) (d : F) (lastError : option value) (w : script_world F),
    (attempt + Z.of_nat k = maxRetries opts)%Z ->
    (forall i, (calls w <= i < calls w + k)%nat -> exists e, script i = Throw e) ->
    let r := loop mul min (@scripted_sleep F) (scripted script) opts mult maxd
               (S k) attempt d lastError w in
    fst r = match script (calls w + k)%nat with
            | Ok v => Ok v
            | Throw e => Throw (as_Error e)
            end /\
    calls (snd r) = S (calls w + k) /\
    List.length (sleeps (snd r)) = (List.length (sleeps w) + k)%nat.
Proof.
  induction k as [|k IH]; intros attempt d lastError w Ha Hs; cbn zeta.
  - rewrite loop_step. unfold scripted. rewrite Nat.add_0_r.
    destruct (script (calls w)) as [v|e]; simpl.
    + repeat split; lia.
    + replace (attempt =? maxRetries opts)%Z with true by (symmetry; apply Z.eqb_eq; lia).
      simpl. repeat split; lia.
  - destruct (Hs (calls w)) as [e He]; [lia|].
    assert (E : loop mul min (@scripted_sleep F) (scripted script) opts mult maxd
                  (S (S k)) attempt d lastError w
                = loop mul min (@scripted_sleep F) (scripted script) opts mult maxd
                    (S k) (attempt + 1)%Z (min (mul d mult) maxd) (Some (as_Error e))
                    (scripted_sleep d {| calls := S (calls w); sleeps := sleeps w |})).
    { rewrite loop_step. unfold scripted at 1. rewrite He.
      replace (attempt =? maxRetries opts)%Z with false
        by (symmetry; apply Z.eqb_neq; lia).
      reflexivity. }
    rewrite E.
    destruct (IH (attempt + 1)%Z (min (mul d mult) maxd) (Some (as_Error e))
                (scripted_sleep d {| calls := S (calls w); sleeps := sleeps w |}))
      as [I1 [I2 I3]].
    + lia.
    + unfold scripted_sleep. cbn [calls]. intros i Hi. apply Hs. lia.
    + rewrite I1, I2, I3. unfold scripted_sleep. cbn [calls sleeps].
      rewrite length_app. cbn [List.length].
      replace (S (calls w) + k)%nat with (calls w + S k)%nat by lia.
      repeat split; lia.
Qed.

(** C5, amended: for an integer [maxRetries >= 0], when the operation
    throws on each of the first [maxRetries] invocations, [retryOperation]
    invokes it exactly [maxRetries + 1] times, waiting [maxRetries] times in
    between; if the last invocation returns a value, that value is
    returned; if it throws, the thrown value is re-raised, unchanged when
    it is an instance of [Error] and wrapped as [new Error(String(value))]
    otherwise. *)
Theorem retryOperation_attempts (script : nat -> outcome T) (opts : RetryOptions F) :
  (0 <= maxRetries opts)%Z ->
  let n := Z.to_nat (maxRetries opts) in
  (forall i, (i < n)%nat -> exists e, script i = Throw e) ->
  let r := retryOperation mul min of_int (@scripted_sleep F) (scripted script) opts
             (fresh F) in
  calls (snd r) = S n /\
  List.length (sleeps (snd r)) = n /\
  (forall v, script n = Ok v -> fst r = Ok v) /\
  (forall e, script n = Throw e ->
     fst r = Throw (as_Error e) /\ (instanceof_Error e = true -> fst r = Throw e)).
Proof.
  intros Hn n Hs r. subst r. unfold retryOperation.
  replace (Z.to_nat (maxRetries opts + 1)) with (S n) by (subst n; lia).
  match goal with
  | |- context [loop _ _ _ _ _ ?mult ?maxd _ _ ?d ?le ?w] =>
    destruct (loop_scripted script opts mult maxd n 0%Z d le w) as [L1 [L2 L3]]
  end.
  - subst n. lia.
  - unfold fresh. cbn [calls]. intros i Hi. apply Hs. lia.
  - cbn zeta in L1, L2, L3.
    change (calls (fresh F)) with 0%nat in L1, L2.
    change (sleeps (fresh F)) with (@nil F) in L3.
    cbn [List.length Nat.add] in L1, L2, L3.
    rewrite L1, L2, L3.
    repeat split.
    + intros v Hv. rewrite Hv. reflexivity.
    + rewrite H. reflexivity.
    + intro Hi. rewrite H. unfold as_Error. rewrite Hi. reflexivity.
Qed.

(** With a negative [maxRetries] the loop body never runs: the operation
    is not invoked and [undefined] is thrown. *)
Lemma retryOperation_negative (W : Type) (sleep : F -> W -> W) (operation : M W T)
    (opts : RetryOptions F) (w : W) :
  (maxRetries opts < 0)%Z ->
  retryOperation mul min of_int sleep operation opts w = (Throw VUndefined, w).
Proof.
  intro H. unfold retryOperation.
  replace (Z.to_nat (maxRetries opts + 1)) with 0%nat by lia.
  reflexivity.
Qed.

End RetryPolicy.

(** C5, the claim as stated fails: an operation that always throws the
    string [boom] makes [retryOperation] raise an [Error] object built
    from it, not the thrown value itself. *)
Lemma retryOperation_wraps_non_errors :
  let opts := {| Retry.maxRetries := 0%Z; Retry.delay := 1000%Z;
                 Retry.backoffMultiplier := None; Retry.maxDelay := None |} in
  let r := Retry.retryOperation Z.mul Z.min (fun z => z) (@Retry.scripted_sleep Z)
             (@Retry.scripted Z unit (fun _ => Eff.Throw (Eff.VString (js "boom"))))
             opts (Retry.fresh Z) in
  fst r = Eff.Throw (Eff.VError (js "boom")) /\
  fst r <> Eff.Throw (Eff.VString (js "boom")) /\
  Retry.calls (snd r) = 1%nat.
Proof.
  cbn zeta. repeat split; try (vm_compute; reflexivity).
  intro H. vm_compute in H. discriminate H.
Qed.

Lemma retryOperation_attempts_witness :
  let opts := {| Retry.maxRetries := 3%Z; Retry.delay := 1000%Z;
                 Retry.backoffMultiplier := None; Retry.maxDelay := None |} in
  let script := fun i : nat =>
    if Nat.ltb i 3 then Eff.Throw (Eff.VError (js "timeout")) else Eff.Ok (js "done") in
  let r := Retry.retryOperation Z.mul Z.min (fun z => z) (@Retry.scripted_sleep Z)
             (@Retry.scripted Z jsstring script) opts (Retry.fresh Z) in
  Retry.calls (snd r) = 4%nat /\
  List.length (Retry.sleeps (snd r)) = 3%nat /\
  (forall v, script 3%nat = Eff.Ok v -> fst r = Eff.Ok v) /\
  (forall e, script 3%nat = Eff.Throw e ->
     fst r = Eff.Throw (Retry.as_Error e) /\
     (Eff.instanceof_Error e = true -> fst r = Eff.Throw e)).
Proof.
  intros opts script.
  apply (retryOperation_attempts Z jsstring Z.mul Z.min (fun z => z) script opts).
  - simpl. lia.
  - intros i Hi. exists (Eff.VError (js "timeout")). unfold script.
    simpl in Hi. destruct (Nat.ltb_spec i 3); [reflexivity | lia].
Defined.

(** ** Heuristic response parsing *)

Section Heuristic.

Import LLMService.

Let summary_line : jsstring := js "Resumen: Video about X".
Let chapter_line : jsstring := js "02:30 Main topic".
Let main_topic : Chapter := {| time := js "02:30"; title := js "Main topic" |}.

Lemma scan_summary_line (st : scan_state) :
  st_tldr (scan_line st summary_line) = js "Video about X" /\
  foundTldr (scan_line st summary_line) = true.
Proof.
  unfold scan_line.
  assert (E : is_tldr_line summary_line = true) by (vm_compute; reflexivity).
  rewrite E. cbn [st_tldr foundTldr].
  split; [vm_compute|]; reflexivity.
Qed.

(** Once a summary has been found, only another summary line changes it. *)
Lemma scan_line_keeps_tldr (st : scan_state) (line : jsstring) :
  is_tldr_line line = false -> foundTldr st = true ->
  st_tldr (scan_line st line) = st_tldr st /\ foundTldr (scan_line st line) = true.
Proof.
  intros Hl Hf. unfold scan_line. rewrite Hl.
  destruct (is_chapters_line line); [split; [reflexivity | exact Hf]|].
  rewrite Hf. cbn [negb andb st_tldr foundTldr]. split; reflexivity.
Qed.

Lemma scan_lines_keep_tldr (lines : list jsstring) :
  forall st,
    forallb (fun l => negb (is_tldr_line l)) lines = true -> foundTldr st = true ->
    st_tldr (fold_left scan_line lines st) = st_tldr st /\
    foundTldr (fold_left scan_line lines st) = true.
Proof.
  induction lines as [|l lines IH]; intros st Hl Hf; simpl.
  - split; [reflexivity | exact Hf].
  - simpl in Hl. apply Bool.andb_true_iff in Hl. destruct Hl as [Hl Hr].
    apply Bool.negb_true_iff in Hl.
    destruct (scan_line_keeps_tldr st l Hl Hf) as [E1 E2].
    destruct (IH (scan_line st l) Hr E2) as [E3 E4].
    split; [congruence | exact E4].
Qed.

(** The chapter list only grows, and the chapter marker is never unset. *)
Lemma scan_line_chapters_grow (st : scan_state) (line : jsstring) (c : Chapter) :
  In c (st_chapters st) -> In c (st_chapters (scan_line st line)).
Proof.
  intro H. unfold scan_line.
  destruct (is_tldr_line line); [exact H|].
  destruct (is_chapters_line line); [exact H|].
  assert (G : In c match Regex.exec timestamp_re line with
                   | Some timeMatch =>
                     if foundChapters st then
                       let time := match Regex.group 1 (Regex.groups timeMatch) with
                                   | Some t => t
                                   | None => []
                                   end in
                       let title :=
                         trim (Regex.replace_one leading_punct_re []
                                 (replace_first line (Regex.matched timeMatch) [])) in
                       if truthy title
                       then st_chapters st
                            ++ [{| time := normalizeTimestamp time; title := title |}]
                       else st_chapters st
                     else st_chapters st
                   | None => st_chapters st
                   end).
  { destruct (Regex.exec timestamp_re line); [|exact H].
    destruct (foundChapters st); [|exact H]. cbn zeta.
    match goal with |- context [truthy ?t] => destruct (truthy t) end;
      [apply in_or_app; left; exact H | exact H]. }
  match goal with |- context [if ?b then _ else _] => destruct b end; exact G.
Qed.

Lemma scan_line_keeps_marker (st : scan_state) (line : jsstring) :
  foundChapters st = true -> foundChapters (scan_line st line) = true.
Proof.
  intro H. unfold scan_line.
  destruct (is_tldr_line line); [exact H|].
  destruct (is_chapters_line line); [reflexivity|].
  match goal with |- context [if ?b then _ else _] => destruct b end; exact H.
Qed.

Lemma scan_lines_chapters_grow (lines : list jsstring) (c : Chapter) :
  forall st, In c (st_chapters st) -> In c (st_chapters (fold_left scan_line lines st)).
Proof.
  induction lines as [|l lines IH]; intros st H; simpl; [exact H|].
  apply IH. apply scan_line_chapters_grow. exact H.
Qed.

Lemma scan_lines_keep_marker (lines : list jsstring) :
  forall st, foundChapters st = true ->
             foundChapters (fold_left scan_line lines st) = true.
Proof.
  induction lines as [|l lines IH]; intros st H; simpl; [exact H|].
  apply IH. apply scan_line_keeps_marker. exact H.
Qed.

Lemma scan_marker_line (st : scan_state) (marker : jsstring) :
  is_tldr_line marker = false -> is_chapters_line marker = true ->
  foundChapters (scan_line st marker) = true.
Proof.
  intros H1 H2. unfold scan_line. rewrite H1, H2. reflexivity.
Qed.

Lemma scan_chapter_line (st : scan_state) :
  foundChapters st = true ->
  st_chapters (scan_line st chapter_line) = st_chapters st ++ [main_topic].
Proof.
  intro H. unfold scan_line.
  assert (E1 : is_tldr_line chapter_line = false) by (vm_compute; reflexivity).
  assert (E2 : is_chapters_line chapter_line = false) by (vm_compute; reflexivity).
  assert (E3 : Regex.exec timestamp_re chapter_line
               = Some {| Regex.matched := js "02:30";
                         Regex.groups := [(1%nat, js "02:30")];
                         Regex.rest := js " Main topic" |})
    by (vm_compute; reflexivity).
  rewrite E1, E2, E3, H.
  cbn [Regex.groups Regex.matched Regex.group Nat.eqb].
  assert (E4 : trim (Regex.replace_one leading_punct_re []
                       (replace_first chapter_line (js "02:30") []))
               = js "Main topic") by (vm_compute; reflexivity).
  assert (E5 : normalizeTimestamp (js "02:30") = js "02:30") by (vm_compute; reflexivity).
  cbn zeta. rewrite E4, E5.
  change (truthy (js "Main topic")) with true. cbn iota.
  match goal with |- context [if ?b then _ else _] => destruct b end; reflexivity.
Qed.

(** C4, the claim as stated fails: without a line announcing the chapter
    list, the time-stamped line yields no chapter. *)
Lemma parseUnstructuredResponse_needs_marker :
  parseUnstructuredResponse
    (js "Resumen: Video about X" ++ [10%N] ++ js "02:30 Main topic")
  = {| tldr := js "Video about X"; chapters := [] |}.
Proof. vm_compute. reflexivity. Qed.

(** C4, amended: when the lines of the response (trimmed, blank lines
    dropped) contain the line [Resumen: Video about X], later a line that
    contains [chapters] or [capitulos] (with the accented i) and neither
    [tldr] nor [resumen], and later still the line [02:30 Main topic], and
    no line after the first of these contains [tldr] or [resumen], then
    the parser yields the summary [Video about X] and a chapter list
    containing the chapter with time [02:30] and title [Main topic]. *)
Theorem parseUnstructuredResponse_marked_chapter
    (responseText marker : jsstring) (pre mid post1 post2 : list jsstring) :
  response_lines responseText
  = pre ++ [js "Resumen: Video about X"] ++ mid ++ [marker] ++ post1
        ++ [js "02:30 Main topic"] ++ post2 ->
  is_tldr_line marker = false ->
  is_chapters_line marker = true ->
  forallb (fun l => negb (is_tldr_line l)) (mid ++ post1 ++ post2) = true ->
  tldr (parseUnstructuredResponse responseText) = js "Video about X" /\
  In {| time := js "02:30"; title := js "Main topic" |}
     (chapters (parseUnstructuredResponse responseText)).
Proof.
  intros Hlines Hm1 Hm2 Hrest.
  unfold parseUnstructuredResponse, scan_lines. rewrite Hlines.
  repeat rewrite fold_left_app. cbn [fold_left].
  fold summary_line chapter_line.
  match goal with
  | |- context [scan_line ?st summary_line] => set (st0 := st)
  end.
  rewrite !forallb_app in Hrest.
  apply Bool.andb_true_iff in Hrest. destruct Hrest as [Hmid Hrest].
  apply Bool.andb_true_iff in Hrest. destruct Hrest as [Hpost1 Hpost2].
  destruct (scan_summary_line st0) as [T1 F1].
  set (stA := scan_line st0 summary_line) in *.
  destruct (scan_lines_keep_tldr mid stA Hmid F1) as [T2 F2].
  set (stB := fold_left scan_line mid stA) in *.
  assert (Hm1' : negb (is_tldr_line marker) = true) by (rewrite Hm1; reflexivity).
  destruct (scan_line_keeps_tldr stB marker Hm1 F2) as [T3 F3].
  pose proof (scan_marker_line stB marker Hm1 Hm2) as C3.
  set (stC := scan_line stB marker) in *.
  destruct (scan_lines_keep_tldr post1 stC Hpost1 F3) as [T4 F4].
  pose proof (scan_lines_keep_marker post1 stC C3) as C4.
  set (stD := fold_left scan_line post1 stC) in *.
  assert (Hc : is_tldr_line chapter_line = false) by (vm_compute; reflexivity).
  destruct (scan_line_keeps_tldr stD chapter_line Hc F4) as [T5 F5].
  pose proof (scan_chapter_line stD C4) as K5.
  set (stE := scan_line stD chapter_line) in *.
  destruct (scan_lines_keep_tldr post2 stE Hpost2 F5) as [T6 F6].
  assert (K6 : In main_topic (st_chapters (fold_left scan_line post2 stE))).
  { apply scan_lines_chapters_grow. rewrite K5. apply in_or_app. right. now left. }
  set (stF := fold_left scan_line post2 stE) in *.
  assert (T : st_tldr stF = js "Video about X") by congruence.
  cbn [tldr chapters]. rewrite T. split; [reflexivity | exact K6].
Qed.

End Heuristic.

Lemma parseUnstructuredResponse_marked_chapter_witness :
  LLMService.tldr
    (LLMService.parseUnstructuredResponse
       (js "Resumen: Video about X" ++ [10%N] ++ js "Chapters:" ++ [10%N]
          ++ js "02:30 Main topic"))
  = js "Video about X" /\
  In {| LLMService.time := js "02:30"; LLMService.title := js "Main topic" |}
     (LLMService.chapters
        (LLMService.parseUnstructuredResponse
           (js "Resumen: Video about X" ++ [10%N] ++ js "Chapters:" ++ [10%N]
              ++ js "02:30 Main topic"))).
Proof.
  apply (parseUnstructuredResponse_marked_chapter
           (js "Resumen: Video about X" ++ [10%N] ++ js "Chapters:" ++ [10%N]
              ++ js "02:30 Main topic")
           (js "Chapters:") [] [] [] []).
  - vm_compute. reflexivity.
  - vm_compute. reflexivity.
  - vm_compute. reflexivity.
  - vm_compute. reflexivity.
Defined.

(** ** Decimal digits *)

Section Decimal.

Local Open Scope N_scope.

Lemma digits_aux_app (fuel : nat) :
  forall n acc, digits_aux fuel n acc = digits_aux fuel n [] ++ acc.
Proof.
  induction fuel as [|fuel IH]; intros n acc; simpl; [reflexivity|].
  destruct (n / 10 =? 0); [reflexivity|].
  rewrite (IH (n / 10) (_ :: acc)), (IH (n / 10) [_]).
  rewrite <- app_assoc. reflexivity.
Qed.

Lemma decimal_value_app (s t : jsstring) (a : N) :
  fold_left (fun a c => a * 10 + (c - 48)) (s ++ t) a
  = fold_left (fun a c => a * 10 + (c - 48)) t
      (fold_left (fun a c => a * 10 + (c - 48)) s a).
Proof. apply fold_left_app. Qed.

Lemma div_mod_10 (n : N) : exists q r, n / 10 = q /\ n mod 10 = r /\ n = q * 10 + r /\ r < 10.
Proof.
  exists (n / 10), (n mod 10). repeat split.
  - rewrite N.mul_comm. apply N.div_mod. discriminate.
  - apply N.mod_upper_bound. discriminate.
Qed.

Lemma digits_aux_spec (fuel : nat) :
  forall n, n < 2 ^ N.of_nat fuel ->
    Forall is_decimal (digits_aux fuel n []) /\
    decimal_value (digits_aux fuel n []) = n.
Proof.
  induction fuel as [|fuel IH]; intros n Hn.
  - simpl in Hn. assert (n = 0) by lia. subst n. split; [constructor | reflexivity].
  - cbn [digits_aux].
    destruct (div_mod_10 n) as [q [r [Eq [Er [En Hr]]]]]. rewrite Eq, Er.
    assert (Hd : is_decimal (48 + r)) by (unfold is_decimal; lia).
    destruct (q =? 0) eqn:E.
    + apply N.eqb_eq in E. split; [constructor; [exact Hd | constructor]|].
      unfold decimal_value. cbn [fold_left]. lia.
    + rewrite digits_aux_app.
      assert (Hlt : q < 2 ^ N.of_nat fuel).
      { rewrite Nat2N.inj_succ, N.pow_succ_r' in Hn.
        remember (2 ^ N.of_nat fuel) as p. lia. }
      destruct (IH q Hlt) as [F1 V1]. split.
      * apply Forall_app. split; [exact F1 | constructor; [exact Hd | constructor]].
      * unfold decimal_value in *. rewrite decimal_value_app, V1. cbn [fold_left]. lia.
Qed.

Lemma digits_spec (n : N) :
  Forall is_decimal (digits n) /\ decimal_value (digits n) = n /\ digits n <> [].
Proof.
  unfold digits.
  assert (Hn : n < 2 ^ N.of_nat (S (N.to_nat (N.log2 n)))).
  { rewrite Nat2N.inj_succ, N2Nat.id.
    destruct n as [|p]; [reflexivity|]. apply N.log2_spec. reflexivity. }
  destruct (digits_aux_spec _ n Hn) as [H1 H2]. split; [exact H1|]. split; [exact H2|].
  cbn [digits_aux]. destruct (n / 10 =? 0); [discriminate|].
  rewrite digits_aux_app. intro H. apply app_eq_nil in H. destruct H as [_ H].
  discriminate H.
Qed.

Lemma digit_value_decimal (c : N) :
  is_decimal c -> digit_value c = Some (c - 48) /\ c - 48 < 10.
Proof.
  intros [H1 H2]. unfold digit_value.
  replace (48 <=? c) with true by (symmetry; apply N.leb_le; lia).
  replace (c <=? 57) with true by (symmetry; apply N.leb_le; lia).
  simpl. split; [reflexivity | lia].
Qed.

(** On a string of decimal digits [scan_digits] reads all of it. *)
Lemma scan_digits_decimal (s : jsstring) :
  forall a, Forall is_decimal s ->
    scan_digits 10 s (Some a) = Some (fold_left (fun a c => a * 10 + (c - 48)) s a).
Proof.
  induction s as [|c s IH]; intros a H; simpl; [reflexivity|].
  inversion H as [|? ? Hc Hs]. subst.
  destruct (digit_value_decimal c Hc) as [E L]. rewrite E.
  replace (c - 48 <? 10) with true by (symmetry; apply N.ltb_lt; exact L).
  apply IH. exact Hs.
Qed.

Lemma scan_digits_decimal_start (s : jsstring) :
  Forall is_decimal s -> s <> [] ->
  scan_digits 10 s None = Some (decimal_value s).
Proof.
  destruct s as [|c s]; intros H Hne; [contradiction|].
  inversion H as [|? ? Hc Hs]. subst. simpl.
  destruct (digit_value_decimal c Hc) as [E L]. rewrite E.
  replace (c - 48 <? 10) with true by (symmetry; apply N.ltb_lt; exact L).
  rewrite scan_digits_decimal by exact Hs. reflexivity.
Qed.

Lemma decimal_not_space (c : N) : is_decimal c -> is_space c = false.
Proof.
  intros [H1 H2]. unfold is_space.
  repeat match goal with
         | |- context [?a <=? ?b] =>
           let E := fresh in destruct (N.leb_spec a b) as [E|E]; try lia
         | |- context [?a =? ?b] =>
           let E := fresh in destruct (N.eqb_spec a b) as [E|E]; try lia
         end; reflexivity.
Qed.

End Decimal.

(** ** Rounding to binary64 *)

Section Rounding.

Local Open Scope N_scope.

Lemma round53_small (v : N) : v < 2 ^ 53 -> round53 v = v.
Proof.
  intro H. unfold round53.
  replace (v <? 2 ^ 53) with true by (symmetry; apply N.ltb_lt; exact H).
  reflexivity.
Qed.

(** Above 2^53 the result is a 53-bit integer, at least the truncated
    one, scaled by the power of two fixed by the binade of the argument. *)
Lemma round53_large (v : N) :
  2 ^ 53 <= v ->
  exists e q,
    e = N.log2 v - 52 /\ 1 <= e /\
    v / 2 ^ e <= q /\ 2 ^ 52 <= q <= 2 ^ 53 /\
    round53 v = q * 2 ^ e.
Proof.
  intro H. unfold round53.
  replace (v <? 2 ^ 53) with false by (symmetry; apply N.ltb_ge; exact H).
  assert (Hpos : 0 < v) by (assert (0 < 2 ^ 53) by reflexivity; lia).
  destruct (N.log2_spec v Hpos) as [L1 L2].
  assert (HL : 53 <= N.log2 v).
  { change 53 with (N.log2 (2 ^ 53)). apply N.log2_le_mono. exact H. }
  set (e := N.log2 v - 52) in *.
  assert (He : N.log2 v = 52 + e) by (subst e; lia).
  assert (P : 2 ^ e <> 0) by (apply N.pow_nonzero; discriminate).
  rewrite He, N.pow_add_r in L1.
  rewrite He, <- N.add_succ_l, N.pow_add_r in L2.
  change (N.succ 52) with 53 in L2.
  assert (Q1 : 2 ^ 52 <= v / 2 ^ e).
  { apply N.div_le_lower_bound; [exact P|]. rewrite N.mul_comm. exact L1. }
  assert (Q2 : v / 2 ^ e < 2 ^ 53).
  { apply N.Div0.div_lt_upper_bound. rewrite N.mul_comm. exact L2. }
  set (q := v / 2 ^ e) in *.
  exists e.
  match goal with
  | |- exists q0, _ /\ _ /\ _ /\ _ /\ ?x * _ = _ => exists x
  end.
  split; [reflexivity|]. split; [subst e; lia|].
  repeat match goal with
         | |- context [if ?b then _ else _] => destruct b
         end; repeat split; lia.
Qed.

Lemma round53_scaled (e q : N) :
  1 <= e -> 2 ^ 52 <= q <= 2 ^ 53 -> round53 (q * 2 ^ e) = q * 2 ^ e.
Proof.
  intros He [Q1 Q2].
  assert (P : 2 ^ e <> 0) by (apply N.pow_nonzero; discriminate).
  assert (P1 : 0 < 2 ^ (e - 1)).
  { apply N.neq_0_lt_0. apply N.pow_nonzero. discriminate. }
  assert (P2 : 2 <= 2 ^ e).
  { change 2 with (2 ^ 1) at 1. apply N.pow_le_mono_r; [discriminate | exact He]. }
  assert (Big : 2 ^ 53 <= q * 2 ^ e).
  { change (2 ^ 53) with (2 ^ 52 * 2). apply N.mul_le_mono; assumption. }
  unfold round53.
  replace (q * 2 ^ e <? 2 ^ 53) with false by (symmetry; apply N.ltb_ge; exact Big).
  destruct (N.eq_dec q (2 ^ 53)) as [Eq | Nq].
  - subst q. rewrite <- N.pow_add_r, N.log2_pow2 by lia.
    replace (53 + e - 52) with (e + 1) by lia.
    replace (2 ^ (53 + e)) with (2 ^ 52 * 2 ^ (e + 1))
      by (rewrite <- N.pow_add_r; f_equal; lia).
    assert (P' : 2 ^ (e + 1) <> 0) by (apply N.pow_nonzero; discriminate).
    rewrite N.div_mul, N.Div0.mod_mul by exact P'.
    replace (e + 1 - 1) with e by lia.
    replace (0 <? 2 ^ e) with true by (symmetry; apply N.ltb_lt; lia).
    reflexivity.
  - assert (Lq : N.log2 q = 52).
    { apply N.log2_unique; [lia|]. split; [exact Q1|].
      change (2 ^ N.succ 52) with (2 ^ 53). lia. }
    rewrite N.log2_mul_pow2 by lia. rewrite Lq.
    replace (e + 52 - 52) with e by lia.
    rewrite N.div_mul, N.Div0.mod_mul by exact P.
    replace (0 <? 2 ^ (e - 1)) with true by (symmetry; apply N.ltb_lt; exact P1).
    reflexivity.
Qed.

(** Rounding twice is rounding once: the result is a binary64 value. *)
Lemma round53_idempotent (v : N) : round53 (round53 v) = round53 v.
Proof.
  destruct (N.lt_ge_cases v (2 ^ 53)) as [H | H].
  - rewrite (round53_small v H). apply round53_small. exact H.
  - destruct (round53_large v H) as [e [q [_ [He [_ [Hq E]]]]]].
    rewrite E. apply round53_scaled; assumption.
Qed.

(** Rounding does not take a number from 10^21 up to below 10^21. *)
Lemma round53_1e21 (c : N) : 10 ^ 21 <= c -> 10 ^ 21 <= round53 c.
Proof.
  intro H.
  assert (B : 2 ^ 53 <= c).
  { assert (2 ^ 53 <= 10 ^ 21) by (apply N.leb_le; reflexivity). lia. }
  destruct (round53_large c B) as [e [q [Ee [_ [Hq [[Q1 _] E]]]]]].
  rewrite E.
  assert (HL : 69 <= N.log2 c).
  { change 69 with (N.log2 (10 ^ 21)). apply N.log2_le_mono. exact H. }
  assert (P : 2 ^ e <> 0) by (apply N.pow_nonzero; discriminate).
  destruct (N.le_gt_cases e 21) as [Le | Gt].
  - assert (D : 10 ^ 21 / 2 ^ e <= q).
    { etransitivity; [|exact Hq]. apply N.Div0.div_le_mono. exact H. }
    assert (X : 10 ^ 21 / 2 ^ e * 2 ^ e = 10 ^ 21).
    { assert (C : e = 17 \/ e = 18 \/ e = 19 \/ e = 20 \/ e = 21) by lia.
      destruct C as [-> | [-> | [-> | [-> | ->]]]]; vm_compute; reflexivity. }
    rewrite <- X. apply N.mul_le_mono_r. exact D.
  - assert (T : 2 ^ 22 <= 2 ^ e) by (apply N.pow_le_mono_r; [discriminate | lia]).
    assert (U : 2 ^ 52 * 2 ^ 22 <= q * 2 ^ e) by (apply N.mul_le_mono; assumption).
    assert (V : 10 ^ 21 <= 2 ^ 52 * 2 ^ 22) by (apply N.leb_le; vm_compute; reflexivity).
    lia.
Qed.

(** The decimal chosen by [shortest] denotes the number it was chosen for. *)
Lemma shortest_at_denotes (v : N) (nd k : nat) (c : N) :
  shortest_at v nd k = Some c -> round53 c = v.
Proof.
  unfold shortest_at. cbv zeta.
  set (p := 10 ^ N.of_nat (nd - k)). set (lo := v / p * p).
  destruct (round53 lo =? v) eqn:E1; destruct (round53 (lo + p) =? v) eqn:E2;
    try discriminate;
    repeat match goal with
           | |- context [if ?b then _ else _] => destruct b
           end;
    intro H; inversion H; subst c;
    first [apply N.eqb_eq; exact E1 | apply N.eqb_eq; exact E2].
Qed.

Lemma shortest_denotes (v : N) : round53 v = v -> round53 (shortest v) = v.
Proof.
  intro Hv. unfold shortest.
  generalize (List.length (digits v)) at 2 as fuel.
  generalize 1%nat as k.
  intros k fuel. revert k.
  induction fuel as [|fuel IH]; intro k; simpl; [exact Hv|].
  destruct (shortest_at v (List.length (digits v)) k) as [c|] eqn:E.
  - apply (shortest_at_denotes _ _ _ _ E).
  - apply IH.
Qed.

End Rounding.

(** ** Timestamps *)

Section Timestamps.

Import LLMService.
Local Open Scope N_scope.

Lemma of_magnitude_binary64 (negative : bool) (m : N) :
  binary64 (of_magnitude negative m).
Proof.
  unfold of_magnitude. destruct (2 ^ 1024 <=? round53 m); [exact I|].
  unfold binary64. destruct negative.
  - rewrite Zabs2N.inj_opp, Zabs2N.id. apply round53_idempotent.
  - rewrite Zabs2N.id. apply round53_idempotent.
Qed.

Lemma parseInt_binary64 (s : jsstring) (radix : N) : binary64 (parseInt s radix).
Proof.
  unfold parseInt.
  repeat match goal with
         | |- binary64 (let '(_, _) := ?x in _) => destruct x
         | |- binary64 (if ?b then _ else _) => destruct b
         | |- binary64 (match ?x with Some _ => _ | None => _ end) => destruct x
         end; try exact I; apply of_magnitude_binary64.
Qed.

Lemma trimStart_decimal (c : N) (s : jsstring) :
  is_space c = false -> trimStart (c :: s) = c :: s.
Proof. intro H. unfold trimStart. simpl. rewrite H. reflexivity. Qed.

Lemma hex_prefix_decimal (s : jsstring) :
  Forall is_decimal s -> is_hex_prefix s = false.
Proof.
  intro H. destruct s as [|a [|b s]]; try reflexivity.
  inversion H as [|? ? _ H']. inversion H' as [|? ? [Hb1 Hb2] _]. subst.
  simpl. replace (b =? 120) with false by (symmetry; apply N.eqb_neq; lia).
  replace (b =? 88) with false by (symmetry; apply N.eqb_neq; lia).
  apply Bool.andb_false_r.
Qed.

Lemma decimal_value_zeros (k : nat) (s : jsstring) :
  decimal_value (repeat 48 k ++ s) = decimal_value s.
Proof.
  unfold decimal_value. rewrite fold_left_app. f_equal.
  induction k as [|k IH]; simpl; [reflexivity | exact IH].
Qed.

(** Reading a non-empty string of decimal digits. *)
Lemma parseInt_decimal (s : jsstring) :
  Forall is_decimal s -> s <> [] ->
  parseInt s 0 = of_magnitude false (decimal_value s).
Proof.
  intros H Hne. destruct s as [|c s]; [contradiction|].
  assert (Hc : is_decimal c) by (inversion H; assumption).
  unfold parseInt. rewrite trimStart_decimal by (apply decimal_not_space; exact Hc).
  destruct Hc as [C1 C2].
  replace (c =? 45) with false by (symmetry; apply N.eqb_neq; lia).
  replace (c =? 43) with false by (symmetry; apply N.eqb_neq; lia).
  cbn [N.eqb negb andb orb]. rewrite hex_prefix_decimal by exact H.
  cbn [andb]. rewrite scan_digits_decimal_start by (assumption || discriminate).
  reflexivity.
Qed.

(** Reading a minus sign followed by decimal digits. *)
Lemma parseInt_negative_decimal (s : jsstring) :
  Forall is_decimal s -> s <> [] ->
  parseInt (45 :: s) 0 = of_magnitude true (decimal_value s).
Proof.
  intros H Hne. unfold parseInt.
  rewrite trimStart_decimal by reflexivity.
  cbn [N.eqb Pos.eqb negb andb orb]. rewrite hex_prefix_decimal by exact H.
  cbn [andb]. rewrite scan_digits_decimal_start by assumption.
  reflexivity.
Qed.

Lemma decimal_no_colon (s : jsstring) : Forall is_decimal s -> ~ In 58 s.
Proof.
  intros H Hin. rewrite Forall_forall in H. destruct (H 58 Hin). lia.
Qed.

(** The text of a positive binary64 integer below 10^21 is the digits of
    a decimal that denotes it. *)
Lemma magnitude_toString_plain (p : positive) :
  round53 (Npos p) = Npos p -> Npos p < 10 ^ 21 ->
  exists c, magnitude_toString (Npos p) = digits c /\ round53 c = Npos p.
Proof.
  intros Hr Hp. exists (shortest (Npos p)).
  pose proof (shortest_denotes (Npos p) Hr) as Hc. split; [|exact Hc].
  unfold magnitude_toString. cbv zeta.
  destruct (shortest (Npos p) <? 10 ^ 21) eqn:E; [reflexivity|].
  apply N.ltb_ge in E. apply round53_1e21 in E. rewrite Hc in E. lia.
Qed.

Lemma of_magnitude_below (negative : bool) (c v : N) :
  round53 c = v -> v < 10 ^ 21 ->
  of_magnitude negative c = Fin (if negative then Z.opp (Z.of_N v) else Z.of_N v).
Proof.
  intros Hc Hv. unfold of_magnitude. rewrite Hc.
  replace (2 ^ 1024 <=? v) with false; [reflexivity|].
  symmetry. apply N.leb_gt.
  assert (10 ^ 21 < 2 ^ 1024) by (apply N.ltb_lt; vm_compute; reflexivity). lia.
Qed.

(** A padded field reads back as the number it was printed from, and has
    no colon in it. *)
Lemma pad2_reads_back (x : number) :
  binary64 x -> plain x = true ->
  parseInt (pad2 x) 0 = x /\ ~ In 58 (pad2 x).
Proof.
  intros Hb Hp. destruct x as [| neg | [|p|p]].
  - split; [vm_compute; reflexivity|].
    vm_compute. intros [H|[H|[H|H]]]; try discriminate H; exact H.
  - discriminate Hp.
  - split; [vm_compute; reflexivity|].
    vm_compute. intros [H|[H|H]]; try discriminate H; exact H.
  - simpl in Hb, Hp. apply Z.ltb_lt in Hp.
    assert (Hv : Npos p < 10 ^ 21).
    { change (10 ^ 21)%Z with (Z.of_N (10 ^ 21)) in Hp. lia. }
    destruct (magnitude_toString_plain p Hb Hv) as [c [Es Hc]].
    destruct (digits_spec c) as [D1 [D2 D3]].
    unfold pad2, padStart0. cbn [toString]. rewrite Es.
    assert (Hall : Forall is_decimal
                     (repeat 48 (2 - List.length (digits c))%nat ++ digits c)).
    { apply Forall_app. split; [|exact D1].
      apply Forall_forall. intros y Hy. apply repeat_spec in Hy. subst y.
      unfold is_decimal. lia. }
    split; [|apply decimal_no_colon; exact Hall].
    rewrite parseInt_decimal; [| exact Hall |].
    + rewrite decimal_value_zeros, D2.
      rewrite (of_magnitude_below false c (Npos p) Hc Hv). reflexivity.
    + intro H. apply app_eq_nil in H. destruct H as [_ H]. contradiction.
  - simpl in Hb, Hp. apply Z.ltb_lt in Hp.
    assert (Hv : Npos p < 10 ^ 21).
    { change (10 ^ 21)%Z with (Z.of_N (10 ^ 21)) in Hp. lia. }
    destruct (magnitude_toString_plain p Hb Hv) as [c [Es Hc]].
    destruct (digits_spec c) as [D1 [D2 D3]].
    unfold pad2, padStart0. cbn [toString]. rewrite Es.
    change (js "-") with [45]. cbn [app].
    replace (2 - List.length (45%N :: digits c))%nat with 0%nat
      by (destruct (digits c); [contradiction | simpl; lia]).
    cbn [repeat app]. split.
    + rewrite parseInt_negative_decimal by assumption.
      rewrite D2, (of_magnitude_below true c (Npos p) Hc Hv). reflexivity.
    + intros [H | H]; [discriminate H | exact (decimal_no_colon _ D1 H)].
Qed.

Lemma split_no_separator (sep : N) (a : jsstring) :
  ~ In sep a -> split sep a = [a].
Proof.
  induction a as [|c a IH]; intro H; simpl; [reflexivity|].
  replace (c =? sep) with false
    by (symmetry; apply N.eqb_neq; intro E; apply H; left; exact E).
  rewrite IH; [reflexivity|]. intro Hin. apply H. right. exact Hin.
Qed.

Lemma split_at_separator (sep : N) (a r : jsstring) :
  ~ In sep a -> split sep (a ++ sep :: r) = a :: split sep r.
Proof.
  induction a as [|c a IH]; intro H; simpl.
  - rewrite N.eqb_refl. reflexivity.
  - replace (c =? sep) with false
      by (symmetry; apply N.eqb_neq; intro E; apply H; left; exact E).
    rewrite IH; [reflexivity|]. intro Hin. apply H. right. exact Hin.
Qed.

Lemma pad2_length (x : number) : (2 <= List.length (pad2 x))%nat.
Proof.
  unfold pad2, padStart0. rewrite length_app, repeat_length. lia.
Qed.

Lemma field_reads_back (part : jsstring) :
  plain (parseInt part 0) = true ->
  parseInt (pad2 (parseInt part 0)) 0 = parseInt part 0 /\
  ~ In 58 (pad2 (parseInt part 0)).
Proof.
  intro H. apply pad2_reads_back; [apply parseInt_binary64 | exact H].
Qed.

(** C8, amended: [normalizeTimestamp] splits on the colon; two parts
    become [MM:SS] and three parts [HH:MM:SS], each part being the text
    of its [parseInt] value padded with zeros to at least two code units,
    and any other number of parts is returned unchanged. It is idempotent
    on every string with another number of parts, and on every string of
    two or three parts that each parse to NaN or to an integer of
    magnitude below 10^21; and [02:05], [2:5] and [1:2:3] normalize to
    [02:05], [02:05] and [01:02:03]. *)
Theorem normalizeTimestamp_idempotent :
  (forall s,
     normalizeTimestamp s
     = match split 58 s with
       | [m; sec] => pad2 (parseInt m 0) ++ js ":" ++ pad2 (parseInt sec 0)
       | [h; m; sec] =>
         pad2 (parseInt h 0) ++ js ":" ++ pad2 (parseInt m 0) ++ js ":"
           ++ pad2 (parseInt sec 0)
       | _ => s
       end) /\
  (forall x, (2 <= List.length (pad2 x))%nat) /\
  (forall s,
     (List.length (split 58 s) = 2%nat \/ List.length (split 58 s) = 3%nat ->
      forallb (fun part => plain (parseInt part 0)) (split 58 s) = true) ->
     normalizeTimestamp (normalizeTimestamp s) = normalizeTimestamp s) /\
  normalizeTimestamp (js "02:05") = js "02:05" /\
  normalizeTimestamp (js "2:5") = js "02:05" /\
  normalizeTimestamp (js "1:2:3") = js "01:02:03".
Proof.
  split; [intro s; reflexivity|].
  split; [exact pad2_length|].
  split; [| repeat split; vm_compute; reflexivity].
  intros s H. unfold normalizeTimestamp at 2 3.
  destruct (split 58 s) as [|p0 [|p1 [|p2 [|p3 rest]]]] eqn:E.
  - unfold normalizeTimestamp. rewrite E. reflexivity.
  - unfold normalizeTimestamp. rewrite E. reflexivity.
  - specialize (H (or_introl eq_refl)).
    cbn [forallb] in H. rewrite !Bool.andb_true_iff in H. destruct H as [H0 [H1 _]].
    destruct (field_reads_back p0 H0) as [R0 C0].
    destruct (field_reads_back p1 H1) as [R1 C1].
    cbv zeta. change (js ":") with [58]. cbn [app].
    unfold normalizeTimestamp.
    rewrite split_at_separator by exact C0.
    rewrite split_no_separator by exact C1.
    cbv zeta. rewrite R0, R1. reflexivity.
  - specialize (H (or_intror eq_refl)).
    cbn [forallb] in H. rewrite !Bool.andb_true_iff in H. destruct H as [H0 [H1 [H2 _]]].
    destruct (field_reads_back p0 H0) as [R0 C0].
    destruct (field_reads_back p1 H1) as [R1 C1].
    destruct (field_reads_back p2 H2) as [R2 C2].
    cbv zeta. change (js ":") with [58]. cbn [app].
    unfold normalizeTimestamp.
    rewrite split_at_separator by exact C0.
    rewrite split_at_separator by exact C1.
    rewrite split_no_separator by exact C2.
    cbv zeta. rewrite R0, R1, R2. reflexivity.
  - unfold normalizeTimestamp. rewrite E. reflexivity.
Qed.

End Timestamps.

(** C8, the claim as stated fails: a field of 22 digits prints in
    exponent notation, and the second pass reads only its leading digit. *)
Lemma normalizeTimestamp_not_idempotent :
  LLMService.normalizeTimestamp (js "1000000000000000000000:0") = js "1e+21:00" /\
  LLMService.normalizeTimestamp (js "1e+21:00") = js "01:00" /\
  LLMService.normalizeTimestamp
    (LLMService.normalizeTimestamp (js "1000000000000000000000:0"))
  <> LLMService.normalizeTimestamp (js "1000000000000000000000:0").
Proof.
  repeat split; try (vm_compute; reflexivity).
  intro H. vm_compute in H. discriminate H.
Qed.

Lemma normalizeTimestamp_idempotent_witness :
  LLMService.normalizeTimestamp (LLMService.normalizeTimestamp (js "2:5"))
  = LLMService.normalizeTimestamp (js "2:5").
Proof.
  apply (proj1 (proj2 (proj2 normalizeTimestamp_idempotent)) (js "2:5")).
  intros _. vm_compute. reflexivity.
Defined.

(** ** The cache store *)

Section CacheStore.

Import Cache.

Variable D : Type.

Lemma lookup_insert (key : jsstring) (e : entry D) (m : store D) :
  lookup key (insert key e m) = Some e.
Proof.
  induction m as [|[k x] m IH]; simpl.
  - rewrite eqb_refl. reflexivity.
  - destruct (Js.eqb k key) eqn:E; simpl; rewrite E; [reflexivity | exact IH].
Qed.

Lemma lookup_insert_other (key key' : jsstring) (e : entry D) (m : store D) :
  key <> key' -> lookup key' (insert key e m) = lookup key' m.
Proof.
  intro H. induction m as [|[k x] m IH]; simpl.
  - destruct (Js.eqb key key') eqn:E; [apply eqb_eq in E; contradiction | reflexivity].
  - destruct (Js.eqb k key) eqn:E; simpl.
    + apply eqb_eq in E. subst k.
      destruct (Js.eqb key key') eqn:E'; [apply eqb_eq in E'; contradiction | reflexivity].
    + destruct (Js.eqb k key'); [reflexivity | exact IH].
Qed.

Lemma lookup_in (key : jsstring) (e : entry D) (m : store D) :
  lookup key m = Some e -> In (key, e) m.
Proof.
  induction m as [|[k x] m IH]; simpl; [discriminate|].
  destruct (Js.eqb k key) eqn:E.
  - apply eqb_eq in E. intro H. inversion H. subst. now left.
  - intro H. right. apply IH. exact H.
Qed.

Lemma lookup_absent (key : jsstring) (m : store D) :
  ~ In key (List.map fst m) -> lookup key m = None.
Proof.
  induction m as [|[k x] m IH]; simpl; [reflexivity|]. intro H.
  destruct (Js.eqb k key) eqn:E.
  - apply eqb_eq in E. exfalso. apply H. now left.
  - apply IH. intro Hin. apply H. now right.
Qed.

Lemma remove_keys (key k : jsstring) (m : store D) :
  In k (List.map fst (remove key m)) -> In k (List.map fst m).
Proof.
  induction m as [|[k0 x] m IH]; simpl; [tauto|].
  destruct (Js.eqb k0 key); simpl; intuition.
Qed.

Lemma remove_distinct (key : jsstring) (m : store D) :
  distinct m -> distinct (remove key m).
Proof.
  unfold distinct. induction m as [|[k x] m IH]; simpl; intro H; [exact H|].
  inversion H as [|? ? Hn Hd]. subst.
  destruct (Js.eqb k key); [exact Hd|]. simpl. constructor.
  - intro Hin. apply Hn. eapply remove_keys. exact Hin.
  - apply IH. exact Hd.
Qed.

Lemma lookup_remove (key : jsstring) (m : store D) :
  distinct m -> lookup key (remove key m) = None.
Proof.
  unfold distinct. induction m as [|[k x] m IH]; simpl; intro H; [reflexivity|].
  inversion H as [|? ? Hn Hd]. subst.
  destruct (Js.eqb k key) eqn:E.
  - apply eqb_eq in E. subst k. apply lookup_absent. exact Hn.
  - simpl. rewrite E. apply IH. exact Hd.
Qed.

Lemma lookup_remove_other (key key' : jsstring) (m : store D) :
  key <> key' -> lookup key' (remove key m) = lookup key' m.
Proof.
  intro H. induction m as [|[k x] m IH]; simpl; [reflexivity|].
  destruct (Js.eqb k key) eqn:E.
  - apply eqb_eq in E. subst k.
    destruct (Js.eqb key key') eqn:E'; [apply eqb_eq in E'; contradiction | reflexivity].
  - simpl. destruct (Js.eqb k key'); [reflexivity | exact IH].
Qed.

Lemma insert_keys (key k : jsstring) (e : entry D) (m : store D) :
  In k (List.map fst (insert key e m)) -> k = key \/ In k (List.map fst m).
Proof.
  induction m as [|[k0 x] m IH]; simpl.
  - intros [H | []]. left. symmetry. exact H.
  - destruct (Js.eqb k0 key); simpl; intuition.
Qed.

Lemma insert_distinct (key : jsstring) (e : entry D) (m : store D) :
  distinct m -> distinct (insert key e m).
Proof.
  unfold distinct. induction m as [|[k x] m IH]; simpl; intro H.
  - constructor; [intros [] | constructor].
  - inversion H as [|? ? Hn Hd]. subst.
    destruct (Js.eqb k key) eqn:E; simpl.
    + constructor; assumption.
    + constructor; [|apply IH; exact Hd].
      intro Hin. apply insert_keys in Hin. destruct Hin as [-> | Hin].
      * rewrite eqb_refl in E. discriminate E.
      * contradiction.
Qed.

(** The pass of [cleanup] over a snapshot whose keys are distinct removes
    the keys whose snapshot entry has expired and no other. *)
Lemma cleanup_pass (now : Z) (snapshot : store D) :
  forall acc : store D,
    distinct snapshot -> distinct acc ->
    let acc' :=
      fold_left
        (fun (acc : store D) (kv : jsstring * entry D) => if (expires (snd kv) <? now)%Z then remove (fst kv) acc else acc)
        snapshot acc in
    distinct acc' /\
    forall k, lookup k acc'
              = match lookup k snapshot with
                | Some e => if (expires e <? now)%Z then None else lookup k acc
                | None => lookup k acc
                end.
Proof.
  induction snapshot as [|[k0 e0] snapshot IH]; intros acc Hs Hacc; simpl.
  - split; [exact Hacc | reflexivity].
  - inversion Hs as [|? ? Hn Hd]. subst.
    destruct (expires e0 <? now)%Z eqn:Ex.
    + destruct (IH (remove k0 acc) Hd (remove_distinct k0 acc Hacc)) as [H1 H2].
      split; [exact H1|]. intro k. rewrite H2.
      destruct (Js.eqb k0 k) eqn:E.
      * apply eqb_eq in E. subst k0.
        rewrite (lookup_absent k snapshot Hn). rewrite Ex.
        apply lookup_remove. exact Hacc.
      * rewrite lookup_remove_other
          by (intro X; subst; rewrite eqb_refl in E; discriminate E).
        reflexivity.
    + destruct (IH acc Hd Hacc) as [H1 H2].
      split; [exact H1|]. intro k. rewrite H2.
      destruct (Js.eqb k0 k) eqn:E; [|reflexivity].
      apply eqb_eq in E. subst k0.
      rewrite (lookup_absent k snapshot Hn), Ex. reflexivity.
Qed.

(** X1: a value stored with [set] is returned by [get] at any time up to
    and including its expiry instant, whatever the store held before, and
    that [get] leaves the store unchanged. *)
Theorem cache_set_then_get (m : store D) (now now' ttlSeconds : Z) (key : jsstring) (d : D) :
  (now' <= now + ttlSeconds * 1000)%Z ->
  get now' key (set now key d ttlSeconds m) = (Some d, set now key d ttlSeconds m).
Proof.
  intro H. unfold get, set. rewrite lookup_insert. cbn [expires data].
  replace (now + ttlSeconds * 1000 <? now')%Z with false
    by (symmetry; apply Z.ltb_ge; exact H).
  reflexivity.
Qed.

(** X2: once the expiry instant has passed, [get] returns [null] and
    removes the entry: the key is absent from the store it leaves, so every
    later [get], at any clock reading, returns [null] as well. *)
Theorem cache_get_after_expiry (m : store D) (now now' later ttlSeconds : Z)
    (key : jsstring) (d : D) :
  distinct m ->
  (now + ttlSeconds * 1000 < now')%Z ->
  fst (get now' key (set now key d ttlSeconds m)) = None /\
  lookup key (snd (get now' key (set now key d ttlSeconds m))) = None /\
  fst (get later key (snd (get now' key (set now key d ttlSeconds m)))) = None.
Proof.
  intros Hm H. unfold get at 1 2 4, set. rewrite lookup_insert. cbn [expires data].
  replace (now + ttlSeconds * 1000 <? now')%Z with true
    by (symmetry; apply Z.ltb_lt; exact H).
  cbn [fst snd].
  assert (L : lookup key (remove key
                (insert key {| data := d; expires := (now + ttlSeconds * 1000)%Z |} m))
              = None).
  { apply lookup_remove. apply insert_distinct. exact Hm. }
  split; [reflexivity|]. split; [exact L|].
  unfold get. rewrite L. reflexivity.
Qed.

(** X3: [set], [delete] and an expiring [get] on one key do not change
    what [get] returns for any other key. *)
Theorem cache_other_keys_untouched (m : store D) (now now' ttlSeconds : Z)
    (key key' : jsstring) (d : D) :
  key <> key' ->
  fst (get now' key' (set now key d ttlSeconds m)) = fst (get now' key' m) /\
  fst (get now' key' (delete key m)) = fst (get now' key' m) /\
  fst (get now' key' (snd (get now key m))) = fst (get now' key' m).
Proof.
  intro H. repeat split.
  - unfold get, set. rewrite lookup_insert_other by exact H. 
    destruct (lookup key' m) as [e|]; [|reflexivity].
    destruct (expires e <? now')%Z; reflexivity.
  - unfold get, delete. rewrite lookup_remove_other by exact H.
    destruct (lookup key' m) as [e|]; [|reflexivity].
    destruct (expires e <? now')%Z; reflexivity.
  - unfold get at 2. destruct (lookup key m) as [c|]; [|reflexivity].
    destruct (expires c <? now)%Z; [|reflexivity]. cbn [snd].
    unfold get. rewrite lookup_remove_other by exact H.
    destruct (lookup key' m) as [e|]; [|reflexivity].
    destruct (expires e <? now')%Z; reflexivity.
Qed.

(** The store of the model is a list of pairs that stands for a [Map]:
    no method introduces a second entry under a key. *)
Lemma cache_keys_stay_distinct (m : store D) (now ttlSeconds : Z) (key : jsstring) (d : D) :
  distinct m ->
  distinct (set now key d ttlSeconds m) /\
  distinct (delete key m) /\
  distinct (snd (get now key m)) /\
  distinct (cleanup now m) /\
  distinct (clear m).
Proof.
  intro H. repeat split.
  - apply insert_distinct. exact H.
  - apply remove_distinct. exact H.
  - unfold get. destruct (lookup key m) as [c|]; [|exact H].
    destruct (expires c <? now)%Z; [apply remove_distinct|]; exact H.
  - apply (cleanup_pass now m m H H).
  - constructor.
Qed.

(** X5: [cleanup] removes the expired entries and nothing else: afterwards
    no entry of the store has expired, and [get] at that instant returns
    for every key exactly what it returned before. *)
Theorem cache_cleanup_sweeps (m : store D) (now : Z) :
  distinct m ->
  (forall k e, lookup k (cleanup now m) = Some e -> (now <= expires e)%Z) /\
  (forall k, fst (get now k (cleanup now m)) = fst (get now k m)).
Proof.
  intro H. destruct (cleanup_pass now m m H H) as [_ L]. cbn zeta in L.
  fold (cleanup now m) in L. split.
  - intros k e Hk. rewrite L in Hk.
    destruct (lookup k m) as [e'|]; [|discriminate Hk].
    destruct (expires e' <? now)%Z eqn:E; [discriminate Hk|].
    inversion Hk. subst. apply Z.ltb_ge in E. exact E.
  - intro k. unfold get. rewrite L.
    destruct (lookup k m) as [e|]; [|reflexivity].
    destruct (expires e <? now)%Z eqn:E; [reflexivity|]. rewrite E. reflexivity.
Qed.

End CacheStore.

Lemma cache_set_then_get_witness :
  Cache.get 4600000 (js "tldr:dQw4w9WgXcQ-ru-gpt-5")
    (Cache.set 1000000 (js "tldr:dQw4w9WgXcQ-ru-gpt-5") (js "payload") 3600 [])
  = (Some (js "payload"),
     Cache.set 1000000 (js "tldr:dQw4w9WgXcQ-ru-gpt-5") (js "payload") 3600 []).
Proof.
  apply (cache_set_then_get jsstring [] 1000000 4600000 3600
           (js "tldr:dQw4w9WgXcQ-ru-gpt-5") (js "payload")).
  lia.
Defined.

Lemma cache_get_after_expiry_witness :
  fst (Cache.get 4600001 (js "k") (Cache.set 1000000 (js "k") (js "payload") 3600 []))
  = None /\
  Cache.lookup (js "k")
    (snd (Cache.get 4600001 (js "k") (Cache.set 1000000 (js "k") (js "payload") 3600 [])))
  = None /\
  fst (Cache.get 0 (js "k")
         (snd (Cache.get 4600001 (js "k")
                 (Cache.set 1000000 (js "k") (js "payload") 3600 []))))
  = None.
Proof.
  apply (cache_get_after_expiry jsstring [] 1000000 4600001 0 3600 (js "k") (js "payload")).
  - constructor.
  - lia.
Defined.

Lemma cache_other_keys_untouched_witness :
  fst (Cache.get 5 (js "b") (Cache.set 0 (js "a") 1%nat 3600 [(js "b", {| Cache.data := 2%nat; Cache.expires := 10 |})]))
  = fst (Cache.get 5 (js "b") [(js "b", {| Cache.data := 2%nat; Cache.expires := 10 |})]) /\
  fst (Cache.get 5 (js "b") (Cache.delete (js "a") [(js "b", {| Cache.data := 2%nat; Cache.expires := 10 |})]))
  = fst (Cache.get 5 (js "b") [(js "b", {| Cache.data := 2%nat; Cache.expires := 10 |})]) /\
  fst (Cache.get 5 (js "b")
         (snd (Cache.get 0 (js "a") [(js "b", {| Cache.data := 2%nat; Cache.expires := 10 |})])))
  = fst (Cache.get 5 (js "b") [(js "b", {| Cache.data := 2%nat; Cache.expires := 10 |})]).
Proof.
  apply (cache_other_keys_untouched nat
           [(js "b", {| Cache.data := 2%nat; Cache.expires := 10 |})] 0 5 3600
           (js "a") (js "b") 1%nat).
  intro H. vm_compute in H. discriminate H.
Defined.

Lemma cache_keys_stay_distinct_witness :
  Cache.distinct (Cache.set 0 (js "a") 1%nat 3600 []) /\
  Cache.distinct (Cache.delete (js "a") (@nil (jsstring * Cache.entry nat))) /\
  Cache.distinct (snd (Cache.get 0 (js "a") (@nil (jsstring * Cache.entry nat)))) /\
  Cache.distinct (Cache.cleanup 0 (@nil (jsstring * Cache.entry nat))) /\
  Cache.distinct (Cache.clear (@nil (jsstring * Cache.entry nat))).
Proof.
  apply (cache_keys_stay_distinct nat [] 0 3600 (js "a") 1%nat). constructor.
Defined.

Lemma cache_cleanup_sweeps_witness :
  let m := [(js "a", {| Cache.data := 1%nat; Cache.expires := 5 |});
            (js "b", {| Cache.data := 2%nat; Cache.expires := 50 |})] in
  (forall k e, Cache.lookup k (Cache.cleanup 10 m) = Some e -> (10 <= Cache.expires e)%Z) /\
  (forall k, fst (Cache.get 10 k (Cache.cleanup 10 m)) = fst (Cache.get 10 k m)).
Proof.
  apply (cache_cleanup_sweeps nat
           [(js "a", {| Cache.data := 1%nat; Cache.expires := 5 |});
            (js "b", {| Cache.data := 2%nat; Cache.expires := 50 |})] 10).
  unfold Cache.distinct. simpl. constructor.
  - intros [H | []]. vm_compute in H. discriminate H.
  - constructor; [intros [] | constructor].
Defined.

(** ** Conditional retries and waits *)

Section ConditionalRetry.

Import Eff.

Variables (F T : Type).
Variables (mul min : F -> F -> F) (of_int : Z -> F).

Lemma conditional_loop_always (W : Type) (sleep : F -> W -> W) (operation : M W T)
    (opts : Retry.RetryOptions F) (mult maxd : F) (iterations : nat) :
  forall (attempt : Z) (d : F) (lastError : option value) (w : W),
    RetryWithCondition.loop mul min sleep operation (fun _ _ => true)
      (Retry.maxRetries opts) mult maxd iterations attempt d lastError w
    = Retry.loop mul min sleep operation opts mult maxd iterations attempt d lastError w.
Proof.
  induction iterations as [|it IH]; intros attempt d lastError w; [reflexivity|].
  cbn [RetryWithCondition.loop Retry.loop]. unfold try_catch.
  destruct (operation w) as [[a|e] w']; [reflexivity|].
  cbn [negb]. rewrite Bool.orb_false_r.
  destruct (attempt =? Retry.maxRetries opts)%Z; [reflexivity|]. apply IH.
Qed.

(** X6: with a predicate that accepts every error, [retryWithCondition]
    behaves exactly as [retryOperation] with the same options, for every
    operation and every state of the world. *)
Theorem retryWithCondition_always (W : Type) (sleep : F -> W -> W) (operation : M W T)
    (opts : Retry.RetryOptions F) (w : W) :
  RetryWithCondition.retryWithCondition mul min of_int sleep operation (fun _ _ => true)
    {| RetryWithCondition.maxRetries := Some (Retry.maxRetries opts);
       RetryWithCondition.delay := Retry.delay opts;
       RetryWithCondition.backoffMultiplier := Retry.backoffMultiplier opts;
       RetryWithCondition.maxDelay := Retry.maxDelay opts |} w
  = Retry.retryOperation mul min of_int sleep operation opts w.
Proof.
  unfold RetryWithCondition.retryWithCondition, Retry.retryOperation.
  cbn [RetryWithCondition.maxRetries RetryWithCondition.delay
       RetryWithCondition.backoffMultiplier RetryWithCondition.maxDelay].
  apply conditional_loop_always.
Qed.

(** X7: when the first invocation throws an error that the predicate
    rejects, [retryWithCondition] re-raises it at once: the operation has
    run once and no wait has taken place. *)
Theorem retryWithCondition_aborts (W : Type) (sleep : F -> W -> W) (operation : M W T)
    (shouldRetry : value -> Z -> bool) (opts : RetryWithCondition.Options F)
    (w w' : W) (e : value) :
  match RetryWithCondition.maxRetries opts with Some n => (0 <= n)%Z | None => True end ->
  operation w = (Throw e, w') ->
  shouldRetry (Retry.as_Error e) 0%Z = false ->
  RetryWithCondition.retryWithCondition mul min of_int sleep operation shouldRetry opts w
  = (Throw (Retry.as_Error e), w').
Proof.
  intros Hn Ho Hs. unfold RetryWithCondition.retryWithCondition.
  set (max := match RetryWithCondition.maxRetries opts with Some n => n | None => 3%Z end).
  assert (Hmax : (0 <= max)%Z).
  { subst max. destruct (RetryWithCondition.maxRetries opts); [exact Hn | lia]. }
  destruct (Z.to_nat (max + 1)) as [|it] eqn:E; [lia|].
  cbn [RetryWithCondition.loop]. unfold try_catch. rewrite Ho, Hs.
  rewrite Bool.orb_true_r. reflexivity.
Qed.

(** The waits of a run in which every invocation but possibly the last
    throws: the first is the current delay, each later one is capped. *)
Lemma loop_waits (script : nat -> outcome T) (opts : Retry.RetryOptions F) (mult maxd : F) :
  forall (k : nat) (attempt : Z) (d : F) (lastError : option value)
         (w : Retry.script_world F),
    (attempt + Z.of_nat k = Retry.maxRetries opts)%Z ->
    (forall i, (Retry.calls w <= i < Retry.calls w + k)%nat -> exists e, script i = Throw e) ->
    exists waits,
      Retry.sleeps
        (snd (Retry.loop mul min (@Retry.scripted_sleep F) (Retry.scripted script) opts
                mult maxd (S k) attempt d lastError w))
      = Retry.sleeps w ++ waits /\
      List.length waits = k /\
      (forall rest first, waits = first :: rest ->
         first = d /\ Forall (fun x => exists y, x = min y maxd) rest).
Proof.
  induction k as [|k IH]; intros attempt d lastError w Ha Hs.
  - exists []. rewrite loop_step. unfold Retry.scripted.
    replace (attempt =? Retry.maxRetries opts)%Z with true
      by (symmetry; apply Z.eqb_eq; lia).
    destruct (script (Retry.calls w)) as [v|e]; cbn [snd Retry.sleeps];
      rewrite app_nil_r;
      (split; [reflexivity|]; split; [reflexivity|];
       intros rest first Hw; discriminate Hw).
  - destruct (Hs (Retry.calls w)) as [e He]; [lia|].
    rewrite loop_step. unfold Retry.scripted at 1. rewrite He.
    replace (attempt =? Retry.maxRetries opts)%Z with false
      by (symmetry; apply Z.eqb_neq; lia).
    destruct (IH (attempt + 1)%Z (min (mul d mult) maxd) (Some (Retry.as_Error e))
                (Retry.scripted_sleep d
                   {| Retry.calls := S (Retry.calls w); Retry.sleeps := Retry.sleeps w |}))
      as [waits [I1 [I2 I3]]].
    + lia.
    + unfold Retry.scripted_sleep. cbn [Retry.calls]. intros i Hi. apply Hs. lia.
    + exists (d :: waits). rewrite I1. unfold Retry.scripted_sleep.
      cbn [Retry.sleeps]. rewrite <- app_assoc. cbn [app].
      split; [reflexivity|]. split; [simpl; lia|].
      intros rest first Hw. inversion Hw. subst first rest.
      split; [reflexivity|].
      destruct waits as [|first' rest']; [constructor|].
      destruct (I3 rest' first' eq_refl) as [-> I4].
      constructor; [exists (mul d mult); reflexivity | exact I4].
Qed.

(** X8: when every invocation throws, [retryOperation] waits [maxRetries]
    times; the first wait is the configured [delay] itself, even above
    [maxDelay], and each later wait is a minimum taken with [maxDelay]
    (30000 by default). *)
Theorem retryOperation_waits (script : nat -> outcome T) (opts : Retry.RetryOptions F) :
  (0 <= Retry.maxRetries opts)%Z ->
  (forall i, exists e, script i = Throw e) ->
  let maxd := match Retry.maxDelay opts with Some m => m | None => of_int 30000 end in
  let waits :=
    Retry.sleeps
      (snd (Retry.retryOperation mul min of_int (@Retry.scripted_sleep F)
              (Retry.scripted script) opts (Retry.fresh F))) in
  List.length waits = Z.to_nat (Retry.maxRetries opts) /\
  (forall rest first, waits = first :: rest ->
     first = Retry.delay opts /\ Forall (fun x => exists y, x = min y maxd) rest).
Proof.
  intros Hn Hs maxd waits. subst waits. unfold Retry.retryOperation.
  replace (Z.to_nat (Retry.maxRetries opts + 1))
    with (S (Z.to_nat (Retry.maxRetries opts))) by lia.
  match goal with
  | |- context [Retry.loop _ _ _ _ _ ?mult ?md _ _ ?d ?le ?w] =>
    destruct (loop_waits script opts mult md (Z.to_nat (Retry.maxRetries opts))
                0%Z d le w) as [ws [L1 [L2 L3]]]
  end.
  - lia.
  - intros i _. apply Hs.
  - change (Retry.sleeps (Retry.fresh F)) with (@nil F) in L1. cbn [app] in L1.
    rewrite L1. split; [exact L2 | exact L3].
Qed.

End ConditionalRetry.

Lemma retryWithCondition_aborts_witness :
  RetryWithCondition.retryWithCondition Z.mul Z.min (fun z => z) (fun (_ : Z) (n : nat) => S n)
    (fun n : nat => (@Eff.Throw unit (Eff.VError (js "HTTP 404")), n))
    (fun _ _ => false)
    {| RetryWithCondition.maxRetries := None; RetryWithCondition.delay := 1000%Z;
       RetryWithCondition.backoffMultiplier := None;
       RetryWithCondition.maxDelay := None |} 0%nat
  = (Eff.Throw (Retry.as_Error (Eff.VError (js "HTTP 404"))), 0%nat).
Proof.
  apply (retryWithCondition_aborts Z unit Z.mul Z.min (fun z => z) nat
           (fun (_ : Z) (n : nat) => S n)
           (fun n : nat => (Eff.Throw (Eff.VError (js "HTTP 404")), n))
           (fun _ _ => false)).
  - exact I.
  - reflexivity.
  - reflexivity.
Defined.

Lemma retryOperation_waits_witness :
  let opts := {| Retry.maxRetries := 3%Z; Retry.delay := 50000%Z;
                 Retry.backoffMultiplier := None; Retry.maxDelay := None |} in
  let waits :=
    Retry.sleeps
      (snd (Retry.retryOperation Z.mul Z.min (fun z => z) (@Retry.scripted_sleep Z)
              (@Retry.scripted Z unit (fun _ => Eff.Throw (Eff.VError (js "down"))))
              opts (Retry.fresh Z))) in
  List.length waits = 3%nat /\
  (forall rest first, waits = first :: rest ->
     first = 50000%Z /\ Forall (fun x => exists y, x = Z.min y 30000) rest).
Proof.
  apply (retryOperation_waits Z unit Z.mul Z.min (fun z => z)
           (fun _ => Eff.Throw (Eff.VError (js "down")))
           {| Retry.maxRetries := 3%Z; Retry.delay := 50000%Z;
              Retry.backoffMultiplier := None; Retry.maxDelay := None |}).
  - simpl. lia.
  - intro i. eexists. reflexivity.
Defined.

(** ** Caption track choice *)

Section TrackChoice.

Import Eff CaptionTracks.

Lemma has_language_spec (lang : jsstring) (c : caption) :
  has_language lang c = true <-> language c = Some lang.
Proof.
  unfold has_language. destruct (language c) as [l|].
  - rewrite eqb_eq. split; [intros ->; reflexivity | intro H; inversion H; reflexivity].
  - split; discriminate.
Qed.

Lemma exact_match_spec (captions : list caption) (langs : list jsstring) (c : caption) :
  exact_match captions langs = Some c ->
  In c captions /\
  exists before l after,
    langs = before ++ l :: after /\ language c = Some l /\
    forall l' c', In l' before -> In c' captions -> language c' <> Some l'.
Proof.
  induction langs as [|lang langs IH]; simpl; [discriminate|].
  destruct (find (has_language lang) captions) as [c0|] eqn:E.
  - intro H. inversion H. subst c0. apply find_some in E. destruct E as [Hin Hl].
    split; [exact Hin|]. exists [], lang, langs.
    split; [reflexivity|]. split; [apply has_language_spec; exact Hl|].
    intros ? ? [].
  - intro H. destruct (IH H) as [Hin [before [l [after [-> [Hl Hb]]]]]].
    split; [exact Hin|]. exists (lang :: before), l, after.
    split; [reflexivity|]. split; [exact Hl|].
    intros l' c' [<- | Hl'] Hc'.
    + intro X. apply has_language_spec in X.
      rewrite (find_none _ _ E c' Hc') in X. discriminate X.
    + apply Hb; assumption.
Qed.

Lemma exact_match_found (captions : list caption) (langs : list jsstring)
    (lang : jsstring) (c : caption) :
  In lang langs -> In c captions -> language c = Some lang ->
  exists c', exact_match captions langs = Some c'.
Proof.
  intros Hl Hc Hlang. induction langs as [|l0 langs IH]; [contradiction|]. simpl.
  destruct (find (has_language l0) captions) as [c0|] eqn:E; [exists c0; reflexivity|].
  destruct Hl as [-> | Hl].
  - apply has_language_spec in Hlang.
    rewrite (find_none _ _ E c Hc) in Hlang. discriminate Hlang.
  - apply IH. exact Hl.
Qed.

(** X9: when some caption carries exactly one of the preferred languages,
    [selectBestCaptionTrack] returns a caption of the list whose language
    is the first preferred language that occurs exactly, whatever prefix
    matches the earlier preferences have; no item is inspected for a
    prefix, so an item without language cannot make the call throw. *)
Theorem selectBestCaptionTrack_exact (captions : list caption) (langs : list jsstring)
    (lang : jsstring) (c : caption) :
  In lang langs -> In c captions -> language c = Some lang ->
  exists c' before l after,
    selectBestCaptionTrack captions langs = Ok (Some c') /\
    In c' captions /\
    langs = before ++ l :: after /\ language c' = Some l /\
    forall l' c'', In l' before -> In c'' captions -> language c'' <> Some l'.
Proof.
  intros Hl Hc Hlang.
  destruct (exact_match_found captions langs lang c Hl Hc Hlang) as [c' E].
  destruct (exact_match_spec captions langs c' E) as [Hin [before [l [after [H1 [H2 H3]]]]]].
  exists c', before, l, after. unfold selectBestCaptionTrack. rewrite E.
  repeat split; assumption.
Qed.

Lemma find_family_spec (prefix : jsstring) (captions : list caption) :
  Forall (fun c => language c <> None) captions ->
  match find_family prefix captions with
  | Ok (Some c) =>
    In c captions /\ exists l, language c = Some l /\ startsWith l prefix = true
  | Ok None =>
    forall c l, In c captions -> language c = Some l -> startsWith l prefix = false
  | Throw _ => False
  end.
Proof.
  induction captions as [|c captions IH]; intro H; simpl.
  - intros ? ? [].
  - inversion H as [|? ? Hc Hr]. subst.
    destruct (language c) as [l|] eqn:El; [|contradiction].
    destruct (startsWith l prefix) eqn:Es.
    + split; [now left|]. exists l. split; assumption.
    + specialize (IH Hr). destruct (find_family prefix captions) as [[c0|]|e].
      * destruct IH as [Hin Hx]. split; [now right | exact Hx].
      * intros c' l' [<- | Hin] Hl'.
        -- rewrite El in Hl'. inversion Hl'. subst. exact Es.
        -- eapply IH; eassumption.
      * exact IH.
Qed.

Lemma family_match_spec (captions : list caption) (langs : list jsstring) :
  Forall (fun c => language c <> None) captions ->
  match family_match captions langs with
  | Ok (Some c) =>
    In c captions /\
    exists lang l, In lang langs /\ language c = Some l /\
                   startsWith l (lang ++ js "-") = true
  | Ok None =>
    forall lang c l, In lang langs -> In c captions -> language c = Some l ->
                     startsWith l (lang ++ js "-") = false
  | Throw _ => False
  end.
Proof.
  intro H. induction langs as [|lang langs IH]; simpl.
  - intros ? ? ? [].
  - pose proof (find_family_spec (lang ++ js "-") captions H) as Hf.
    destruct (find_family (lang ++ js "-") captions) as [[c|]|e].
    + destruct Hf as [Hin [l [Hl Hs]]]. split; [exact Hin|].
      exists lang, l. split; [now left|]. split; assumption.
    + destruct (family_match captions langs) as [[c|]|e].
      * destruct IH as [Hin [lang' [l [Hl' [Hl Hs]]]]]. split; [exact Hin|].
        exists lang', l. split; [now right|]. split; assumption.
      * intros lang' c l [<- | Hl'] Hc Hl.
        -- eapply Hf; eassumption.
        -- eapply IH; eassumption.
      * exact IH.
    + exact Hf.
Qed.

(** X10: when every caption has a language, [selectBestCaptionTrack] does
    not throw; it returns [undefined] only for an empty list, and otherwise
    a caption of the list which, unless no caption matches any preference
    exactly or by prefix, carries a preferred language or begins with a
    preferred language followed by a hyphen. *)
Theorem selectBestCaptionTrack_defined (captions : list caption) (langs : list jsstring) :
  Forall (fun c => language c <> None) captions ->
  match selectBestCaptionTrack captions langs with
  | Ok None => captions = []
  | Ok (Some c) =>
    In c captions /\
    ((exists lang, In lang langs /\ language c = Some lang) \/
     (exists lang l, In lang langs /\ language c = Some l /\
                     startsWith l (lang ++ js "-") = true) \/
     (forall lang c' l, In lang langs -> In c' captions -> language c' = Some l ->
                        l <> lang /\ startsWith l (lang ++ js "-") = false))
  | Throw _ => False
  end.
Proof.
  intro H. unfold selectBestCaptionTrack.
  destruct (exact_match captions langs) as [c|] eqn:E.
  - destruct (exact_match_spec captions langs c E) as [Hin [before [l [after [-> [Hl _]]]]]].
    split; [exact Hin|]. left. exists l. split; [|exact Hl].
    apply in_or_app. right. now left.
  - pose proof (family_match_spec captions langs H) as Hf.
    destruct (family_match captions langs) as [[c|]|e]; [| |exact Hf].
    + destruct Hf as [Hin Hx]. split; [exact Hin|]. right. left. exact Hx.
    + assert (None_exact : forall lang c' l, In lang langs -> In c' captions ->
                language c' = Some l -> l <> lang /\ startsWith l (lang ++ js "-") = false).
      { intros lang c' l Hl Hc Hlang. split; [|eapply Hf; eassumption].
        intro X. subst l.
        destruct (exact_match_found captions langs lang c' Hl Hc Hlang) as [c0 E0].
        rewrite E in E0. discriminate E0. }
      destruct (find language_truthy captions) as [c|] eqn:Ft.
      * apply find_some in Ft. split; [apply Ft|]. right. right. exact None_exact.
      * destruct captions as [|c captions]; [reflexivity|]. cbn [hd_error].
        split; [now left|]. right. right. exact None_exact.
Qed.

(** X11: when no caption matches a preference exactly and an item without
    language comes before any item whose language begins with the first
    preferred language and a hyphen, the call throws a TypeError instead
    of falling back to the first available track. *)
Theorem selectBestCaptionTrack_throws (captions rest : list caption) (langs : list jsstring)
    (lang : jsstring) (before : list caption) (c : caption) :
  captions = before ++ c :: rest ->
  language c = None ->
  exact_match captions (lang :: langs) = None ->
  Forall (fun b => exists l, language b = Some l /\ startsWith l (lang ++ js "-") = false)
         before ->
  selectBestCaptionTrack captions (lang :: langs)
  = Throw (VError (js "Cannot read properties of undefined (reading 'startsWith')")).
Proof.
  intros -> Hc He Hb. unfold selectBestCaptionTrack. rewrite He.
  cbn [family_match].
  assert (F : find_family (lang ++ js "-") (before ++ c :: rest)
              = Throw (VError (js "Cannot read properties of undefined (reading 'startsWith')"))).
  { clear He. induction Hb as [|b before [l [Hl Hs]] Hb IH]; simpl.
    - rewrite Hc. reflexivity.
    - rewrite Hl, Hs. exact IH. }
  rewrite F. reflexivity.
Qed.

End TrackChoice.

Lemma selectBestCaptionTrack_exact_witness :
  exists c' before l after,
    CaptionTracks.selectBestCaptionTrack
      [{| CaptionTracks.track_id := js "t1"; CaptionTracks.language := Some (js "en-US") |};
       {| CaptionTracks.track_id := js "t2"; CaptionTracks.language := Some (js "ru") |}]
      [js "en"; js "ru"] = Eff.Ok (Some c') /\
    In c' [{| CaptionTracks.track_id := js "t1"; CaptionTracks.language := Some (js "en-US") |};
           {| CaptionTracks.track_id := js "t2"; CaptionTracks.language := Some (js "ru") |}] /\
    [js "en"; js "ru"] = before ++ l :: after /\
    CaptionTracks.language c' = Some l /\
    forall l' c'', In l' before ->
      In c'' [{| CaptionTracks.track_id := js "t1"; CaptionTracks.language := Some (js "en-US") |};
              {| CaptionTracks.track_id := js "t2"; CaptionTracks.language := Some (js "ru") |}] ->
      CaptionTracks.language c'' <> Some l'.
Proof.
  apply (selectBestCaptionTrack_exact
           [{| CaptionTracks.track_id := js "t1"; CaptionTracks.language := Some (js "en-US") |};
            {| CaptionTracks.track_id := js "t2"; CaptionTracks.language := Some (js "ru") |}]
           [js "en"; js "ru"] (js "ru")
           {| CaptionTracks.track_id := js "t2"; CaptionTracks.language := Some (js "ru") |}).
  - right. left. reflexivity.
  - right. left. reflexivity.
  - reflexivity.
Defined.

Lemma selectBestCaptionTrack_defined_witness :
  match CaptionTracks.selectBestCaptionTrack
          [{| CaptionTracks.track_id := js "t1"; CaptionTracks.language := Some (js "de") |}]
          [js "en"] with
  | Eff.Ok None =>
    [{| CaptionTracks.track_id := js "t1"; CaptionTracks.language := Some (js "de") |}] = []
  | Eff.Ok (Some c) =>
    In c [{| CaptionTracks.track_id := js "t1"; CaptionTracks.language := Some (js "de") |}] /\
    ((exists lang, In lang [js "en"] /\ CaptionTracks.language c = Some lang) \/
     (exists lang l, In lang [js "en"] /\ CaptionTracks.language c = Some l /\
                     Js.startsWith l (lang ++ js "-") = true) \/
     (forall lang c' l, In lang [js "en"] ->
        In c' [{| CaptionTracks.track_id := js "t1"; CaptionTracks.language := Some (js "de") |}] ->
        CaptionTracks.language c' = Some l ->
        l <> lang /\ Js.startsWith l (lang ++ js "-") = false))
  | Eff.Throw _ => False
  end.
Proof.
  apply (selectBestCaptionTrack_defined
           [{| CaptionTracks.track_id := js "t1"; CaptionTracks.language := Some (js "de") |}]
           [js "en"]).
  constructor; [discriminate | constructor].
Defined.

Lemma selectBestCaptionTrack_throws_witness :
  CaptionTracks.selectBestCaptionTrack
    [{| CaptionTracks.track_id := js "t0"; CaptionTracks.language := None |};
     {| CaptionTracks.track_id := js "t1"; CaptionTracks.language := Some (js "en-GB") |}]
    [js "en"]
  = Eff.Throw (Eff.VError (js "Cannot read properties of undefined (reading 'startsWith')")).
Proof.
  apply (selectBestCaptionTrack_throws
           [{| CaptionTracks.track_id := js "t0"; CaptionTracks.language := None |};
            {| CaptionTracks.track_id := js "t1"; CaptionTracks.language := Some (js "en-GB") |}]
           [{| CaptionTracks.track_id := js "t1"; CaptionTracks.language := Some (js "en-GB") |}]
           [] (js "en") []
           {| CaptionTracks.track_id := js "t0"; CaptionTracks.language := None |}).
  - reflexivity.
  - reflexivity.
  - reflexivity.
  - constructor.
Defined.

(** ** The matcher and the texts a pattern denotes *)

Section Matcher.

Import Regex RegexSpec.

Lemma run_Star (A : Type) (total : nat) (r : re) (s : jsstring) (c : caps)
    (k : jsstring -> caps -> option A) :
  run total (Star r) s c k = star_iter total r k (List.length s) s c.
Proof. reflexivity. Qed.

Lemma star_iter_S (A : Type) (total : nat) (r : re) (k : jsstring -> caps -> option A)
    (n : nat) (s : jsstring) (c : caps) :
  star_iter total r k (S n) s c
  = match run total r s c
            (fun s' c' =>
               if Nat.ltb (List.length s') (List.length s)
               then star_iter total r k n s' c' else None) with
    | Some a => Some a
    | None => k s c
    end.
Proof. reflexivity. Qed.

Lemma firstn_matched (m s' : jsstring) :
  firstn (List.length (m ++ s') - List.length s') (m ++ s') = m.
Proof.
  rewrite length_app, Nat.add_sub, firstn_app, firstn_all, Nat.sub_diag.
  simpl. apply app_nil_r.
Qed.

(** Whatever the matcher accepts is a text the pattern denotes, taken from
    the front of the input, and the continuation has accepted what is
    left. *)
Lemma run_sound (A : Type) (total : nat) (r : re) :
  forall (s : jsstring) (c : caps) (k : jsstring -> caps -> option A) (a : A),
    run total r s c k = Some a ->
    exists m s' c', s = m ++ s' /\ derives r m c c' /\ k s' c' = Some a.
Proof.
  induction r as [|p|r1 IH1 r2 IH2|r1 IH1 r2 IH2|r1 IH1|i r1 IH1| |];
    intros s c k a H.
  - exists [], s, c. repeat split; [constructor | exact H].
  - simpl in H. destruct s as [|x s']; [discriminate H|].
    destruct (p x) eqn:E; [|discriminate H].
    exists [x], s', c. repeat split; [constructor; exact E | exact H].
  - simpl in H. apply IH1 in H. destruct H as [m1 [s1 [c1 [-> [D1 H]]]]].
    apply IH2 in H. destruct H as [m2 [s2 [c2 [-> [D2 H]]]]].
    exists (m1 ++ m2), s2, c2. rewrite app_assoc.
    repeat split; [econstructor; eassumption | exact H].
  - simpl in H. destruct (run total r1 s c k) as [a1|] eqn:E.
    + inversion H. subst a1. apply IH1 in E.
      destruct E as [m [s' [c' [-> [D E']]]]].
      exists m, s', c'. repeat split; [apply derives_Alt_l; exact D | exact E'].
    + apply IH2 in H. destruct H as [m [s' [c' [-> [D E']]]]].
      exists m, s', c'. repeat split; [apply derives_Alt_r; exact D | exact E'].
  - rewrite run_Star in H.
    remember (List.length s) as n eqn:En. clear En. revert s c H.
    induction n as [|n IHn]; intros s c H.
    + exists [], s, c. repeat split; [constructor | exact H].
    + rewrite star_iter_S in H.
      destruct (run total r1 s c
                  (fun s' c' =>
                     if Nat.ltb (List.length s') (List.length s)
                     then star_iter total r1 k n s' c' else None)) as [a1|] eqn:E.
      * inversion H. subst a1. apply IH1 in E.
        destruct E as [m1 [s1 [c1 [-> [D1 E1]]]]].
        destruct (Nat.ltb_spec (List.length s1) (List.length (m1 ++ s1))) as [L|L];
          [|discriminate E1].
        apply IHn in E1. destruct E1 as [m2 [s2 [c2 [-> [D2 E2]]]]].
        exists (m1 ++ m2), s2, c2. rewrite app_assoc.
        repeat split; [|exact E2].
        eapply derives_Star_cons; [exact D1 | | exact D2].
        intro X. subst m1. simpl in L. lia.
      * exists [], s, c. repeat split; [constructor | exact H].
  - simpl in H. apply IH1 in H. destruct H as [m [s' [c' [-> [D H]]]]].
    rewrite firstn_matched in H.
    exists m, s', ((i, m) :: c'). repeat split; [constructor; exact D | exact H].
  - simpl in H. destruct (Nat.eqb (List.length s) total); [|discriminate H].
    exists [], s, c. repeat split; [constructor | exact H].
  - simpl in H. destruct s; [|discriminate H].
    exists [], [], c. repeat split; [constructor | exact H].
Qed.

Lemma match_here_sound (total : nat) (r : re) (s : jsstring) (f : found) :
  match_here total r s = Some f ->
  s = matched f ++ rest f /\ derives r (matched f) [] (groups f).
Proof.
  unfold match_here. intro H. apply run_sound in H.
  destruct H as [m [s' [c' [-> [D H]]]]]. rewrite firstn_matched in H.
  inversion H. subst f. simpl. split; [reflexivity | exact D].
Qed.

Lemma search_from_sound (total : nat) (r : re) (s : jsstring) :
  forall skipped f,
    search_from total r s = Some (skipped, f) ->
    s = skipped ++ matched f ++ rest f /\ derives r (matched f) [] (groups f).
Proof.
  induction s as [|x s IH]; intros skipped f H; simpl in H.
  - destruct (match_here total r []) as [f0|] eqn:E; [|discriminate H].
    inversion H. subst. apply match_here_sound in E. exact E.
  - destruct (match_here total r (x :: s)) as [f0|] eqn:E.
    + inversion H. subst. apply match_here_sound in E. exact E.
    + destruct (search_from total r s) as [[sk f0]|] eqn:E2; [|discriminate H].
      inversion H. subst. destruct (IH sk f eq_refl) as [Hs D].
      split; [simpl; f_equal; exact Hs | exact D].
Qed.

Lemma exec_sound (r : re) (s : jsstring) (f : found) :
  exec r s = Some f ->
  (exists skipped, s = skipped ++ matched f ++ rest f) /\
  derives r (matched f) [] (groups f).
Proof.
  unfold exec. intro H.
  destruct (search_from (List.length s) r s) as [[sk f0]|] eqn:E; [|discriminate H].
  inversion H. subst f0. apply search_from_sound in E. destruct E as [Hs D].
  split; [exists sk; exact Hs | exact D].
Qed.

End Matcher.

(** ** Tactics *)

Ltac all_decimal :=
  repeat first [apply Forall_nil | apply Forall_cons; [assumption|]].

(** ** Invariants of the heuristic parser *)

Section HeuristicInvariants.

Import LLMService Regex RegexSpec.
Local Open Scope N_scope.

Lemma scan_line_chapters_inv (P : Chapter -> Prop) (st : scan_state) (line : jsstring) :
  (forall timeMatch title,
     exec timestamp_re line = Some timeMatch -> truthy title = true ->
     P {| time := normalizeTimestamp
                    match group 1 (groups timeMatch) with Some t => t | None => [] end;
          title := title |}) ->
  Forall P (st_chapters st) -> Forall P (st_chapters (scan_line st line)).
Proof.
  intros Hnew H. unfold scan_line.
  destruct (is_tldr_line line); [exact H|].
  destruct (is_chapters_line line); [exact H|].
  assert (G : Forall P match exec timestamp_re line with
                       | Some timeMatch =>
                         if foundChapters st then
                           let time := match group 1 (groups timeMatch) with
                                       | Some t => t
                                       | None => []
                                       end in
                           let title :=
                             trim (replace_one leading_punct_re []
                                     (replace_first line (matched timeMatch) [])) in
                           if truthy title
                           then st_chapters st
                                ++ [{| time := normalizeTimestamp time; title := title |}]
                           else st_chapters st
                         else st_chapters st
                       | None => st_chapters st
                       end).
  { destruct (exec timestamp_re line) as [timeMatch|]; [|exact H].
    destruct (foundChapters st); [|exact H]. cbn zeta.
    match goal with |- context [truthy ?t] => destruct (truthy t) eqn:T end;
      [|exact H].
    apply Forall_app. split; [exact H|]. constructor; [|constructor].
    apply Hnew; [reflexivity | exact T]. }
  match goal with |- context [if ?b then _ else _] => destruct b end; exact G.
Qed.

Lemma scan_lines_chapters_inv (P : Chapter -> Prop) :
  (forall line timeMatch title,
     exec timestamp_re line = Some timeMatch -> truthy title = true ->
     P {| time := normalizeTimestamp
                    match group 1 (groups timeMatch) with Some t => t | None => [] end;
          title := title |}) ->
  forall lines st,
    Forall P (st_chapters st) -> Forall P (st_chapters (fold_left scan_line lines st)).
Proof.
  intros Hnew lines. induction lines as [|l lines IH]; intros st H; simpl; [exact H|].
  apply IH. apply scan_line_chapters_inv; [apply Hnew | exact H].
Qed.

(** X13: whatever the response, the heuristic parser returns a summary
    that is not empty and chapters whose titles are not empty. *)
Theorem parseUnstructuredResponse_never_empty (responseText : jsstring) :
  truthy (tldr (parseUnstructuredResponse responseText)) = true /\
  Forall (fun ch => truthy (title ch) = true)
         (chapters (parseUnstructuredResponse responseText)).
Proof.
  unfold parseUnstructuredResponse. cbn [tldr chapters]. split.
  - destruct (truthy (st_tldr (scan_lines (response_lines responseText)))) eqn:E;
      [exact E | reflexivity].
  - unfold scan_lines. apply scan_lines_chapters_inv; [|constructor].
    intros line timeMatch t _ Ht. exact Ht.
Qed.

Lemma scan_line_unmarked (st : scan_state) (line : jsstring) :
  (is_chapters_line line = true -> is_tldr_line line = true) ->
  foundChapters st = false -> st_chapters st = [] ->
  foundChapters (scan_line st line) = false /\ st_chapters (scan_line st line) = [].
Proof.
  intros Hl Hf Hc. unfold scan_line.
  destruct (is_tldr_line line); [cbn [foundChapters st_chapters]; split; assumption|].
  destruct (is_chapters_line line); [specialize (Hl eq_refl); discriminate Hl|].
  rewrite Hf.
  destruct (exec timestamp_re line); cbn iota;
    match goal with |- context [if ?b then _ else _] => destruct b end;
    cbn [foundChapters st_chapters]; split; first [assumption | reflexivity].
Qed.

(** X14: when no line of the response announces the chapter list, that
    is, contains [chapters] or [capitulos] (with the accented i) without
    containing [tldr] or [resumen], the heuristic parser returns no
    chapter, whatever times the lines carry. *)
Theorem parseUnstructuredResponse_unmarked (responseText : jsstring) :
  (forall line, In line (response_lines responseText) ->
                is_chapters_line line = true -> is_tldr_line line = true) ->
  chapters (parseUnstructuredResponse responseText) = [].
Proof.
  intro H. unfold parseUnstructuredResponse, scan_lines. cbn [chapters].
  set (st0 := {| st_tldr := []; st_chapters := []; foundTldr := false;
                 foundChapters := false |}).
  assert (G : forall lines st,
             (forall line, In line lines ->
                           is_chapters_line line = true -> is_tldr_line line = true) ->
             foundChapters st = false -> st_chapters st = [] ->
             st_chapters (fold_left scan_line lines st) = []).
  { induction lines as [|l lines IH]; intros st Hl Hf Hc; simpl; [exact Hc|].
    destruct (scan_line_unmarked st l (Hl l (or_introl eq_refl)) Hf Hc) as [Hf' Hc'].
    apply IH; [|assumption|assumption].
    intros line Hin. apply Hl. right. exact Hin. }
  apply G; [exact H | reflexivity | reflexivity].
Qed.

Lemma decimal_cases (x : N) :
  is_decimal x ->
  x = 48 \/ x = 49 \/ x = 50 \/ x = 51 \/ x = 52 \/ x = 53 \/ x = 54 \/ x = 55
  \/ x = 56 \/ x = 57.
Proof. unfold is_decimal. lia. Qed.

Ltac each_decimal H :=
  apply decimal_cases in H;
  destruct H as [H|[H|[H|[H|[H|[H|[H|[H|[H|H]]]]]]]]]; rewrite H.

Lemma pad2_one_digit (x : N) : is_decimal x -> pad2 (parseInt [x] 0) = [48; x].
Proof. intro H. each_decimal H; vm_compute; reflexivity. Qed.

Lemma pad2_two_digits (x y : N) :
  is_decimal x -> is_decimal y -> pad2 (parseInt [x; y] 0) = [x; y].
Proof. intros H G. each_decimal H; each_decimal G; vm_compute; reflexivity. Qed.

Lemma digit_class (x : N) : (48 <=? x) && (x <=? 57) = true -> is_decimal x.
Proof.
  intro H. apply Bool.andb_true_iff in H. destruct H as [H1 H2].
  apply N.leb_le in H1. apply N.leb_le in H2. split; assumption.
Qed.

Ltac invert_derives :=
  repeat match goal with
         | H : derives (Cat _ _) _ _ _ |- _ => inversion H; subst; clear H
         | H : derives (Alt _ _) _ _ _ |- _ => inversion H; subst; clear H
         | H : derives (Grp _ _) _ _ _ |- _ => inversion H; subst; clear H
         | H : derives (Cls _) _ _ _ |- _ => inversion H; subst; clear H
         | H : derives Eps _ _ _ |- _ => inversion H; subst; clear H
         end.

(** What the time pattern denotes: one or two digits, a colon, two digits
    and possibly a colon and two digits more; group 1 is all of it. *)
Lemma timestamp_shape (m : jsstring) (c c' : caps) :
  derives timestamp_re m c c' ->
  group 1 c' = Some m /\
  exists field a b tail,
    m = field ++ 58 :: a :: b :: tail /\
    ((exists x, field = [x] /\ is_decimal x) \/
     (exists x y, field = [x; y] /\ is_decimal x /\ is_decimal y)) /\
    is_decimal a /\ is_decimal b /\
    (tail = [] \/ exists e f, tail = [58; e; f] /\ is_decimal e /\ is_decimal f).
Proof.
  unfold timestamp_re, Opt, Chr, digit. cbv zeta. intro H.
  invert_derives; (split; [reflexivity|]);
    repeat match goal with
           | H : (48 <=? _) && (_ <=? 57) = true |- _ => apply digit_class in H
           | H : (58 =? _) = true |- _ => apply N.eqb_eq in H; subst
           end; cbn [app].
  all: match goal with
       | |- exists _ _ _ _, [?x; ?y; 58; ?a; ?b; 58; ?e; ?f] = _ /\ _ =>
         exists [x; y], a, b, [58; e; f]
       | |- exists _ _ _ _, [?x; ?y; 58; ?a; ?b] = _ /\ _ =>
         exists [x; y], a, b, []
       | |- exists _ _ _ _, [?x; 58; ?a; ?b; 58; ?e; ?f] = _ /\ _ =>
         exists [x], a, b, [58; e; f]
       | |- exists _ _ _ _, [?x; 58; ?a; ?b] = _ /\ _ =>
         exists [x], a, b, []
       end.
  all: repeat split; eauto 10.
  all: unfold is_decimal in *; lia.
Qed.

Lemma normalizeTimestamp_shape (m : jsstring) (c c' : caps) :
  derives timestamp_re m c c' ->
  exists a b c d tail,
    normalizeTimestamp m = a :: b :: 58 :: c :: d :: tail /\
    is_decimal a /\ is_decimal b /\ is_decimal c /\ is_decimal d /\
    (tail = [] \/ exists e f, tail = [58; e; f] /\ is_decimal e /\ is_decimal f).
Proof.
  intro H. apply timestamp_shape in H.
  destruct H as [_ [field [a [b [tail [-> [Hf [Ha [Hb Ht]]]]]]]]].
  assert (Hab : ~ In 58 [a; b]).
  { apply decimal_no_colon. all_decimal. }
  assert (Hfield : ~ In 58 field /\
                   exists x y, pad2 (parseInt field 0) = [x; y]
                               /\ is_decimal x /\ is_decimal y).
  { destruct Hf as [[x [-> Hx]] | [x [y [-> [Hx Hy]]]]].
    - split; [apply decimal_no_colon; all_decimal|].
      exists 48, x. rewrite pad2_one_digit by assumption.
      repeat split; try apply Hx; unfold is_decimal; lia.
    - split; [apply decimal_no_colon; all_decimal|].
      exists x, y. rewrite pad2_two_digits by assumption.
      repeat split; try apply Hx; apply Hy. }
  destruct Hfield as [Hno [x [y [Ep [Hx Hy]]]]].
  unfold normalizeTimestamp. rewrite split_at_separator by exact Hno.
  destruct Ht as [-> | [e [f [-> [He Hf']]]]].
  - rewrite split_no_separator by exact Hab. cbv zeta.
    rewrite Ep, pad2_two_digits by assumption.
    exists x, y, a, b, []. repeat split; try apply Hx; try apply Hy;
      try apply Ha; try apply Hb. left. reflexivity.
  - change (a :: b :: [58; e; f]) with ([a; b] ++ 58 :: [e; f]).
    rewrite split_at_separator by exact Hab.
    rewrite split_no_separator
      by (apply decimal_no_colon; all_decimal).
    cbv zeta. rewrite Ep, !pad2_two_digits by assumption.
    exists x, y, a, b, [58; e; f]. repeat split; try apply Hx; try apply Hy;
      try apply Ha; try apply Hb. right. exists e, f. repeat split;
      try apply He; apply Hf'.
Qed.

Lemma normalizeTimestamp_canonical (a b c d : N) (tail : jsstring) :
  is_decimal a -> is_decimal b -> is_decimal c -> is_decimal d ->
  (tail = [] \/ exists e f, tail = [58; e; f] /\ is_decimal e /\ is_decimal f) ->
  normalizeTimestamp (a :: b :: 58 :: c :: d :: tail) = a :: b :: 58 :: c :: d :: tail.
Proof.
  intros Ha Hb Hc Hd Ht.
  assert (Hab : ~ In 58 [a; b]) by (apply decimal_no_colon; all_decimal).
  assert (Hcd : ~ In 58 [c; d]) by (apply decimal_no_colon; all_decimal).
  unfold normalizeTimestamp.
  change (a :: b :: 58 :: c :: d :: tail) with ([a; b] ++ 58 :: c :: d :: tail).
  rewrite split_at_separator by exact Hab.
  destruct Ht as [-> | [e [f [-> [He Hf]]]]].
  - rewrite split_no_separator by exact Hcd. cbv zeta.
    rewrite !pad2_two_digits by assumption. reflexivity.
  - change (c :: d :: [58; e; f]) with ([c; d] ++ 58 :: [e; f]).
    rewrite split_at_separator by exact Hcd.
    rewrite split_no_separator by (apply decimal_no_colon; all_decimal).
    cbv zeta. rewrite !pad2_two_digits by assumption. reflexivity.
Qed.

(** X15: every chapter the heuristic parser returns has a time of the
    form [MM:SS] or [HH:MM:SS], two decimal digits in each field, and
    [normalizeTimestamp] leaves such a time as it is. *)
Theorem parseUnstructuredResponse_times (responseText : jsstring) :
  Forall (fun ch =>
            (exists a b c d tail,
               time ch = a :: b :: 58 :: c :: d :: tail /\
               is_decimal a /\ is_decimal b /\ is_decimal c /\ is_decimal d /\
               (tail = [] \/
                exists e f, tail = [58; e; f] /\ is_decimal e /\ is_decimal f)) /\
            normalizeTimestamp (time ch) = time ch)
         (chapters (parseUnstructuredResponse responseText)).
Proof.
  unfold parseUnstructuredResponse, scan_lines. cbn [chapters].
  apply scan_lines_chapters_inv; [|constructor].
  intros line timeMatch t He _. cbn [time].
  apply exec_sound in He. destruct He as [_ D].
  destruct (timestamp_shape _ _ _ D) as [-> _].
  pose proof (normalizeTimestamp_shape _ _ _ D) as S.
  split; [exact S|].
  destruct S as [a [b [c [d [tail [-> [Ha [Hb [Hc [Hd Ht]]]]]]]]]].
  apply normalizeTimestamp_canonical; assumption.
Qed.

End HeuristicInvariants.

Lemma parseUnstructuredResponse_unmarked_witness :
  LLMService.chapters
    (LLMService.parseUnstructuredResponse
       (js "TLDR: a talk" ++ [10%N] ++ js "00:00 Intro" ++ [10%N] ++ js "02:30 Main topic"))
  = [].
Proof.
  apply (parseUnstructuredResponse_unmarked
           (js "TLDR: a talk" ++ [10%N] ++ js "00:00 Intro" ++ [10%N]
              ++ js "02:30 Main topic")).
  intros line Hin. vm_compute in Hin.
  destruct Hin as [<- | [<- | [<- | []]]]; vm_compute; intro H; discriminate H.
Defined.

(** ** Entity decoding on plain text *)

Section PlainText.

Import Regex RegexSpec YouTubeService.
Local Open Scope N_scope.

Lemma derives_Lit (l : jsstring) :
  forall m c c', derives (Lit l) m c c' -> m = l.
Proof.
  induction l as [|a l IH]; intros m c c' H; simpl in H.
  - inversion H. reflexivity.
  - inversion H as [| |r1 r2 m1 m2 c0 c1 c2 D1 D2| | | | | | |]. subst.
    inversion D1 as [|p x c0 Hp| | | | | | | |]. subst.
    apply N.eqb_eq in Hp. subst x. simpl. f_equal. eapply IH. exact D2.
Qed.

Lemma search_from_without (x : N) (total : nat) (r : re) (s : jsstring) :
  (forall m c', derives r m [] c' -> In x m) -> ~ In x s ->
  search_from total r s = None.
Proof.
  intros Hr Hs. destruct (search_from total r s) as [[sk f]|] eqn:E; [|reflexivity].
  apply search_from_sound in E. destruct E as [-> D]. exfalso. apply Hs.
  apply in_or_app. right. apply in_or_app. left. exact (Hr _ _ D).
Qed.

Lemma replace_all_without (x : N) (r : re) (f : found -> jsstring) (s : jsstring) :
  (forall m c', derives r m [] c' -> In x m) -> ~ In x s ->
  replace_all r f s = s.
Proof.
  intros Hr Hs. unfold replace_all. cbn [scan].
  rewrite (search_from_without x _ r s Hr Hs). reflexivity.
Qed.

Lemma literal_has_head (x : N) (l m : jsstring) (c c' : caps) :
  derives (Lit (x :: l)) m c c' -> In x m.
Proof. intro H. apply (derives_Lit (x :: l)) in H. subst m. left. reflexivity. Qed.

Lemma prefixed_has_head (x : N) (l : jsstring) (r : re) (m : jsstring) (c c' : caps) :
  derives (Cat (Lit (x :: l)) r) m c c' -> In x m.
Proof.
  intro H. inversion H as [| |r1 r2 m1 m2 c0 c1 c2 D1 D2| | | | | | |]. subst.
  apply (derives_Lit (x :: l)) in D1. subst m1. left. reflexivity.
Qed.

(** X16: a text without ampersand is left as it is by [decodeXMLEntities]. *)
Theorem decodeXMLEntities_plain (text : jsstring) :
  ~ In 38 text -> decodeXMLEntities text = text.
Proof.
  intro H. unfold decodeXMLEntities. cbv zeta.
  rewrite (replace_all_without 38 (Lit (js "&amp;")) _ text)
    by (assumption || (intros m c'; apply (literal_has_head 38 (js "amp;")))).
  rewrite (replace_all_without 38 (Lit (js "&lt;")) _ text)
    by (assumption || (intros m c'; apply (literal_has_head 38 (js "lt;")))).
  rewrite (replace_all_without 38 (Lit (js "&gt;")) _ text)
    by (assumption || (intros m c'; apply (literal_has_head 38 (js "gt;")))).
  rewrite (replace_all_without 38 (Lit (js "&quot;")) _ text)
    by (assumption || (intros m c'; apply (literal_has_head 38 (js "quot;")))).
  rewrite (replace_all_without 38 (Lit (js "&#39;")) _ text)
    by (assumption || (intros m c'; apply (literal_has_head 38 (js "#39;")))).
  rewrite (replace_all_without 38 _ _ text)
    by (assumption || (intros m c'; apply (prefixed_has_head 38 (js "#x")))).
  apply (replace_all_without 38); [|exact H].
  intros m c'. apply (prefixed_has_head 38 (js "#")).
Qed.

End PlainText.

Lemma decodeXMLEntities_plain_witness :
  YouTubeService.decodeXMLEntities (js "a < b") = js "a < b".
Proof.
  apply (decodeXMLEntities_plain (js "a < b")).
  vm_compute. intros [H|[H|[H|[H|[H|H]]]]]; try discriminate H; exact H.
Defined.

(** ** Video identifiers *)

Section Identifiers.

Import Regex RegexSpec YouTubeServiceB.
Local Open Scope N_scope.

(** A pattern that begins with [^] matches at the start of the input only. *)
Lemma match_here_anchored (total : nat) (r : re) (s : jsstring) :
  List.length s <> total -> match_here total (Cat Bol r) s = None.
Proof.
  intro H. unfold match_here. cbn [run].
  destruct (Nat.eqb_spec (List.length s) total) as [E|E]; [contradiction | reflexivity].
Qed.

Lemma search_from_anchored (total : nat) (r : re) (s : jsstring) :
  (List.length s < total)%nat -> search_from total (Cat Bol r) s = None.
Proof.
  induction s as [|x s IH]; intro H; cbn [search_from];
    rewrite match_here_anchored by lia; [reflexivity|].
  rewrite IH by (simpl in H; lia). reflexivity.
Qed.

Lemma exec_anchored (r : re) (s : jsstring) :
  exec (Cat Bol r) s
  = run (List.length s) r s []
      (fun s' c' =>
         Some {| matched := firstn (List.length s - List.length s') s;
                 groups := c'; rest := s' |}).
Proof.
  unfold exec. destruct s as [|x s].
  - cbn [search_from]. unfold match_here. cbn [run List.length Nat.eqb].
    destruct (run 0 r [] [] _); reflexivity.
  - cbn [search_from]. unfold match_here. cbn [run].
    rewrite Nat.eqb_refl.
    destruct (run (List.length (x :: s)) r (x :: s) [] _) as [f|]; [reflexivity|].
    rewrite search_from_anchored by (simpl; lia). reflexivity.
Qed.

Lemma derives_class_run (p : N -> bool) (m : jsstring) (c c' : caps) :
  derives (Star (Cls p)) m c c' -> forallb p m = true.
Proof.
  intro H. remember (Star (Cls p)) as r eqn:Er.
  induction H as [| | | | | |r0 m1 m2 c c1 c2 D1 IH1 Hne D2 IH2| | |];
    try discriminate Er; [reflexivity|].
  inversion Er. subst r0. rewrite forallb_app. rewrite (IH2 eq_refl).
  inversion D1 as [|p0 x c0 Hp| | | | | | | |]. subst. simpl. rewrite Hp. reflexivity.
Qed.

(** A greedy run over a class takes the whole of a text in the class when
    the continuation accepts the end of it. *)
Lemma star_class_all (A : Type) (total : nat) (p : N -> bool)
    (k : jsstring -> caps -> option A) (c : caps) (a : A) :
  forall (s tail : jsstring) (n : nat),
    forallb p s = true ->
    match tail with [] => True | x :: _ => p x = false end ->
    k tail c = Some a ->
    (List.length (s ++ tail) <= n)%nat ->
    star_iter total (Cls p) k n (s ++ tail) c = Some a.
Proof.
  induction s as [|x s IH]; intros tail n Hs Ht Hk Hn.
  - simpl. destruct n as [|n]; [exact Hk|]. rewrite star_iter_S.
    destruct tail as [|y tail]; cbn [run]; [exact Hk|]. rewrite Ht. exact Hk.
  - simpl in Hs. apply Bool.andb_true_iff in Hs. destruct Hs as [Hx Hs].
    destruct n as [|n]; [simpl in Hn; lia|].
    rewrite star_iter_S. cbn [app run]. rewrite Hx.
    replace (Nat.ltb (List.length (s ++ tail)) (List.length (x :: s ++ tail))) with true
      by (symmetry; apply Nat.ltb_lt; simpl; lia).
    rewrite (IH tail n Hs Ht Hk) by (simpl in Hn; lia). reflexivity.
Qed.

Lemma star_class_whole (A : Type) (total : nat) (p : N -> bool)
    (k : jsstring -> caps -> option A) (c : caps) (a : A) (s : jsstring) (n : nat) :
  forallb p s = true -> k [] c = Some a -> (List.length s <= n)%nat ->
  star_iter total (Cls p) k n s c = Some a.
Proof.
  intros Hs Hk Hn. rewrite <- (app_nil_r s).
  apply star_class_all; [exact Hs | exact I | exact Hk | rewrite app_nil_r; exact Hn].
Qed.

Lemma run_Cat (A : Type) (total : nat) (r1 r2 : re) (s : jsstring) (c : caps)
    (k : jsstring -> caps -> option A) :
  run total (Cat r1 r2) s c k = run total r1 s c (fun s' c' => run total r2 s' c' k).
Proof. reflexivity. Qed.

Lemma run_Cls_cons (A : Type) (total : nat) (p : N -> bool) (x : N) (s : jsstring)
    (c : caps) (k : jsstring -> caps -> option A) :
  run total (Cls p) (x :: s) c k = if p x then k s c else None.
Proof. reflexivity. Qed.

Lemma id_class (c : N) :
  ((97 <=? c) && (c <=? 122)) || ((65 <=? c) && (c <=? 90))
  || ((48 <=? c) && (c <=? 57)) || (c =? 95) || (c =? 45) = true
  <-> (97 <= c <= 122 \/ 65 <= c <= 90 \/ 48 <= c <= 57 \/ c = 95 \/ c = 45).
Proof.
  rewrite !Bool.orb_true_iff, !Bool.andb_true_iff, !N.leb_le, !N.eqb_eq. tauto.
Qed.

Lemma isValidVideoId_sound (videoId : jsstring) :
  isValidVideoId videoId = true ->
  List.length videoId = 11%nat /\
  Forall (fun c => 97 <= c <= 122 \/ 65 <= c <= 90 \/ 48 <= c <= 57
                   \/ c = 95 \/ c = 45) videoId.
Proof.
  unfold isValidVideoId, test, id_re, Plus. rewrite exec_anchored.
  rewrite Bool.andb_true_iff, Z.eqb_eq. unfold length.
  set (p := fun c : N => ((97 <=? c) && (c <=? 122)) || ((65 <=? c) && (c <=? 90))
                         || ((48 <=? c) && (c <=? 57)) || (c =? 95) || (c =? 45)).
  rewrite run_Cat.
  intros [Hl H]. split; [lia|].
  match type of H with
  | match ?r with Some _ => true | None => false end = true =>
    destruct r as [f|] eqn:E; [|discriminate H]
  end.
  apply run_sound in E. destruct E as [m [s' [c' [-> [D E]]]]].
  destruct s' as [|y s']; [|discriminate E]. rewrite app_nil_r.
  inversion D as [| |r1 r2 m1 m2 c0 c1 c2 D1 D2| | | | | | |]. subst.
  inversion D1 as [|p0 x c0 Hp| | | | | | | |]. subst.
  apply derives_class_run in D2.
  apply Forall_forall. intros y [<- | Hy]; apply id_class.
  - exact Hp.
  - rewrite forallb_forall in D2. exact (D2 y Hy).
Qed.

(** X17: [isValidVideoId] accepts exactly the texts of eleven code units
    that are all ASCII letters, digits, underscores or hyphens. *)
Theorem isValidVideoId_spec (videoId : jsstring) :
  isValidVideoId videoId = true
  <-> List.length videoId = 11%nat /\
      Forall (fun c => 97 <= c <= 122 \/ 65 <= c <= 90 \/ 48 <= c <= 57
                       \/ c = 95 \/ c = 45) videoId.
Proof.
  split; [apply isValidVideoId_sound|].
  unfold isValidVideoId, test, id_re, Plus. rewrite exec_anchored.
  rewrite Bool.andb_true_iff, Z.eqb_eq. unfold length.
  set (p := fun c : N => ((97 <=? c) && (c <=? 122)) || ((65 <=? c) && (c <=? 90))
                         || ((48 <=? c) && (c <=? 57)) || (c =? 95) || (c =? 45)).
  intros [Hl H]. split; [lia|].
  destruct videoId as [|x s]; [discriminate Hl|].
  inversion H as [|? ? Hx Hs]. subst.
  apply id_class in Hx. fold (p x) in Hx.
  rewrite run_Cat, run_Cat, run_Cls_cons, Hx, run_Star.
  rewrite (star_class_whole found _ p _ []
             {| matched := firstn (List.length (x :: s) - 0) (x :: s);
                groups := []; rest := [] |} s).
  - reflexivity.
  - apply forallb_forall. intros y Hy. rewrite Forall_forall in Hs.
    apply id_class. exact (Hs y Hy).
  - reflexivity.
  - lia.
Qed.

End Identifiers.

(** ** Retrying an acquisition that cannot succeed *)

Section RetriedAcquisition.

Import Eff Retry Transcript Acquisition.
Local Open Scope N_scope.

Variables (F : Type) (mul min : F -> F -> F) (of_int : Z -> F).

(** An operation that throws the same value whenever it is invoked, and
    does nothing else, is retried to the end: every wait is spent. *)
Lemma loop_constant_failure (W T : Type) (sleep : F -> W -> W) (operation : M W T)
    (e : value) (opts : RetryOptions F) (mult maxd : F) :
  (forall w, operation w = (Throw e, w)) ->
  forall (k : nat) (attempt : Z) (d : F) (lastError : option value) (w : W),
    (attempt + Z.of_nat k = maxRetries opts)%Z ->
    exists delays,
      List.length delays = k /\
      (forall first rest, delays = first :: rest -> first = d) /\
      loop mul min sleep operation opts mult maxd (S k) attempt d lastError w
      = (Throw (as_Error e), fold_left (fun w' ms => sleep ms w') delays w).
Proof.
  intro Hop. induction k as [|k IH]; intros attempt d lastError w Ha.
  - exists []. rewrite loop_step, Hop.
    replace (attempt =? maxRetries opts)%Z with true by (symmetry; apply Z.eqb_eq; lia).
    split; [reflexivity|]. split; [|reflexivity].
    intros first rest Hw. discriminate Hw.
  - destruct (IH (attempt + 1)%Z (min (mul d mult) maxd) (Some (as_Error e)) (sleep d w))
      as [delays [Hl [_ Hr]]]; [lia|].
    exists (d :: delays). split; [simpl; rewrite Hl; reflexivity|].
    split; [intros first rest Hw; inversion Hw; reflexivity|].
    assert (E : loop mul min sleep operation opts mult maxd (S (S k)) attempt d
                  lastError w
                = loop mul min sleep operation opts mult maxd (S k) (attempt + 1)%Z
                    (min (mul d mult) maxd) (Some (as_Error e)) (sleep d w)).
    { rewrite loop_step, Hop.
      replace (attempt =? maxRetries opts)%Z with false
        by (symmetry; apply Z.eqb_neq; lia).
      reflexivity. }
    rewrite E, Hr. reflexivity.
Qed.

Variable W : Type.
Variable sleep : F -> W -> W.
Variables s1 s2 s3 : strategy F W.

(** X18: wrapped in [retryOperation] as in the route, the later revision's
    [getTranscript] on an identifier that [isValidVideoId] rejects throws
    the same error at every attempt: all [maxRetries] waits are spent, the
    first of them [delay] long, no acquisition method is ever called, and
    the error is then rethrown. *)
Theorem retried_invalid_identifier (videoId : jsstring) (langs : list jsstring)
    (opts : RetryOptions F) (w : W) :
  (0 <= maxRetries opts)%Z ->
  YouTubeServiceB.isValidVideoId videoId = false ->
  exists delays,
    List.length delays = Z.to_nat (maxRetries opts) /\
    (forall first rest, delays = first :: rest -> first = delay opts) /\
    retryOperation mul min of_int
      (fun ms (wl : W * list method) => (sleep ms (fst wl), snd wl))
      (getTranscriptB_observed s1 s2 s3 videoId langs) opts (w, [])
    = (Throw (VError (js "Invalid YouTube video ID: " ++ videoId)),
       (fold_left (fun w' ms => sleep ms w') delays w, [])).
Proof.
  intros Hm Hid. unfold retryOperation. cbv zeta.
  replace (Z.to_nat (maxRetries opts + 1)) with (S (Z.to_nat (maxRetries opts))) by lia.
  destruct (loop_constant_failure (W * list method) (TranscriptResult F)
              (fun ms (wl : W * list method) => (sleep ms (fst wl), snd wl))
              (getTranscriptB_observed s1 s2 s3 videoId langs)
              (VError (js "Invalid YouTube video ID: " ++ videoId)) opts
              (match backoffMultiplier opts with Some m => m | None => of_int 2 end)
              (match maxDelay opts with Some m => m | None => of_int 30000 end))
    with (k := Z.to_nat (maxRetries opts)) (attempt := 0%Z) (d := delay opts)
         (lastError := @None value) (w := (w, @nil method))
    as [delays [Hl [Hf Hr]]].
  - intro wl. unfold getTranscriptB_observed, YouTubeServiceB.getTranscript.
    rewrite Hid. reflexivity.
  - lia.
  - exists delays. split; [exact Hl|]. split; [exact Hf|].
    rewrite Hr. f_equal. clear. generalize w. 
    induction delays as [|d delays IH]; intro w0; [reflexivity|].
    simpl. apply IH.
Qed.

End RetriedAcquisition.

Lemma retried_invalid_identifier_witness :
  exists delays,
    List.length delays = 3%nat /\
    (forall first rest, delays = first :: rest -> first = 1000%Z) /\
    Retry.retryOperation Z.mul Z.min (fun z => z)
      (fun ms (wl : list Z * list Transcript.method) => (fst wl ++ [ms], snd wl))
      (@Acquisition.getTranscriptB_observed Z (list Z)
         (fun _ _ => Eff.throw (Eff.VError (js "unavailable")))
         (fun _ _ => Eff.throw (Eff.VError (js "unavailable")))
         (fun _ _ => Eff.throw (Eff.VError (js "unavailable")))
         (js "short") [js "ru"; js "en"])
      {| Retry.maxRetries := 3; Retry.delay := 1000%Z;
         Retry.backoffMultiplier := None; Retry.maxDelay := None |} ([], [])
    = (Eff.Throw (Eff.VError (js "Invalid YouTube video ID: " ++ js "short")),
       (fold_left (fun w' ms => w' ++ [ms]) delays [], [])).
Proof.
  apply (retried_invalid_identifier Z Z.mul Z.min (fun z => z) (list Z)
           (fun ms w => w ++ [ms])
           (fun _ _ => Eff.throw (Eff.VError (js "unavailable")))
           (fun _ _ => Eff.throw (Eff.VError (js "unavailable")))
           (fun _ _ => Eff.throw (Eff.VError (js "unavailable")))
           (js "short") [js "ru"; js "en"]
           {| Retry.maxRetries := 3; Retry.delay := 1000%Z;
              Retry.backoffMultiplier := None; Retry.maxDelay := None |} []).
  - simpl. lia.
  - vm_compute. reflexivity.
Defined.

(** ** Reading back a caption document *)

Section CaptionDocument.

Import Eff Regex RegexSpec Transcript YouTubeServiceB.
Local Open Scope N_scope.

Lemma run_Alt (A : Type) (total : nat) (r1 r2 : re) (s : jsstring) (c : caps)
    (k : jsstring -> caps -> option A) :
  run total (Alt r1 r2) s c k
  = match run total r1 s c k with
    | Some a => Some a
    | None => run total r2 s c k
    end.
Proof. reflexivity. Qed.

Lemma run_Grp (A : Type) (total : nat) (i : nat) (r : re) (s : jsstring) (c : caps)
    (k : jsstring -> caps -> option A) :
  run total (Grp i r) s c k
  = run total r s c
      (fun s' c' => k s' ((i, firstn (List.length s - List.length s') s) :: c')).
Proof. reflexivity. Qed.

Lemma run_Lit_app (A : Type) (total : nat) (l : jsstring) :
  forall (s : jsstring) (c : caps) (k : jsstring -> caps -> option A),
    run total (Lit l) (l ++ s) c k = k s c.
Proof.
  induction l as [|a l IH]; intros s c k; [reflexivity|].
  cbn [Lit app]. rewrite run_Cat. unfold Chr. rewrite run_Cls_cons, N.eqb_refl.
  apply IH.
Qed.

Lemma run_Lit_fail (A : Type) (total : nat) (l : jsstring) :
  forall (s : jsstring) (c : caps) (k : jsstring -> caps -> option A),
    startsWith s l = false -> run total (Lit l) s c k = None.
Proof.
  induction l as [|a l IH]; intros s c k H.
  - destruct s; discriminate H.
  - cbn [Lit]. rewrite run_Cat. destruct s as [|b s]; [reflexivity|].
    unfold Chr. rewrite run_Cls_cons. cbn [startsWith] in H.
    destruct (a =? b); [|reflexivity]. apply IH. exact H.
Qed.

Lemma startsWith_longer (s l1 l2 : jsstring) :
  startsWith s l1 = false -> startsWith s (l1 ++ l2) = false.
Proof.
  revert s. induction l1 as [|a l1 IH]; intros s H.
  - destruct s; discriminate H.
  - destruct s as [|b s]; [reflexivity|]. cbn [startsWith app] in *.
    destruct (a =? b); [|reflexivity]. apply IH. exact H.
Qed.

(** A non-empty greedy run over a class, not captured and captured, and a
    possibly empty captured one: each takes all of a text in the class
    that is followed by a code unit outside it or by the end. *)
Lemma stops_spec (p : N -> bool) (tail : jsstring) :
  stops p tail = true -> match tail with [] => True | x :: _ => p x = false end.
Proof.
  destruct tail as [|y tail]; [intros _; exact I|].
  simpl. intro H. apply Bool.negb_true_iff in H. exact H.
Qed.

Lemma run_plus_class (A : Type) (total : nat) (p : N -> bool) (x : N)
    (s tail : jsstring) (c : caps) (k : jsstring -> caps -> option A) (a : A) :
  p x = true -> forallb p s = true -> stops p tail = true ->
  k tail c = Some a ->
  run total (Cat (Cls p) (Star (Cls p))) (x :: s ++ tail) c k = Some a.
Proof.
  intros Hx Hs Ht Hk. rewrite run_Cat, run_Cls_cons, Hx, run_Star.
  apply star_class_all; [exact Hs | apply stops_spec; exact Ht | exact Hk | apply Nat.le_refl].
Qed.

Lemma run_plus_single (A : Type) (total : nat) (p : N -> bool) (x : N)
    (tail : jsstring) (c : caps) (k : jsstring -> caps -> option A) (a : A) :
  p x = true -> stops p tail = true -> k tail c = Some a ->
  run total (Cat (Cls p) (Star (Cls p))) (x :: tail) c k = Some a.
Proof.
  intros Hx Ht Hk. apply (run_plus_class A total p x [] tail); try assumption.
  reflexivity.
Qed.

Lemma run_plus_group (A : Type) (total : nat) (i : nat) (p : N -> bool) (x : N)
    (s tail : jsstring) (c : caps) (k : jsstring -> caps -> option A) (a : A) :
  p x = true -> forallb p s = true -> stops p tail = true ->
  k tail ((i, x :: s) :: c) = Some a ->
  run total (Grp i (Cat (Cls p) (Star (Cls p)))) (x :: s ++ tail) c k = Some a.
Proof.
  intros Hx Hs Ht Hk. rewrite run_Grp.
  apply run_plus_class; try assumption.
  change (x :: s ++ tail) with ((x :: s) ++ tail). rewrite firstn_matched. exact Hk.
Qed.

Lemma run_star_group (A : Type) (total : nat) (i : nat) (p : N -> bool)
    (s tail : jsstring) (c : caps) (k : jsstring -> caps -> option A) (a : A) :
  forallb p s = true -> stops p tail = true ->
  k tail ((i, s) :: c) = Some a ->
  run total (Grp i (Star (Cls p))) (s ++ tail) c k = Some a.
Proof.
  intros Hs Ht Hk. rewrite run_Grp, run_Star.
  apply star_class_all; [exact Hs | apply stops_spec; exact Ht | | apply Nat.le_refl].
  rewrite firstn_matched. exact Hk.
Qed.

(** One [text] element with its two attributes. *)
Let element (start dur body : jsstring) : jsstring :=
  js "<text start=" ++ 34 :: start ++ 34 :: js " dur=" ++ 34 :: dur
    ++ 34 :: js ">" ++ body ++ js "</text>".

Let numeric (c : N) : bool := ((48 <=? c) && (c <=? 57)) || (c =? 46).

Lemma element_matches (total : nat) (start dur body fol : jsstring) :
  start <> [] -> dur <> [] ->
  forallb numeric start = true -> forallb numeric dur = true -> ~ In 60 body ->
  exists m,
    match_here total textRegex (element start dur body ++ fol)
    = Some {| matched := 60 :: m; groups := [(3%nat, body); (2%nat, dur); (1%nat, start)];
              rest := fol |}.
Proof.
  intros Hs Hd Ns Nd Hb.
  destruct start as [|x start]; [contradiction|].
  destruct dur as [|y dur]; [contradiction|].
  cbn [forallb] in Ns, Nd. apply Bool.andb_true_iff in Ns, Nd.
  destruct Ns as [Nx Ns]. destruct Nd as [Ny Nd].
  assert (Nb : forallb (fun c => negb (c =? 60)) body = true).
  { apply forallb_forall. intros c Hc. apply Bool.negb_true_iff, N.eqb_neq.
    intro E. subst c. contradiction. }
  set (m := js "text" ++ 32 :: js "start=" ++ 34 :: (x :: start) ++ 34 :: 32 :: js "dur="
              ++ 34 :: (y :: dur) ++ 34 :: 62 :: body ++ js "</text>").
  exists m.
  set (whole := js "<text" ++ 32 :: js "start=" ++ 34 :: x :: start ++ 34 :: 32 :: js "dur="
                  ++ 34 :: y :: dur ++ 34 :: 62 :: body ++ js "</text>" ++ fol).
  assert (W : whole = (60 :: m) ++ fol).
  { unfold whole, m. change (js "<text") with (60 :: js "text").
    repeat (rewrite <- app_assoc || rewrite <- app_comm_cons). reflexivity. }
  assert (E : element (x :: start) (y :: dur) body ++ fol = whole).
  { unfold whole, element.
    change (js "<text start=") with (js "<text" ++ 32 :: js "start=").
    change (js " dur=") with (32 :: js "dur="). change (js ">") with [62].
    repeat (rewrite <- app_assoc || rewrite <- app_comm_cons). reflexivity. }
  rewrite E. unfold match_here.
  set (K := fun (s' : jsstring) (c' : caps) =>
              Some {| matched := firstn (List.length whole - List.length s') whole;
                      groups := c'; rest := s' |}).
  assert (HK : K fol [(3%nat, body); (2%nat, y :: dur); (1%nat, x :: start)]
               = Some {| matched := 60 :: m;
                         groups := [(3%nat, body); (2%nat, y :: dur); (1%nat, x :: start)];
                         rest := fol |}).
  { unfold K. rewrite W, firstn_matched. reflexivity. }
  revert HK. generalize (K : jsstring -> caps -> option found).
  intros k Hk. unfold whole, textRegex, number_attr, Plus, Opt, space, not_chr.
  rewrite run_Cat, run_Lit_app. cbv beta.
  rewrite run_Cat. apply run_plus_single; [reflexivity | reflexivity |]. cbv beta.
  rewrite run_Cat, run_Lit_app. cbv beta.
  rewrite run_Cat, run_Cat. unfold Chr at 1. rewrite run_Cls_cons. cbn [N.eqb Pos.eqb].
  rewrite run_Cat. apply run_plus_group; [exact Nx | exact Ns | reflexivity |]. cbv beta.
  unfold Chr at 1. rewrite run_Cls_cons. cbn [N.eqb Pos.eqb].
  rewrite run_Cat. apply run_plus_single; [reflexivity | reflexivity |]. cbv beta.
  rewrite run_Cat, run_Lit_app. cbv beta.
  rewrite run_Cat, run_Cat. unfold Chr at 1. rewrite run_Cls_cons. cbn [N.eqb Pos.eqb].
  rewrite run_Cat. apply run_plus_group; [exact Ny | exact Nd | reflexivity |]. cbv beta.
  unfold Chr at 1. rewrite run_Cls_cons. cbn [N.eqb Pos.eqb].
  rewrite run_Cat, run_Alt.
  rewrite run_Cat, run_Cat, run_Cls_cons.
  change (is_space 62) with false. cbn iota.
  change (run total Eps ?s ?c ?k) with (k s c). cbv beta.
  rewrite run_Cat. unfold Chr at 1. rewrite run_Cls_cons. cbn [N.eqb Pos.eqb].
  rewrite run_Cat.
  apply run_star_group; [exact Nb | reflexivity |]. cbv beta.
  rewrite run_Lit_app. exact Hk.
Qed.

Lemma textRegex_fails (total : nat) (s : jsstring) :
  startsWith s (js "<te") = false -> match_here total textRegex s = None.
Proof.
  intro H. unfold match_here, textRegex. rewrite run_Cat. apply run_Lit_fail.
  change (js "<text") with (js "<te" ++ js "xt"). apply startsWith_longer. exact H.
Qed.

Lemma startsWith_gap (x : N) (gap fol : jsstring) :
  startsWith (x :: gap) (js "<te") = false ->
  stops (fun c => negb (c =? 60)) fol = true ->
  startsWith (x :: gap ++ fol) (js "<te") = false.
Proof.
  change (js "<te") with [60; 116; 101]. intros H Hf.
  destruct gap as [|y [|z gap]]; cbn [app startsWith] in *.
  - destruct fol as [|f [|g fol]]; cbn [startsWith].
    + apply Bool.andb_false_r.
    + simpl in Hf. apply Bool.negb_true_iff, Bool.negb_false_iff, N.eqb_eq in Hf. subst f.
      destruct (60 =? x); reflexivity.
    + simpl in Hf. apply Bool.negb_true_iff, Bool.negb_false_iff, N.eqb_eq in Hf. subst f.
      destruct (60 =? x); reflexivity.
  - destruct fol as [|f fol]; cbn [startsWith].
    + destruct (60 =? x), (116 =? y); reflexivity.
    + simpl in Hf. apply Bool.negb_true_iff, Bool.negb_false_iff, N.eqb_eq in Hf. subst f.
      destruct (60 =? x), (116 =? y); reflexivity.
  - assert (T : forall s, startsWith s [] = true) by (intro s0; destruct s0; reflexivity).
    rewrite T in *. exact H.
Qed.

(** Text without [<te] before an element, or before the end, is skipped. *)
Lemma search_from_gap (total : nat) (gap fol : jsstring) :
  includes gap (js "<te") = false ->
  stops (fun c => negb (c =? 60)) fol = true ->
  search_from total textRegex (gap ++ fol)
  = match search_from total textRegex fol with
    | Some (skipped, f) => Some (gap ++ skipped, f)
    | None => None
    end.
Proof.
  intros H Hf. induction gap as [|x gap IH].
  - simpl. destruct (search_from total textRegex fol) as [[sk f]|]; reflexivity.
  - cbn [includes] in H. apply Bool.orb_false_iff in H. destruct H as [H1 H2].
    cbn [app search_from].
    rewrite textRegex_fails by (apply startsWith_gap; assumption).
    rewrite (IH H2).
    destruct (search_from total textRegex fol) as [[sk f]|]; reflexivity.
Qed.

Let item : Type := (jsstring * jsstring * jsstring * jsstring)%type.

Let document (items : list item) (trailer : jsstring) : jsstring :=
  flat_map (fun it : item =>
              let '(gap, start, dur, body) := it in gap ++ element start dur body)
           items ++ trailer.

Let well_formed (it : item) : Prop :=
  let '(gap, start, dur, body) := it in
  includes gap (js "<te") = false /\ start <> [] /\ dur <> [] /\
  forallb numeric start = true /\ forallb numeric dur = true /\ ~ In 60 body.

Lemma scan_document (total : nat) (trailer : jsstring) :
  includes trailer (js "<te") = false ->
  forall (items : list item) (fuel : nat),
    (List.length items <= fuel)%nat -> Forall well_formed items ->
    List.map groups (List.map snd (fst (scan fuel total textRegex (document items trailer))))
    = List.map (fun it : item =>
                  let '(_, start, dur, body) := it in
                  [(3%nat, body); (2%nat, dur); (1%nat, start)]) items.
Proof.
  intros Ht. induction items as [|[[[gap start] dur] body] items IH]; intros fuel Hf Hw.
  - unfold document. cbn [flat_map app List.map].
    destruct fuel as [|fuel]; [reflexivity|]. cbn [scan].
    pose proof (search_from_gap total trailer [] Ht eq_refl) as G.
    rewrite app_nil_r in G. rewrite G.
    cbn [search_from]. rewrite textRegex_fails by reflexivity. reflexivity.
  - destruct fuel as [|fuel]; [simpl in Hf; lia|].
    pose proof (Forall_inv Hw) as Hit. pose proof (Forall_inv_tail Hw) as Hw'.
    destruct Hit as [Hg [Hs [Hd [Ns [Nd Hb]]]]].
    match goal with
    | |- context [document ?l trailer] =>
      assert (E : document l trailer
                  = gap ++ element start dur body ++ document items trailer)
    end.
    { unfold document. cbn [flat_map]. rewrite <- !app_assoc. reflexivity. }
    rewrite E. cbn [scan].
    destruct (element_matches total start dur body (document items trailer)
                Hs Hd Ns Nd Hb) as [m Hm].
    rewrite (search_from_gap total gap (element start dur body ++ document items trailer)
               Hg eq_refl).
    assert (S1 : search_from total textRegex (element start dur body ++ document items trailer)
                 = Some ([], {| matched := 60 :: m;
                               groups := [(3%nat, body); (2%nat, dur); (1%nat, start)];
                               rest := document items trailer |})).
    { destruct (element start dur body ++ document items trailer);
        cbn [search_from]; rewrite Hm; reflexivity. }
    rewrite S1. cbn [matched rest].
    specialize (IH fuel ltac:(simpl in Hf; lia) Hw').
    destruct (scan fuel total textRegex (document items trailer)) as [ms tail].
    cbn [fst List.map snd groups]. f_equal. exact IH.
Qed.

Lemma document_length (trailer : jsstring) (items : list item) :
  (List.length items <= List.length (document items trailer))%nat.
Proof.
  induction items as [|[[[gap start] dur] body] items IH]; [simpl; lia|].
  match goal with
  | |- context [document ?l trailer] =>
    assert (E : document l trailer
                = gap ++ element start dur body ++ document items trailer)
  end.
  { unfold document. cbn [flat_map]. rewrite <- !app_assoc. reflexivity. }
  rewrite E, !length_app. unfold element.
  change (js "<text start=") with (60 :: tl (js "<text start=")).
  cbn [app List.length]. lia.
Qed.

Variable F : Type.
Variable parseFloat : jsstring -> F.
Variable add : F -> F -> F.

(** The segments read off a document, one for each element. *)
Lemma segments_of_document
    (items : list (jsstring * jsstring * jsstring * jsstring)) (trailer : jsstring) :
  Forall (fun it : jsstring * jsstring * jsstring * jsstring =>
            let '(gap, start, dur, body) := it in
            includes gap (js "<te") = false /\ start <> [] /\ dur <> [] /\
            forallb (fun c => ((48 <=? c) && (c <=? 57)) || (c =? 46)) start = true /\
            forallb (fun c => ((48 <=? c) && (c <=? 57)) || (c =? 46)) dur = true /\
            ~ In 60 body) items ->
  includes trailer (js "<te") = false ->
  List.map (segment_of_match parseFloat add)
    (match_all textRegex
       (flat_map (fun it : jsstring * jsstring * jsstring * jsstring =>
                    let '(gap, start, dur, body) := it in
                    gap ++ js "<text start=" ++ 34 :: start ++ 34 :: js " dur=" ++ 34 :: dur
                      ++ 34 :: js ">" ++ body ++ js "</text>") items ++ trailer))
  = List.map (fun it : jsstring * jsstring * jsstring * jsstring =>
                let '(_, start, dur, body) := it in
                {| seg_start := parseFloat start;
                   seg_end := add (parseFloat start) (parseFloat dur);
                   seg_text := decodeXMLEntities body |}) items.
Proof.
  intros Hw Ht.
  change (flat_map _ items ++ trailer) with (document items trailer).
  unfold match_all.
  set (h := fun caps : caps =>
              {| seg_start :=
                   parseFloat match group 1 caps with Some g => g | None => [] end;
                 seg_end :=
                   add (parseFloat match group 1 caps with Some g => g | None => [] end)
                       (parseFloat match group 2 caps with Some g => g | None => [] end);
                 seg_text :=
                   decodeXMLEntities
                     match group 3 caps with Some g => g | None => [] end |}).
  rewrite (map_ext (segment_of_match parseFloat add) (fun m => h (groups m)))
    by (intro m; reflexivity).
  rewrite <- (map_map groups h).
  rewrite (scan_document _ trailer Ht items); [| | exact Hw].
  - rewrite map_map. apply map_ext. intros [[[gap start] dur] body]. reflexivity.
  - pose proof (document_length trailer items). lia.
Qed.

(** X19: a caption document made of [text] elements, each carrying a
    [start] and a [dur] attribute of digits and dots in double quotes, in
    this order and separated by one space, and a body without [<], with
    any text that does not contain [<te] before, between and after them,
    is read back element by element: one segment for each, starting at the
    value of [start], ending at the sum with the value of [dur], with the
    decoded body as text; the full text is these joined by spaces and
    trimmed. *)
Theorem parseTranscriptXML_reads_document
    (items : list (jsstring * jsstring * jsstring * jsstring)) (trailer : jsstring) :
  items <> [] ->
  Forall (fun it : jsstring * jsstring * jsstring * jsstring =>
            let '(gap, start, dur, body) := it in
            includes gap (js "<te") = false /\ start <> [] /\ dur <> [] /\
            forallb (fun c => ((48 <=? c) && (c <=? 57)) || (c =? 46)) start = true /\
            forallb (fun c => ((48 <=? c) && (c <=? 57)) || (c =? 46)) dur = true /\
            ~ In 60 body) items ->
  includes trailer (js "<te") = false ->
  let segs :=
    List.map (fun it : jsstring * jsstring * jsstring * jsstring =>
                let '(_, start, dur, body) := it in
                {| seg_start := parseFloat start;
                   seg_end := add (parseFloat start) (parseFloat dur);
                   seg_text := decodeXMLEntities body |}) items in
  parseTranscriptXML parseFloat add
    (flat_map (fun it : jsstring * jsstring * jsstring * jsstring =>
                 let '(gap, start, dur, body) := it in
                 gap ++ js "<text start=" ++ 34 :: start ++ 34 :: js " dur=" ++ 34 :: dur
                   ++ 34 :: js ">" ++ body ++ js "</text>") items ++ trailer)
  = Ok {| text := trim (join (js " ") (List.map (@seg_text F) segs));
          segments := segs; reason := None |}.
Proof.
  intros Hne Hw Ht segs. unfold parseTranscriptXML. cbv zeta.
  rewrite (segments_of_document items trailer Hw Ht). fold segs.
  destruct segs as [|seg segs'] eqn:E; [|reflexivity].
  destruct items; [contradiction | discriminate E].
Qed.

End CaptionDocument.

Lemma parseTranscriptXML_reads_document_witness :
  YouTubeServiceB.parseTranscriptXML (fun s => s) (fun a b => a ++ js "+" ++ b)
    (flat_map (fun it : jsstring * jsstring * jsstring * jsstring =>
                 let '(gap, start, dur, body) := it in
                 gap ++ js "<text start=" ++ 34%N :: start ++ 34%N :: js " dur=" ++ 34%N :: dur
                   ++ 34%N :: js ">" ++ body ++ js "</text>")
              [(js "<transcript>", js "0", js "1.5", js "Hello");
               ([], js "1.5", js "2", js "a &amp; b")]
       ++ js "</transcript>")
  = Eff.Ok {| Transcript.text := js "Hello a & b";
              Transcript.segments :=
                [{| Transcript.seg_start := js "0"; Transcript.seg_end := js "0+1.5";
                    Transcript.seg_text := js "Hello" |};
                 {| Transcript.seg_start := js "1.5"; Transcript.seg_end := js "1.5+2";
                    Transcript.seg_text := js "a & b" |}];
              Transcript.reason := None |}.
Proof.
  apply (parseTranscriptXML_reads_document jsstring (fun s => s)
           (fun a b => a ++ js "+" ++ b)
           [(js "<transcript>", js "0", js "1.5", js "Hello");
            ([], js "1.5", js "2", js "a &amp; b")]
           (js "</transcript>")).
  - discriminate.
  - repeat constructor; try discriminate; try (vm_compute; reflexivity);
      vm_compute; intuition discriminate.
  - vm_compute. reflexivity.
Defined.

(** ** Caption tracks, continued *)

Section TrackNeverUndefined.

Import Eff CaptionTracks.

(** X12: of a non-empty list [selectBestCaptionTrack] returns one of its
    items or throws; it does not return [undefined], so the caller's
    [No suitable caption track found] is never thrown. *)
Theorem selectBestCaptionTrack_never_undefined
    (captions : list caption) (langs : list jsstring) :
  captions <> [] ->
  selectBestCaptionTrack captions langs <> Ok None /\
  forall c, selectBestCaptionTrack captions langs = Ok (Some c) -> In c captions.
Proof.
  intro Hne. unfold selectBestCaptionTrack.
  destruct (exact_match captions langs) as [c|] eqn:E.
  - split; [discriminate|]. intros c' H. inversion H. subst c'.
    exact (proj1 (exact_match_spec captions langs c E)).
  - assert (Fm : forall prefix c, find_family prefix captions = Ok (Some c) -> In c captions).
    { intros prefix. generalize captions as l.
      induction l as [|c0 l IH]; intros c H; simpl in H; [discriminate H|].
      destruct (language c0) as [l0|]; [|discriminate H].
      destruct (startsWith l0 prefix).
      - inversion H. left. reflexivity.
      - right. apply IH. exact H. }
    assert (Fl : forall c, family_match captions langs = Ok (Some c) -> In c captions).
    { induction langs as [|lang langs' IH]; intros c H; simpl in H; [discriminate H|].
      destruct (find_family (lang ++ js "-") captions) as [[c0|]|e] eqn:Ef.
      - inversion H. subst c0. exact (Fm _ _ Ef).
      - apply IH; [|exact H].
        simpl in E. destruct (find (has_language lang) captions); [discriminate E | exact E].
      - discriminate H. }
    destruct (family_match captions langs) as [[c|]|e].
    + split; [discriminate|]. intros c' H. inversion H. subst c'. apply Fl. reflexivity.
    + destruct (find language_truthy captions) as [c|] eqn:Ft.
      * split; [discriminate|]. intros c' H. inversion H. subst c'.
        apply find_some in Ft. apply Ft.
      * destruct captions as [|c0 rest]; [contradiction|]. cbn [hd_error].
        split; [discriminate|]. intros c' H. inversion H. left. reflexivity.
    + split; [discriminate|]. intros c' H. discriminate H.
Qed.

End TrackNeverUndefined.

Lemma selectBestCaptionTrack_never_undefined_witness :
  CaptionTracks.selectBestCaptionTrack
    [{| CaptionTracks.track_id := js "t1"; CaptionTracks.language := Some [] |}] [js "en"]
  <> Eff.Ok None.
Proof.
  apply (selectBestCaptionTrack_never_undefined
           [{| CaptionTracks.track_id := js "t1"; CaptionTracks.language := Some [] |}]
           [js "en"]).
  discriminate.
Defined.

(** ** Caption content *)

Section ContentDispatch.

Import Eff Regex Transcript YouTubeServiceB CaptionContent.
Local Open Scope N_scope.

Lemma dropWhile_keeps (p : N -> bool) (x : N) (l2 : jsstring) :
  p x = false ->
  forall l1, exists l1', dropWhile p (l1 ++ x :: l2) = l1' ++ x :: l2.
Proof.
  intros Hx. induction l1 as [|y l1 [l1' IH]]; simpl.
  - exists []. rewrite Hx. reflexivity.
  - destruct (p y); [exists l1'; exact IH | exists (y :: l1); reflexivity].
Qed.

(** Trimming the end keeps everything up to a code unit that is not white
    space. *)
Lemma trimEnd_keeps (a b : jsstring) (x : N) :
  is_space x = false -> exists b', trimEnd (a ++ x :: b) = a ++ x :: b'.
Proof.
  intro Hx. unfold trimEnd. rewrite rev_app_distr. cbn [rev]. rewrite <- app_assoc.
  cbn [app].
  destruct (dropWhile_keeps is_space x (rev a) Hx (rev b)) as [l1' E].
  rewrite E. exists (rev l1').
  rewrite rev_app_distr. cbn [rev]. rewrite rev_involutive, <- app_assoc. reflexivity.
Qed.

Variable F : Type.
Variable parseFloat : jsstring -> F.
Variable add : F -> F -> F.
Variable parseJSON : jsstring -> option (TranscriptResult F).

(** X20: [parseTranscriptContent] of the later revision reads a caption
    document into segments when, trimmed, it begins with [<?xml] or
    [<transcript]. Content that begins with the first [text] element
    itself, and that is not JSON, is not read as XML: it is returned as
    plain text, markup included, without segments. *)
Theorem parseTranscriptContent_needs_header
    (items : list (jsstring * jsstring * jsstring * jsstring)) (trailer rest : jsstring) :
  let document :=
    flat_map (fun it : jsstring * jsstring * jsstring * jsstring =>
                let '(gap, start, dur, body) := it in
                gap ++ js "<text start=" ++ 34 :: start ++ 34 :: js " dur=" ++ 34 :: dur
                  ++ 34 :: js ">" ++ body ++ js "</text>") items ++ trailer in
  let segs :=
    List.map (fun it : jsstring * jsstring * jsstring * jsstring =>
                let '(_, start, dur, body) := it in
                {| seg_start := parseFloat start;
                   seg_end := add (parseFloat start) (parseFloat dur);
                   seg_text := decodeXMLEntities body |}) items in
  (items <> [] ->
   Forall (fun it : jsstring * jsstring * jsstring * jsstring =>
             let '(gap, start, dur, body) := it in
             includes gap (js "<te") = false /\ start <> [] /\ dur <> [] /\
             forallb (fun c => ((48 <=? c) && (c <=? 57)) || (c =? 46)) start = true /\
             forallb (fun c => ((48 <=? c) && (c <=? 57)) || (c =? 46)) dur = true /\
             ~ In 60 body) items ->
   includes trailer (js "<te") = false ->
   startsWith (trim document) (js "<?xml")
   || startsWith (trim document) (js "<transcript") = true ->
   parseTranscriptContent parseFloat add parseJSON document
   = Ok {| text := trim (join (js " ") (List.map (@seg_text F) segs));
           segments := segs; reason := None |}) /\
  (parseJSON (js "<text start=" ++ rest) = None ->
   parseTranscriptContent parseFloat add parseJSON (js "<text start=" ++ rest)
   = Ok {| text := trim (js "<text start=" ++ rest); segments := []; reason := None |} /\
   startsWith (trim (js "<text start=" ++ rest)) (js "<text start=") = true).
Proof.
  intros document segs. split.
  - intros Hne Hw Ht Hh. unfold parseTranscriptContent. fold document. rewrite Hh.
    unfold parseTranscriptXML, document. cbv zeta.
    rewrite (segments_of_document F parseFloat add items trailer Hw Ht). fold segs.
    destruct segs as [|seg segs'] eqn:E; [|reflexivity].
    destruct items; [contradiction | discriminate E].
  - intro Hj. unfold parseTranscriptContent. rewrite Hj.
    assert (E : exists b', trim (js "<text start=" ++ rest) = js "<text start" ++ 61 :: b').
    { unfold trim. change (js "<text start=" ++ rest) with (60 :: js "text start=" ++ rest).
      rewrite trimStart_decimal by reflexivity.
      change (60 :: js "text start=" ++ rest) with (js "<text start" ++ 61 :: rest).
      apply trimEnd_keeps. reflexivity. }
    destruct E as [b' E]. rewrite E. split; [reflexivity|].
    apply startsWith_spec. exists b'.
    change (js "<text start=") with (js "<text start" ++ [61]).
    rewrite <- app_assoc. reflexivity.
Qed.

End ContentDispatch.

Lemma parseTranscriptContent_needs_header_witness :
  CaptionContent.parseTranscriptContent (fun s => s) (fun a b => a ++ js "+" ++ b)
    (fun _ => None)
    (js "<text start=" ++ [34%N] ++ js "0" ++ [34%N] ++ js " dur=" ++ [34%N] ++ js "1.5"
       ++ [34%N] ++ js ">Hello</text>")
  = Eff.Ok {| Transcript.text :=
                js "<text start=" ++ [34%N] ++ js "0" ++ [34%N] ++ js " dur=" ++ [34%N]
                  ++ js "1.5" ++ [34%N] ++ js ">Hello</text>";
              Transcript.segments := []; Transcript.reason := None |}.
Proof.
  apply (proj2 (parseTranscriptContent_needs_header jsstring (fun s => s)
                  (fun a b => a ++ js "+" ++ b) (fun _ => None) [] []
                  ([34%N] ++ js "0" ++ [34%N] ++ js " dur=" ++ [34%N] ++ js "1.5"
                     ++ [34%N] ++ js ">Hello</text>"))).
  reflexivity.
Defined.

(** ** Video metadata *)

Section MetadataRequests.

Import Eff Retry.

Variables (F : Type) (mul min : F -> F -> F) (of_int : Z -> F).
Variables (W T : Type).
Variable sleep : F -> W -> W.

(** An attempt that returns is the only one, and nothing is waited for. *)
Lemma retryOperation_returns (A : Type) (operation : M W A) (opts : RetryOptions F)
    (w w' : W) (a : A) :
  (0 <= maxRetries opts)%Z -> operation w = (Ok a, w') ->
  retryOperation mul min of_int sleep operation opts w = (Ok a, w').
Proof.
  intros Hm Ho. unfold retryOperation. cbv zeta.
  replace (Z.to_nat (maxRetries opts + 1)) with (S (Z.to_nat (maxRetries opts))) by lia.
  rewrite loop_step, Ho. reflexivity.
Qed.

Variable apiKey : jsstring.
Variables fetchVideo fetchOEmbed : jsstring -> M W T.

Lemma getVideoMetadata_returns (videoId : jsstring) (w : W) :
  exists r w',
    YouTubeMetadata.getVideoMetadata apiKey fetchVideo fetchOEmbed videoId w = (Ok r, w').
Proof.
  unfold YouTubeMetadata.getVideoMetadata, YouTubeMetadata.getVideoMetadataFallback,
    try_catch, bind, ret.
  destruct (negb (truthy apiKey)); [eauto|].
  destruct (fetchVideo videoId w) as [[m|e] w1]; [eauto|].
  destruct (fetchOEmbed videoId w1) as [[m|e'] w2]; eauto.
Qed.

Lemma getVideoMetadataB_returns (videoId : jsstring) (w : W) :
  exists r w',
    YouTubeMetadataB.getVideoMetadata apiKey fetchVideo fetchOEmbed videoId w = (Ok r, w').
Proof.
  unfold YouTubeMetadataB.getVideoMetadata, YouTubeMetadataB.getVideoMetadataFallback,
    try_catch, bind, ret, throw.
  destruct (negb (YouTubeMetadataB.isApiKeyValid apiKey)).
  - destruct (fetchOEmbed videoId w) as [[m|e] w1]; [eauto|].
    destruct (fetchOEmbed videoId w1) as [[m|e'] w2]; eauto.
  - destruct (fetchVideo videoId w) as [[m|e] w1]; [eauto|].
    destruct (fetchOEmbed videoId w1) as [[m|e'] w2]; eauto.
Qed.

(** X21: in both revisions [getVideoMetadata] returns whatever the two
    requests do, it never throws; so the [retryOperation] the route wraps
    it in makes one attempt, waits for nothing and returns its result. *)
Theorem getVideoMetadata_never_retried (videoId : jsstring) (opts : RetryOptions F) (w : W) :
  (0 <= maxRetries opts)%Z ->
  (exists r w',
     YouTubeMetadata.getVideoMetadata apiKey fetchVideo fetchOEmbed videoId w = (Ok r, w') /\
     retryOperation mul min of_int sleep
       (YouTubeMetadata.getVideoMetadata apiKey fetchVideo fetchOEmbed videoId) opts w
     = (Ok r, w')) /\
  (exists r w',
     YouTubeMetadataB.getVideoMetadata apiKey fetchVideo fetchOEmbed videoId w = (Ok r, w') /\
     retryOperation mul min of_int sleep
       (YouTubeMetadataB.getVideoMetadata apiKey fetchVideo fetchOEmbed videoId) opts w
     = (Ok r, w')).
Proof.
  intro Hm. split.
  - destruct (getVideoMetadata_returns videoId w) as [r [w' E]].
    exists r, w'. split; [exact E | apply retryOperation_returns; assumption].
  - destruct (getVideoMetadataB_returns videoId w) as [r [w' E]].
    exists r, w'. split; [exact E | apply retryOperation_returns; assumption].
Qed.

(** X22: without a usable key the revisions differ. youtube.ts, with an
    empty key, returns [null] and makes no request at all. The later
    revision, with a key that [validateApiKey] rejects, never asks the
    Data API; it asks oEmbed, and when that request throws it asks oEmbed
    once more before it gives up with [null]. *)
Theorem getVideoMetadata_without_key (videoId : jsstring) (w : W) :
  (apiKey = [] ->
   YouTubeMetadata.getVideoMetadata apiKey
     (fun v => logged YouTubeMetadata.Videos (fetchVideo v))
     (fun v => logged YouTubeMetadata.OEmbed (fetchOEmbed v)) videoId (w, [])
   = (Ok None, (w, []))) /\
  (YouTubeMetadataB.validateApiKey apiKey = false ->
   YouTubeMetadataB.getVideoMetadata apiKey
     (fun v => logged YouTubeMetadata.Videos (fetchVideo v))
     (fun v => logged YouTubeMetadata.OEmbed (fetchOEmbed v)) videoId (w, [])
   = match fetchOEmbed videoId w with
     | (Ok m, w1) => (Ok (Some m), (w1, [YouTubeMetadata.OEmbed]))
     | (Throw _, w1) =>
       match fetchOEmbed videoId w1 with
       | (Ok m, w2) =>
         (Ok (Some m), (w2, [YouTubeMetadata.OEmbed; YouTubeMetadata.OEmbed]))
       | (Throw _, w2) =>
         (Ok None, (w2, [YouTubeMetadata.OEmbed; YouTubeMetadata.OEmbed]))
       end
     end).
Proof.
  split.
  - intros ->. reflexivity.
  - intro Hk.
    unfold YouTubeMetadataB.getVideoMetadata, YouTubeMetadataB.isApiKeyValid.
    rewrite Hk.
    unfold YouTubeMetadataB.getVideoMetadataFallback, try_catch, bind, ret, throw, logged.
    cbn [negb fst snd app].
    destruct (fetchOEmbed videoId w) as [[m|e] w1]; [reflexivity|].
    cbn [fst snd]. destruct (fetchOEmbed videoId w1) as [[m|e'] w2]; reflexivity.
Qed.

End MetadataRequests.

Lemma getVideoMetadata_never_retried_witness :
  (exists r w',
     YouTubeMetadata.getVideoMetadata (js "key")
       (fun _ => Eff.throw (Eff.VError (js "YouTube API error: 403")))
       (fun _ => Eff.throw (Eff.VError (js "oEmbed error: 404"))) (js "dQw4w9WgXcQ")
       (Retry.fresh Z)
     = (@Eff.Ok (option jsstring) r, w') /\
     Retry.retryOperation Z.mul Z.min (fun z => z) (@Retry.scripted_sleep Z)
       (YouTubeMetadata.getVideoMetadata (js "key")
          (fun _ => Eff.throw (Eff.VError (js "YouTube API error: 403")))
          (fun _ => Eff.throw (Eff.VError (js "oEmbed error: 404"))) (js "dQw4w9WgXcQ"))
       {| Retry.maxRetries := 3; Retry.delay := 1000%Z;
          Retry.backoffMultiplier := None; Retry.maxDelay := None |} (Retry.fresh Z)
     = (Eff.Ok r, w')) /\
  (exists r w',
     YouTubeMetadataB.getVideoMetadata (js "key")
       (fun _ => Eff.throw (Eff.VError (js "YouTube API error: 403")))
       (fun _ => Eff.throw (Eff.VError (js "oEmbed error: 404"))) (js "dQw4w9WgXcQ")
       (Retry.fresh Z)
     = (@Eff.Ok (option jsstring) r, w') /\
     Retry.retryOperation Z.mul Z.min (fun z => z) (@Retry.scripted_sleep Z)
       (YouTubeMetadataB.getVideoMetadata (js "key")
          (fun _ => Eff.throw (Eff.VError (js "YouTube API error: 403")))
          (fun _ => Eff.throw (Eff.VError (js "oEmbed error: 404"))) (js "dQw4w9WgXcQ"))
       {| Retry.maxRetries := 3; Retry.delay := 1000%Z;
          Retry.backoffMultiplier := None; Retry.maxDelay := None |} (Retry.fresh Z)
     = (Eff.Ok r, w')).
Proof.
  apply (getVideoMetadata_never_retried Z Z.mul Z.min (fun z => z)
           (Retry.script_world Z) jsstring (@Retry.scripted_sleep Z) (js "key")
           (fun _ => Eff.throw (Eff.VError (js "YouTube API error: 403")))
           (fun _ => Eff.throw (Eff.VError (js "oEmbed error: 404"))) (js "dQw4w9WgXcQ")
           {| Retry.maxRetries := 3; Retry.delay := 1000%Z;
              Retry.backoffMultiplier := None; Retry.maxDelay := None |} (Retry.fresh Z)).
  simpl. lia.
Defined.

Lemma getVideoMetadata_without_key_witness :
  YouTubeMetadataB.getVideoMetadata (js "not-a-key")
    (fun v => Eff.logged YouTubeMetadata.Videos
                (@Eff.throw unit jsstring (Eff.VError (js "YouTube API error: 403"))))
    (fun v => Eff.logged YouTubeMetadata.OEmbed
                (@Eff.throw unit jsstring (Eff.VError (js "oEmbed error: 404"))))
    (js "dQw4w9WgXcQ") (tt, [])
  = (Eff.Ok None, (tt, [YouTubeMetadata.OEmbed; YouTubeMetadata.OEmbed])).
Proof.
  apply (proj2 (getVideoMetadata_without_key unit jsstring (js "not-a-key")
                  (fun _ => Eff.throw (Eff.VError (js "YouTube API error: 403")))
                  (fun _ => Eff.throw (Eff.VError (js "oEmbed error: 404")))
                  (js "dQw4w9WgXcQ") tt)).
  vm_compute. reflexivity.
Defined.

(** ** The text submitted to the providers *)

Section Submitted.

Import LLMService.

(** X23: the text that [generateTLDRAndChapters] submits is the transcript
    itself when that has at most 8000 code units; otherwise it is the
    first 8000 code units followed by three dots, 8003 code units in all.
    Either way it has at most 8003 code units and begins with the
    transcript's first 8000. *)
Theorem truncated_bounds (transcriptText : jsstring) :
  (length (truncated transcriptText) <= 8003)%Z /\
  substring_to (truncated transcriptText) 8000 = substring_to transcriptText 8000 /\
  ((length transcriptText <= 8000)%Z -> truncated transcriptText = transcriptText) /\
  ((8000 < length transcriptText)%Z ->
   truncated transcriptText = substring_to transcriptText 8000 ++ js "..." /\
   length (truncated transcriptText) = 8003%Z).
Proof.
  unfold truncated, substring_to, length. cbv zeta.
  remember (Z.to_nat 8000) as n eqn:En.
  assert (Hn : Z.of_nat n = 8000%Z) by (subst n; apply Z2Nat.id; lia).
  clear En.
  destruct (Z.ltb_spec 8000 (Z.of_nat (List.length transcriptText))) as [L|L].
  - assert (Lf : List.length (firstn n transcriptText) = n)
      by (apply firstn_length_le; lia).
    assert (Ll : List.length (firstn n transcriptText ++ js "...") = (n + 3)%nat)
      by (rewrite length_app, Lf; reflexivity).
    repeat split.
    + rewrite Ll. lia.
    + rewrite firstn_app, Lf, Nat.sub_diag, firstn_firstn, Nat.min_id.
      simpl. apply app_nil_r.
    + intro H. lia.
    + rewrite Ll. lia.
  - repeat split; try reflexivity; intros; lia.
Qed.

End Submitted.

Lemma truncated_bounds_witness :
  LLMService.truncated (js "short transcript") = js "short transcript".
Proof.
  apply (proj1 (proj2 (proj2 (truncated_bounds (js "short transcript"))))).
  vm_compute. intro H. discriminate H.
Defined.

(** ** Durations *)

Section Durations.

Import LLMService ClientFormat.
Local Open Scope N_scope.

(** A number below one hundred prints, padded, as its two decimal digits. *)
Lemma pad2_below_100 (z : Z) :
  (0 <= z < 100)%Z ->
  pad2 (Fin z) = [48 + Z.to_N (z / 10); 48 + Z.to_N (z mod 10)] /\
  is_decimal (48 + Z.to_N (z / 10)) /\ is_decimal (48 + Z.to_N (z mod 10)).
Proof.
  intro H.
  pose proof (Z.div_mod z 10 ltac:(lia)) as E.
  pose proof (Z.mod_pos_bound z 10 ltac:(lia)) as B.
  set (q := (z / 10)%Z) in *. set (r := (z mod 10)%Z) in *.
  assert (Q : (0 <= q < 10)%Z) by lia.
  set (x := 48 + Z.to_N q). set (y := 48 + Z.to_N r).
  assert (Hx : is_decimal x) by (unfold is_decimal, x; lia).
  assert (Hy : is_decimal y) by (unfold is_decimal, y; lia).
  split; [|split; assumption].
  rewrite <- (pad2_two_digits x y Hx Hy). f_equal.
  rewrite parseInt_decimal by (all_decimal || discriminate).
  assert (V : decimal_value [x; y] = Z.to_N z).
  { unfold decimal_value. cbn [fold_left]. unfold x, y. lia. }
  rewrite V.
  rewrite (of_magnitude_below false (Z.to_N z) (Z.to_N z)).
  - f_equal. lia.
  - apply round53_small.
    assert (100 < 2 ^ 53) by (apply N.ltb_lt; vm_compute; reflexivity). lia.
  - assert (100 < 10 ^ 21) by (apply N.ltb_lt; vm_compute; reflexivity). lia.
Qed.

(** X24: for a whole number of seconds from 0 to 359999, [formatDuration]
    prints the minutes and seconds, preceded by the hours from one hour
    on, each as two decimal digits, and the server's [normalizeTimestamp]
    leaves that text as it is. *)
Theorem formatDuration_fields (seconds : Z) :
  (0 <= seconds < 360000)%Z ->
  let two := fun z : Z => [48 + Z.to_N (z / 10); 48 + Z.to_N (z mod 10)] in
  formatDuration seconds
  = (if (seconds <? 3600)%Z
     then two (seconds / 60)%Z ++ 58 :: two (seconds mod 60)%Z
     else two (seconds / 3600)%Z ++ 58 :: two (seconds mod 3600 / 60)%Z
            ++ 58 :: two (seconds mod 60)%Z) /\
  normalizeTimestamp (formatDuration seconds) = formatDuration seconds.
Proof.
  intros H two.
  assert (R1 : Z.rem seconds 3600 = (seconds mod 3600)%Z) by (apply Z.rem_mod_nonneg; lia).
  assert (R2 : Z.rem seconds 60 = (seconds mod 60)%Z) by (apply Z.rem_mod_nonneg; lia).
  pose proof (Z.mod_pos_bound seconds 60 ltac:(lia)) as B1.
  pose proof (Z.mod_pos_bound seconds 3600 ltac:(lia)) as B2.
  assert (Bm : (0 <= seconds mod 3600 / 60 < 60)%Z).
  { split; [apply Z.div_pos; lia | apply Z.div_lt_upper_bound; lia]. }
  assert (Bh : (0 <= seconds / 3600 < 100)%Z).
  { split; [apply Z.div_pos; lia | apply Z.div_lt_upper_bound; lia]. }
  destruct (pad2_below_100 (seconds mod 60) ltac:(lia)) as [Ps [Ds1 Ds2]].
  destruct (pad2_below_100 (seconds mod 3600 / 60) ltac:(lia)) as [Pm [Dm1 Dm2]].
  destruct (pad2_below_100 (seconds / 3600) Bh) as [Ph [Dh1 Dh2]].
  unfold pad2 in Ps, Pm, Ph.
  assert (E : formatDuration seconds
              = if (seconds <? 3600)%Z
                then two (seconds / 60)%Z ++ 58 :: two (seconds mod 60)%Z
                else two (seconds / 3600)%Z ++ 58 :: two (seconds mod 3600 / 60)%Z
                       ++ 58 :: two (seconds mod 60)%Z).
  { unfold formatDuration. cbv zeta. rewrite R1, R2, Ps, Pm.
    change (js ":") with [58].
    destruct (Z.ltb_spec seconds 3600) as [L|L].
    - assert (H0 : (seconds / 3600 = 0)%Z) by (apply Z.div_small; lia).
      rewrite H0. cbn [Z.ltb Z.compare].
      rewrite (Z.mod_small seconds 3600) by lia. reflexivity.
    - assert (H1 : (0 < seconds / 3600)%Z) by (apply Z.div_str_pos; lia).
      replace (0 <? seconds / 3600)%Z with true by (symmetry; apply Z.ltb_lt; exact H1).
      rewrite Ph. reflexivity. }
  split; [exact E|]. rewrite E. unfold two.
  destruct (Z.ltb_spec seconds 3600) as [L|L].
  - rewrite (Z.mod_small seconds 3600) in Dm1, Dm2 by lia. cbn [app].
    apply normalizeTimestamp_canonical; try assumption. left. reflexivity.
  - cbn [app]. apply normalizeTimestamp_canonical; try assumption.
    right. eexists _, _. split; [reflexivity | split; assumption].
Qed.

End Durations.

Lemma formatDuration_fields_witness :
  ClientFormat.formatDuration 3725 = js "01:02:05" /\
  LLMService.normalizeTimestamp (ClientFormat.formatDuration 3725)
  = ClientFormat.formatDuration 3725.
Proof.
  apply (formatDuration_fields 3725). lia.
Defined.

(** ** Identifiers in URLs *)

Ltac decide_comparisons :=
  repeat match goal with
         | |- context [N.eqb ?a ?b] =>
           first [ replace (N.eqb a b) with false by (symmetry; apply N.eqb_neq; lia)
                 | replace (N.eqb a b) with true by (symmetry; apply N.eqb_eq; lia) ]
         | |- context [N.ltb ?a ?b] =>
           first [ replace (N.ltb a b) with false by (symmetry; apply N.ltb_ge; lia)
                 | replace (N.ltb a b) with true by (symmetry; apply N.ltb_lt; lia) ]
         | |- context [N.leb ?a ?b] =>
           first [ replace (N.leb a b) with false by (symmetry; apply N.leb_gt; lia)
                 | replace (N.leb a b) with true by (symmetry; apply N.leb_le; lia) ]
         end.

Section IdentifiersInURLs.

Import Url.
Local Open Scope N_scope.

(** The code units of an identifier. *)
Let idc (c : N) : Prop :=
  97 <= c <= 122 \/ 65 <= c <= 90 \/ 48 <= c <= 57 \/ c = 95 \/ c = 45.

Lemma forallb_idc (f : N -> bool) (s : jsstring) :
  (forall c, idc c -> f c = true) -> Forall idc s -> forallb f s = true.
Proof.
  intros Hf Hs. apply forallb_forall. intros c Hc.
  rewrite Forall_forall in Hs. apply Hf, Hs, Hc.
Qed.

Lemma dropWhile_head (p : N -> bool) (s : jsstring) :
  match s with [] => True | c :: _ => p c = false end -> dropWhile p s = s.
Proof. destruct s as [|c s]; [reflexivity|]. simpl. intros ->. reflexivity. Qed.

(** A text of visible ASCII is not changed by the stripping of the parser. *)
Lemma strip_clean (s : jsstring) :
  forallb (fun c => 32 <? c) s = true -> strip s = s.
Proof.
  intro H. unfold strip. cbv zeta.
  assert (A : forall t, forallb (fun c => 32 <? c) t = true ->
                        dropWhile (fun c => c <=? 32) t = t).
  { intros t Ht. apply dropWhile_head. destruct t as [|c t]; [exact I|].
    simpl in Ht. apply Bool.andb_true_iff in Ht. destruct Ht as [Hc _].
    apply N.ltb_lt in Hc. apply N.leb_gt. exact Hc. }
  rewrite (A s H).
  rewrite A
    by (apply forallb_forall; intros c Hc; apply in_rev in Hc;
        rewrite forallb_forall in H; exact (H c Hc)).
  rewrite rev_involutive.
  rewrite forallb_filter_id; [reflexivity|].
  apply forallb_forall. intros c Hc. rewrite forallb_forall in H.
  specialize (H c Hc). apply N.ltb_lt in H. decide_comparisons. reflexivity.
Qed.

Lemma break_at_none (stop : N -> bool) (s : jsstring) :
  forallb (fun c => negb (stop c)) s = true -> break_at stop s = (s, []).
Proof.
  induction s as [|c s IH]; intro H; [reflexivity|].
  simpl in *. apply Bool.andb_true_iff in H. destruct H as [Hc Hs].
  apply Bool.negb_true_iff in Hc. rewrite Hc, (IH Hs). reflexivity.
Qed.

Lemma code_points_ascii (s : jsstring) :
  forallb (fun c => c <? 128) s = true -> code_points s = s.
Proof.
  induction s as [|c s IH]; intro H; [reflexivity|].
  simpl in H. apply Bool.andb_true_iff in H. destruct H as [Hc Hs].
  apply N.ltb_lt in Hc. cbn [code_points]. unfold is_high, is_low.
  decide_comparisons. cbn [andb]. rewrite (IH Hs). reflexivity.
Qed.

Lemma utf8_bytes_ascii (s : jsstring) :
  forallb (fun c => c <? 128) s = true -> utf8_bytes s = s.
Proof.
  intro H. unfold utf8_bytes. rewrite (code_points_ascii s H).
  induction s as [|c s IH]; [reflexivity|].
  simpl in H. apply Bool.andb_true_iff in H. destruct H as [Hc Hs].
  cbn [flat_map]. unfold utf8_of_cp at 1. rewrite Hc. cbn [app].
  rewrite (IH Hs). reflexivity.
Qed.

Lemma utf8_decode_ascii (s : jsstring) :
  forallb (fun c => c <? 128) s = true -> utf8_decode s = s.
Proof.
  induction s as [|c s IH]; intro H; [reflexivity|].
  simpl in H. apply Bool.andb_true_iff in H. destruct H as [Hc Hs].
  cbn [utf8_decode]. rewrite Hc, (IH Hs). reflexivity.
Qed.

Lemma percent_decode_plain (s : jsstring) :
  ~ In 37 s -> percent_decode s = s.
Proof.
  induction s as [|c s IH]; intro H; [reflexivity|].
  cbn [percent_decode].
  replace (c =? 37) with false
    by (symmetry; apply N.eqb_neq; intro E; apply H; left; exact E).
  rewrite IH by (intro Hin; apply H; right; exact Hin). reflexivity.
Qed.

Lemma map_unchanged (f : N -> N) (s : jsstring) :
  (forall c, In c s -> f c = c) -> List.map f s = s.
Proof.
  intro H. induction s as [|c s IH]; [reflexivity|].
  simpl. rewrite H by (left; reflexivity).
  rewrite IH by (intros d Hd; apply H; right; exact Hd). reflexivity.
Qed.

Lemma percent_encode_plain (s : jsstring) :
  Forall idc s -> percent_encode path_set s = s.
Proof.
  intro H. unfold percent_encode.
  rewrite code_points_ascii
    by (apply forallb_idc; [|exact H]; intros c Hc; apply N.ltb_lt; unfold idc in Hc; lia).
  induction H as [|c s Hc Hs IH]; [reflexivity|].
  cbn [flat_map]. rewrite IH.
  replace ((126 <? c) || path_set c) with false; [reflexivity|].
  symmetry. unfold path_set, is_c0. unfold idc in Hc. decide_comparisons. reflexivity.
Qed.

Lemma idc_not (x : N) (s : jsstring) :
  ~ idc x -> Forall idc s -> ~ In x s.
Proof. intros Hx Hs Hin. rewrite Forall_forall in Hs. exact (Hx (Hs x Hin)). Qed.

Lemma lower_idc (c : N) :
  idc c -> ascii_lower c <> 46 /\ ascii_lower c <> 37 /\ c <> 46.
Proof.
  intro Hc. unfold ascii_lower.
  destruct Hc as [Hc|[Hc|[Hc|[Hc|Hc]]]]; decide_comparisons; cbn [andb]; lia.
Qed.

Lemma eqb_heads (a b : N) (s t : jsstring) : a <> b -> Js.eqb (a :: s) (b :: t) = false.
Proof.
  intro H. unfold Js.eqb. destruct (list_eq_dec N.eq_dec (a :: s) (b :: t)) as [E|E];
    [inversion E; contradiction | reflexivity].
Qed.

Lemma not_dots (s : jsstring) :
  Forall idc s -> double_dot s = false /\ single_dot s = false.
Proof.
  intro H. unfold double_dot, single_dot. cbv zeta.
  destruct H as [|c s Hc Hs]; [split; reflexivity|].
  destruct (lower_idc c Hc) as [L1 [L2 L3]]. cbn [List.map].
  change (js "..") with (46 :: [46]).
  change (js ".%2e") with (46 :: js "%2e").
  change (js "%2e.") with (37 :: js "2e.").
  change (js "%2e%2e") with (37 :: js "2e%2e").
  change (js ".") with (46 :: []). change (js "%2e") with (37 :: js "2e").
  rewrite !(eqb_heads (ascii_lower c) 46) by exact L1.
  rewrite !(eqb_heads (ascii_lower c) 37) by exact L2.
  rewrite (eqb_heads c 46) by exact L3. split; reflexivity.
Qed.

Lemma parse_short_link (id : jsstring) :
  Forall idc id ->
  parse (js "https://youtu.be/" ++ id)
  = Some {| protocol := js "https:"; hostname := js "youtu.be";
            pathname := 47 :: id; searchParams := [] |}.
Proof.
  intro H. unfold parse.
  assert (V : forallb (fun c => 32 <? c) id = true)
    by (apply forallb_idc; [|exact H]; intros c Hc; apply N.ltb_lt; unfold idc in Hc; lia).
  rewrite strip_clean by (rewrite forallb_app, V; reflexivity).
  replace (parse_scheme (js "https://youtu.be/" ++ id))
    with (Some (js "https", js "//youtu.be/" ++ id)) by (vm_compute; reflexivity).
  cbv beta iota zeta.
  change (is_special (js "https")) with true.
  change (Js.eqb (js "https") (js "file")) with false.
  rewrite (break_at_none (fun c => c =? 35) (js "//youtu.be/" ++ id))
    by (rewrite forallb_app; apply andb_true_intro; split; [reflexivity|];
        apply forallb_idc; [|exact H]; intros c Hc; unfold idc in Hc;
        decide_comparisons; reflexivity).
  rewrite (break_at_none (fun c => c =? 63) (js "//youtu.be/" ++ id))
    by (rewrite forallb_app; apply andb_true_intro; split; [reflexivity|];
        apply forallb_idc; [|exact H]; intros c Hc; unfold idc in Hc;
        decide_comparisons; reflexivity).
  cbv beta iota.
  replace (dropWhile (is_slash true) (js "//youtu.be/" ++ id))
    with (js "youtu.be/" ++ id) by (vm_compute; reflexivity).
  replace (break_at (fun c => is_slash true c) (js "youtu.be/" ++ id))
    with (js "youtu.be", 47 :: id) by (vm_compute; reflexivity).
  cbv beta iota.
  replace (parse_authority true (js "youtu.be"))
    with (Some (js "youtu.be")) by (vm_compute; reflexivity).
  cbv beta iota.
  replace (parse_query (List.tl []))
    with (@nil (jsstring * jsstring)) by (vm_compute; reflexivity).
  f_equal. f_equal.
  unfold parse_path, path_split.
  rewrite map_unchanged
    by (intros c Hc; rewrite Forall_forall in H; specialize (H c Hc); unfold idc in H;
        decide_comparisons; reflexivity).
  rewrite split_no_separator by (apply idc_not; [unfold idc; lia | exact H]).
  destruct (not_dots id H) as [D2 D1]. cbn [path_state]. rewrite D2, D1.
  rewrite percent_encode_plain by exact H.
  cbn [rev app serialize_path flat_map]. rewrite app_nil_r. reflexivity.
Qed.

Lemma form_decode_plain (id : jsstring) : Forall idc id -> form_decode id = id.
Proof.
  intro H. unfold form_decode.
  assert (A : forallb (fun c => c <? 128) id = true)
    by (apply forallb_idc; [|exact H]; intros c Hc; apply N.ltb_lt; unfold idc in Hc; lia).
  rewrite utf8_bytes_ascii by exact A.
  rewrite map_unchanged
    by (intros c Hc; rewrite Forall_forall in H; specialize (H c Hc); unfold idc in H;
        decide_comparisons; reflexivity).
  rewrite percent_decode_plain by (apply idc_not; [unfold idc; lia | exact H]).
  apply utf8_decode_ascii. exact A.
Qed.

Lemma parse_watch_link (id : jsstring) :
  Forall idc id ->
  parse (js "https://www.youtube.com/watch?v=" ++ id)
  = Some {| protocol := js "https:"; hostname := js "www.youtube.com";
            pathname := js "/watch"; searchParams := [(js "v", id)] |}.
Proof.
  intro H. unfold parse.
  assert (V : forallb (fun c => 32 <? c) id = true)
    by (apply forallb_idc; [|exact H]; intros c Hc; apply N.ltb_lt; unfold idc in Hc; lia).
  rewrite strip_clean by (rewrite forallb_app, V; reflexivity).
  replace (parse_scheme (js "https://www.youtube.com/watch?v=" ++ id))
    with (Some (js "https", js "//www.youtube.com/watch?v=" ++ id)) by (vm_compute; reflexivity).
  cbv beta iota zeta.
  change (is_special (js "https")) with true.
  change (Js.eqb (js "https") (js "file")) with false.
  rewrite (break_at_none (fun c => c =? 35) (js "//www.youtube.com/watch?v=" ++ id))
    by (rewrite forallb_app; apply andb_true_intro; split; [reflexivity|];
        apply forallb_idc; [|exact H]; intros c Hc; unfold idc in Hc;
        decide_comparisons; reflexivity).
  replace (break_at (fun c => c =? 63) (js "//www.youtube.com/watch?v=" ++ id))
    with (js "//www.youtube.com/watch", 63 :: js "v=" ++ id) by (vm_compute; reflexivity).
  cbv beta iota.
  replace (dropWhile (is_slash true) (js "//www.youtube.com/watch"))
    with (js "www.youtube.com/watch") by (vm_compute; reflexivity).
  replace (break_at (fun c => is_slash true c) (js "www.youtube.com/watch"))
    with (js "www.youtube.com", js "/watch") by (vm_compute; reflexivity).
  cbv beta iota.
  replace (parse_authority true (js "www.youtube.com"))
    with (Some (js "www.youtube.com")) by (vm_compute; reflexivity).
  cbv beta iota.
  replace (parse_path true (js "/watch"))
    with (js "/watch") by (vm_compute; reflexivity).
  f_equal. f_equal.
  unfold parse_query. cbn [List.tl].
  rewrite split_no_separator
    by (intros [E|[E|Hin]]; try discriminate E;
        revert Hin; apply idc_not; [unfold idc; lia | exact H]).
  cbn [List.filter List.map].
  change (truthy (js "v=" ++ id)) with true. cbn [List.map].
  replace (break_at (fun c => c =? 61) (js "v=" ++ id))
    with (js "v", 61 :: id) by (vm_compute; reflexivity).
  cbn [List.tl]. replace (form_decode (js "v"))
    with (js "v") by (vm_compute; reflexivity).
  rewrite form_decode_plain by exact H. reflexivity.
Qed.

(** X25: every identifier that [isValidVideoId] accepts is recovered by
    [extractVideoId], in the routes and in the client helper, from the
    short link and from the watch link that carry it. *)
Theorem extractVideoId_recovers_identifier (videoId : jsstring) :
  YouTubeServiceB.isValidVideoId videoId = true ->
  Routes.extractVideoId parse (js "https://youtu.be/" ++ videoId) = Some videoId /\
  Routes.extractVideoId parse (js "https://www.youtube.com/watch?v=" ++ videoId)
  = Some videoId /\
  YouTubeAPI.extractVideoId parse (js "https://youtu.be/" ++ videoId) = Some videoId /\
  YouTubeAPI.extractVideoId parse (js "https://www.youtube.com/watch?v=" ++ videoId)
  = Some videoId.
Proof.
  intro Hv. apply isValidVideoId_sound in Hv. destruct Hv as [_ H].
  assert (A : Routes.extractVideoId parse (js "https://youtu.be/" ++ videoId)
              = Some videoId).
  { unfold Routes.extractVideoId. rewrite (parse_short_link videoId H). reflexivity. }
  assert (B : Routes.extractVideoId parse (js "https://www.youtube.com/watch?v=" ++ videoId)
              = Some videoId).
  { unfold Routes.extractVideoId. rewrite (parse_watch_link videoId H).
    cbn [hostname searchParams].
    change (Js.eqb (js "www.youtube.com") (js "youtu.be")) with false.
    change (includes (js "www.youtube.com") (js "youtube.com")) with true.
    cbn [searchParams_get]. rewrite eqb_refl. reflexivity. }
  repeat split; assumption.
Qed.

End IdentifiersInURLs.

Lemma extractVideoId_recovers_identifier_witness :
  Routes.extractVideoId Url.parse (js "https://youtu.be/" ++ js "dQw4w9WgXcQ")
  = Some (js "dQw4w9WgXcQ") /\
  Routes.extractVideoId Url.parse (js "https://www.youtube.com/watch?v=" ++ js "dQw4w9WgXcQ")
  = Some (js "dQw4w9WgXcQ") /\
  YouTubeAPI.extractVideoId Url.parse (js "https://youtu.be/" ++ js "dQw4w9WgXcQ")
  = Some (js "dQw4w9WgXcQ") /\
  YouTubeAPI.extractVideoId Url.parse
    (js "https://www.youtube.com/watch?v=" ++ js "dQw4w9WgXcQ")
  = Some (js "dQw4w9WgXcQ").
Proof.
  apply (extractVideoId_recovers_identifier (js "dQw4w9WgXcQ")).
  vm_compute. reflexivity.
Defined.
